(** * Electric simulator: the simulation core, embedded and checked

    Shallow embedding of [simulation/digital_logic.py] (gates, flip-flops,
    wires, the propagation loop, the clock-cycle driver and the truth-table
    generator) and of [simulation/engine.py] (node map, MNA assembly and the
    DC / AC / transient drivers).

    Python floats are modelled by rationals ([Q]); Python exceptions by an
    explicit result type; Python dicts by insertion-ordered association
    lists, since the code iterates over them ([gates.values()],
    [node_map.items()]). *)

From Stdlib Require Import List String Ascii ZArith QArith Bool Lia Arith.
From Stdlib Require Import Qabs Qround Lqa DecimalString.
Import ListNotations.
Open Scope string_scope.
Open Scope list_scope.

(* ================================================================== *)
(** ** Python runtime: exceptions, dicts, lists *)
(* ================================================================== *)

Module Py.

(** The exceptions the modelled code can raise. *)
Inductive exn : Type :=
| ZeroDivisionError
| IndexError
| ValueError
| AttributeError.

(** Outcome of a call: a returned value or a raised exception. *)
Inductive result (A : Type) : Type :=
| Ok (a : A)
| Raise (e : exn).
Arguments Ok {A} a.
Arguments Raise {A} e.

Definition bind {A B : Type} (m : result A) (f : A -> result B) : result B :=
  match m with
  | Ok a => f a
  | Raise e => Raise e
  end.

Arguments bind : simpl never.

Declare Scope py_scope.
Delimit Scope py_scope with py.
Notation "x <- m ;; k" := (bind m (fun x => k))
  (at level 61, m at next level, right associativity) : py_scope.
Notation "' p <- m ;; k" := (bind m (fun x => let p := x in k))
  (at level 61, p pattern, m at next level, right associativity) : py_scope.

Section Dict.
Context {K V : Type}.
Variable eqb : K -> K -> bool.

(** [d.get(k)] ([None] when the key is absent). *)
Fixpoint dict_get (d : list (K * V)) (k : K) : option V :=
  match d with
  | [] => None
  | (k', v) :: d' => if eqb k' k then Some v else dict_get d' k
  end.

(** [k in d]. *)
Definition dict_mem (d : list (K * V)) (k : K) : bool :=
  match dict_get d k with Some _ => true | None => false end.

(** [d[k] = v]: an existing key keeps its position, a new key goes last. *)
Fixpoint dict_set (d : list (K * V)) (k : K) (v : V) : list (K * V) :=
  match d with
  | [] => [(k, v)]
  | (k', v') :: d' =>
      if eqb k' k then (k', v) :: d' else (k', v') :: dict_set d' k v
  end.
End Dict.

(** [l[i]] for a non-negative index. *)
Definition list_index {A : Type} (l : list A) (i : nat) : result A :=
  match nth_error l i with
  | Some a => Ok a
  | None => Raise IndexError
  end.

(** [l[i] = v] for a non-negative index. *)
Fixpoint list_assign {A : Type} (l : list A) (i : nat) (v : A) : result (list A) :=
  match l, i with
  | [], _ => Raise IndexError
  | _ :: l', O => Ok (v :: l')
  | a :: l', S i' =>
      match list_assign l' i' v with
      | Ok r => Ok (a :: r)
      | Raise e => Raise e
      end
  end.

(** [str(z)] of an int. *)
Definition str_of_Z (z : Z) : string := NilZero.string_of_int (Z.to_int z).

End Py.

Import Py.
Open Scope py_scope.

(* ================================================================== *)
(** ** simulation/digital_logic.py *)
(* ================================================================== *)

Module Digital.

(** [class LogicLevel(Enum)] *)
Inductive LogicLevel : Type := LOW | HIGH | UNKNOWN | HIGH_Z.

(** [LogicLevel.value] *)
Definition value (l : LogicLevel) : Z :=
  match l with
  | LOW => 0
  | HIGH => 1
  | UNKNOWN => -1
  | HIGH_Z => -2
  end.

Definition level_eqb (a b : LogicLevel) : bool :=
  match a, b with
  | LOW, LOW | HIGH, HIGH | UNKNOWN, UNKNOWN | HIGH_Z, HIGH_Z => true
  | _, _ => false
  end.

(** [class GateType(Enum)] *)
Inductive GateType : Type :=
| AND | OR | NOT | NAND | NOR | XOR | XNOR | BUFFER
| DFF | JKFF | LATCH
| MULTIPLEXER | DECODER | ENCODER.

(** [class LogicGate] *)
Record LogicGate : Type := mkLogicGate {
  gate_id : string;
  gate_type : GateType;
  num_inputs : Z;
  inputs : list LogicLevel;
  output : LogicLevel;
  propagation_delay : Q;
  last_update_time : Q
}.

(** [LogicGate.__init__] *)
Definition new_LogicGate (gid : string) (gt : GateType) (n : Z) (delay : Q)
  : LogicGate :=
  {| gate_id := gid;
     gate_type := gt;
     num_inputs := n;
     inputs := repeat UNKNOWN (Z.to_nat n);
     output := UNKNOWN;
     propagation_delay := delay;
     last_update_time := 0 |}.

Definition is_high (l : LogicLevel) : bool := level_eqb l HIGH.

(** [sum(1 for i in self.inputs if i == LogicLevel.HIGH)] *)
Definition high_count (l : list LogicLevel) : Z :=
  Z.of_nat (List.length (filter is_high l)).

(** [LogicGate.evaluate] *)
Definition evaluate (g : LogicGate) : result LogicLevel :=
  if existsb (level_eqb UNKNOWN) (inputs g) then Ok UNKNOWN
  else
    match gate_type g with
    | AND => Ok (if forallb is_high (inputs g) then HIGH else LOW)
    | OR => Ok (if existsb is_high (inputs g) then HIGH else LOW)
    | NOT =>
        i0 <- list_index (inputs g) 0 ;;
        Ok (if level_eqb i0 LOW then HIGH else LOW)
    | NAND => Ok (if forallb is_high (inputs g) then LOW else HIGH)
    | NOR => Ok (if existsb is_high (inputs g) then LOW else HIGH)
    | XOR => Ok (if (high_count (inputs g) mod 2 =? 1)%Z then HIGH else LOW)
    | XNOR => Ok (if (high_count (inputs g) mod 2 =? 1)%Z then LOW else HIGH)
    | BUFFER => list_index (inputs g) 0
    | _ => Ok UNKNOWN
    end.

Definition with_inputs (g : LogicGate) (ins : list LogicLevel) : LogicGate :=
  {| gate_id := gate_id g;
     gate_type := gate_type g;
     num_inputs := num_inputs g;
     inputs := ins;
     output := output g;
     propagation_delay := propagation_delay g;
     last_update_time := last_update_time g |}.

Definition with_output (g : LogicGate) (o : LogicLevel) (t : Q) : LogicGate :=
  {| gate_id := gate_id g;
     gate_type := gate_type g;
     num_inputs := num_inputs g;
     inputs := inputs g;
     output := o;
     propagation_delay := propagation_delay g;
     last_update_time := t |}.

(** [LogicGate.set_input] *)
Definition gate_set_input (g : LogicGate) (input_index : Z) (v : LogicLevel)
  : result LogicGate :=
  if ((0 <=? input_index) && (input_index <? num_inputs g))%Z then
    ins <- list_assign (inputs g) (Z.to_nat input_index) v ;;
    Ok (with_inputs g ins)
  else Ok g.

(** [LogicGate.update]: the gate afterwards and whether its output changed. *)
Definition gate_update (g : LogicGate) (current_time : Q)
  : result (LogicGate * bool) :=
  new_output <- evaluate g ;;
  if negb (level_eqb new_output (output g))
  then Ok (with_output g new_output current_time, true)
  else Ok (g, false).

(** [class FlipFlop] *)
Record FlipFlop : Type := mkFlipFlop {
  ff_id : string;
  edge_trigger : string;
  d_input : LogicLevel;
  clock : LogicLevel;
  previous_clock : LogicLevel;
  q_output : LogicLevel;
  q_not_output : LogicLevel;
  setup_time : Q;
  hold_time : Q;
  ff_propagation_delay : Q
}.

(** [FlipFlop.__init__] *)
Definition new_FlipFlop (fid : string) (edge : string) : FlipFlop :=
  {| ff_id := fid;
     edge_trigger := edge;
     d_input := UNKNOWN;
     clock := LOW;
     previous_clock := LOW;
     q_output := LOW;
     q_not_output := HIGH;
     setup_time := 1 # 10000;
     hold_time := 1 # 10000;
     ff_propagation_delay := 1 # 1000 |}.

(** [FlipFlop.set_d] *)
Definition set_d (ff : FlipFlop) (v : LogicLevel) : FlipFlop :=
  {| ff_id := ff_id ff;
     edge_trigger := edge_trigger ff;
     d_input := v;
     clock := clock ff;
     previous_clock := previous_clock ff;
     q_output := q_output ff;
     q_not_output := q_not_output ff;
     setup_time := setup_time ff;
     hold_time := hold_time ff;
     ff_propagation_delay := ff_propagation_delay ff |}.

(** [FlipFlop.set_clock] *)
Definition set_clock (ff : FlipFlop) (v : LogicLevel) : FlipFlop :=
  {| ff_id := ff_id ff;
     edge_trigger := edge_trigger ff;
     d_input := d_input ff;
     clock := v;
     previous_clock := clock ff;
     q_output := q_output ff;
     q_not_output := q_not_output ff;
     setup_time := setup_time ff;
     hold_time := hold_time ff;
     ff_propagation_delay := ff_propagation_delay ff |}.

(** The edge test of [FlipFlop.update]. *)
Definition edge_detected (ff : FlipFlop) : bool :=
  if String.eqb (edge_trigger ff) "rising" then
    level_eqb (previous_clock ff) LOW && level_eqb (clock ff) HIGH
  else if String.eqb (edge_trigger ff) "falling" then
    level_eqb (previous_clock ff) HIGH && level_eqb (clock ff) LOW
  else false.

(** [FlipFlop.update]: the flip-flop afterwards and whether Q changed. *)
Definition ff_update (ff : FlipFlop) : FlipFlop * bool :=
  if edge_detected ff then
    let new_q := d_input ff in
    if negb (level_eqb new_q (q_output ff)) then
      ({| ff_id := ff_id ff;
          edge_trigger := edge_trigger ff;
          d_input := d_input ff;
          clock := clock ff;
          previous_clock := previous_clock ff;
          q_output := new_q;
          q_not_output := if level_eqb new_q LOW then HIGH else LOW;
          setup_time := setup_time ff;
          hold_time := hold_time ff;
          ff_propagation_delay := ff_propagation_delay ff |}, true)
    else (ff, false)
  else (ff, false).

(** [class Wire] *)
Record Wire : Type := mkWire {
  wire_id : string;
  from_gate : string;
  from_output : string;
  to_gate : string;
  to_input : Z;
  signal : LogicLevel
}.

(** [Wire.__init__] *)
Definition new_Wire (wid fg fo tg : string) (ti : Z) : Wire :=
  {| wire_id := wid;
     from_gate := fg;
     from_output := fo;
     to_gate := tg;
     to_input := ti;
     signal := UNKNOWN |}.

Definition with_signal (w : Wire) (s : LogicLevel) : Wire :=
  {| wire_id := wire_id w;
     from_gate := from_gate w;
     from_output := from_output w;
     to_gate := to_gate w;
     to_input := to_input w;
     signal := s |}.

(** [class DigitalCircuitSimulator]; the never-used [event_queue] and
    [simulation_results] attributes are left out. *)
Record DigitalCircuitSimulator : Type := mkSim {
  gates : list (string * LogicGate);
  flip_flops : list (string * FlipFlop);
  wires : list Wire;
  sim_inputs : list (string * LogicLevel);
  sim_outputs : list (string * LogicLevel);
  current_time : Q
}.

(** [DigitalCircuitSimulator.__init__] and [create_digital_simulator] *)
Definition create_digital_simulator : DigitalCircuitSimulator :=
  {| gates := [];
     flip_flops := [];
     wires := [];
     sim_inputs := [];
     sim_outputs := [];
     current_time := 0 |}.

Definition with_gates_wires (s : DigitalCircuitSimulator)
  (gs : list (string * LogicGate)) (ws : list Wire) : DigitalCircuitSimulator :=
  {| gates := gs;
     flip_flops := flip_flops s;
     wires := ws;
     sim_inputs := sim_inputs s;
     sim_outputs := sim_outputs s;
     current_time := current_time s |}.

Definition with_flip_flops (s : DigitalCircuitSimulator)
  (ffs : list (string * FlipFlop)) : DigitalCircuitSimulator :=
  {| gates := gates s;
     flip_flops := ffs;
     wires := wires s;
     sim_inputs := sim_inputs s;
     sim_outputs := sim_outputs s;
     current_time := current_time s |}.

(** [add_gate] *)
Definition add_gate (s : DigitalCircuitSimulator) (gid : string) (gt : GateType)
  (n : Z) (delay : Q) : DigitalCircuitSimulator :=
  with_gates_wires s
    (dict_set String.eqb (gates s) gid (new_LogicGate gid gt n delay)) (wires s).

(** [add_flip_flop] *)
Definition add_flip_flop (s : DigitalCircuitSimulator) (fid edge : string)
  : DigitalCircuitSimulator :=
  with_flip_flops s (dict_set String.eqb (flip_flops s) fid (new_FlipFlop fid edge)).

(** [add_wire] *)
Definition add_wire (s : DigitalCircuitSimulator) (wid fg fo tg : string) (ti : Z)
  : DigitalCircuitSimulator :=
  with_gates_wires s (gates s) (wires s ++ [new_Wire wid fg fo tg ti]).

(** [set_input] *)
Definition set_input (s : DigitalCircuitSimulator) (name : string) (v : LogicLevel)
  : DigitalCircuitSimulator :=
  {| gates := gates s;
     flip_flops := flip_flops s;
     wires := wires s;
     sim_inputs := dict_set String.eqb (sim_inputs s) name v;
     sim_outputs := sim_outputs s;
     current_time := current_time s |}.

(** [sim.flip_flops[fid].set_d(level)], for an id in the table: the direct
    call that drives a D input. *)
Definition drive_d (s : DigitalCircuitSimulator) (fid : string) (v : LogicLevel)
  : DigitalCircuitSimulator :=
  match dict_get String.eqb (flip_flops s) fid with
  | Some ff =>
      with_flip_flops s (dict_set String.eqb (flip_flops s) fid (set_d ff v))
  | None => s
  end.

(** [sim.gates[gid].output = level], guarded by [gid in sim.gates]: how the
    callers and [get_truth_table] force a level onto a gate. *)
Definition force_output (gs : list (string * LogicGate)) (gid : string)
  (v : LogicLevel) : list (string * LogicGate) :=
  match dict_get String.eqb gs gid with
  | Some g =>
      dict_set String.eqb gs gid
        {| gate_id := gate_id g;
           gate_type := gate_type g;
           num_inputs := num_inputs g;
           inputs := inputs g;
           output := v;
           propagation_delay := propagation_delay g;
           last_update_time := last_update_time g |}
  | None => gs
  end.

(** One turn of the wire loop of [propagate]: both end gates must be in the
    gates table, else the wire is passed over. *)
Definition push_wire (gs : list (string * LogicGate)) (w : Wire)
  : result (list (string * LogicGate) * Wire) :=
  match dict_get String.eqb gs (from_gate w), dict_get String.eqb gs (to_gate w) with
  | Some fg, Some tg =>
      let w' := with_signal w (output fg) in
      tg' <- gate_set_input tg (to_input w') (signal w') ;;
      Ok (dict_set String.eqb gs (to_gate w) tg', w')
  | _, _ => Ok (gs, w)
  end.

(** [for wire in self.wires: ...] *)
Fixpoint push_wires (gs : list (string * LogicGate)) (ws : list Wire)
  : result (list (string * LogicGate) * list Wire) :=
  match ws with
  | [] => Ok (gs, [])
  | w :: ws' =>
      '(gs1, w1) <- push_wire gs w ;;
      '(gs2, ws2) <- push_wires gs1 ws' ;;
      Ok (gs2, w1 :: ws2)
  end.

(** [for gate in self.gates.values(): if gate.update(t): changes = True] *)
Fixpoint update_gates (gs : list (string * LogicGate)) (t : Q)
  : result (list (string * LogicGate) * bool) :=
  match gs with
  | [] => Ok ([], false)
  | (k, g) :: gs' =>
      '(g1, c1) <- gate_update g t ;;
      '(gs2, c2) <- update_gates gs' t ;;
      Ok ((k, g1) :: gs2, c1 || c2)
  end.

Definition max_iterations : nat := 100.

(** The [while changes and iterations < max_iterations] loop, entered with
    [changes = True]; [fuel] is [max_iterations - iterations]. *)
Fixpoint propagate_loop (fuel : nat) (t : Q) (gs : list (string * LogicGate))
  (ws : list Wire) (iterations : nat)
  : result (list (string * LogicGate) * list Wire * nat) :=
  match fuel with
  | O => Ok (gs, ws, iterations)
  | S fuel' =>
      '(gs1, changes) <- update_gates gs t ;;
      '(gs2, ws2) <- push_wires gs1 ws ;;
      if changes then propagate_loop fuel' t gs2 ws2 (S iterations)
      else Ok (gs2, ws2, S iterations)
  end.

(** The text printed when the cap is reached (its leading warning sign is
    left out). *)
Definition loop_warning : string :=
  "Warning: Circuit may have combinational loop or oscillation".

(** What a call of [propagate] leaves behind: the simulator, the final value
    of its local [iterations], and the lines it printed.  The Python method
    itself returns [None]. *)
Record Propagated : Type := mkPropagated {
  sim_after : DigitalCircuitSimulator;
  passes : nat;
  printed : list string
}.

(** [DigitalCircuitSimulator.propagate] *)
Definition propagate (s : DigitalCircuitSimulator) : result Propagated :=
  '(gs0, ws0) <- push_wires (gates s) (wires s) ;;
  '(gs1, ws1, iterations) <-
     propagate_loop max_iterations (current_time s) gs0 ws0 0 ;;
  Ok {| sim_after := with_gates_wires s gs1 ws1;
        passes := iterations;
        printed := if (max_iterations <=? iterations)%nat
                   then [loop_warning] else [] |}.

(** [for ff in self.flip_flops.values(): ff.update()] *)
Definition update_flip_flops (ffs : list (string * FlipFlop))
  : list (string * FlipFlop) :=
  map (fun kf => (fst kf, fst (ff_update (snd kf)))) ffs.

(** One recorded state of [simulate_clock_cycle]. *)
Record Snapshot : Type := mkSnapshot {
  cycle : Z;
  edge : string;
  snap_gates : list (string * Z);
  snap_flip_flops : list (string * Z)
}.

Definition snapshot (c : Z) (e : string) (s : DigitalCircuitSimulator) : Snapshot :=
  {| cycle := c;
     edge := e;
     snap_gates := map (fun kg => (fst kg, value (output (snd kg)))) (gates s);
     snap_flip_flops :=
       map (fun kf => (fst kf, value (q_output (snd kf)))) (flip_flops s) |}.

(** Half a cycle of [simulate_clock_cycle]: set the clock input, propagate,
    update the flip-flops, record the state. *)
Definition half_cycle (s : DigitalCircuitSimulator) (clock_signal : string)
  (level : LogicLevel) (c : Z) (e : string)
  : result (DigitalCircuitSimulator * Snapshot * list string) :=
  p <- propagate (set_input s clock_signal level) ;;
  let s1 := with_flip_flops (sim_after p)
              (update_flip_flops (flip_flops (sim_after p))) in
  Ok (s1, snapshot c e s1, printed p).

(** The body of [for cycle in range(num_cycles)], [n] cycles from [c] on. *)
Fixpoint clock_cycles (n : nat) (c : Z) (s : DigitalCircuitSimulator)
  (clock_signal : string)
  : result (DigitalCircuitSimulator * list Snapshot * list string) :=
  match n with
  | O => Ok (s, [], [])
  | S n' =>
      '(s1, rising, out1) <- half_cycle s clock_signal HIGH c "rising" ;;
      '(s2, falling, out2) <- half_cycle s1 clock_signal LOW c "falling" ;;
      '(s3, rest, out3) <- clock_cycles n' (c + 1)%Z s2 clock_signal ;;
      Ok (s3, rising :: falling :: rest, out1 ++ out2 ++ out3)
  end.

(** [DigitalCircuitSimulator.simulate_clock_cycle]: the simulator afterwards,
    the returned [results] and the lines printed on the way. *)
Definition simulate_clock_cycle (s : DigitalCircuitSimulator)
  (clock_signal : string) (num_cycles : Z)
  : result (DigitalCircuitSimulator * list Snapshot * list string) :=
  clock_cycles (Z.to_nat num_cycles) 0 s clock_signal.

(** One row of the truth table. *)
Record Row : Type := mkRow {
  row_inputs : list (string * Z);
  row_outputs : list (string * Z)
}.

(** [bit = (i >> j) & 1] *)
Definition bit_of (i j : Z) : Z := Z.land (Z.shiftr i j) 1.

(** The inner [for j, input_name in enumerate(input_names)] loop, from
    position [j] on. *)
Fixpoint set_combination (s : DigitalCircuitSimulator) (i j : Z)
  (names : list string) (input_values : list (string * Z))
  : DigitalCircuitSimulator * list (string * Z) :=
  match names with
  | [] => (s, input_values)
  | input_name :: rest =>
      let bit := bit_of i j in
      let level := if (bit =? 0)%Z then LOW else HIGH in
      let s1 := set_input s input_name level in
      let s2 := with_gates_wires s1
                  (force_output (gates s1) input_name level) (wires s1) in
      set_combination s2 i (j + 1)%Z rest
        (dict_set String.eqb input_values input_name bit)
  end.

(** [for output_name in output_names: if output_name in self.gates: ...] *)
Fixpoint read_outputs (gs : list (string * LogicGate)) (names : list string)
  (output_values : list (string * Z)) : list (string * Z) :=
  match names with
  | [] => output_values
  | output_name :: rest =>
      match dict_get String.eqb gs output_name with
      | Some g =>
          read_outputs gs rest
            (dict_set String.eqb output_values output_name (value (output g)))
      | None => read_outputs gs rest output_values
      end
  end.

(** The body of [for i in range(num_combinations)], [n] rows from [i] on. *)
Fixpoint truth_rows (n : nat) (i : Z) (s : DigitalCircuitSimulator)
  (input_names output_names : list string)
  : result (DigitalCircuitSimulator * list Row * list string) :=
  match n with
  | O => Ok (s, [], [])
  | S n' =>
      let '(s1, input_values) := set_combination s i 0 input_names [] in
      p <- propagate s1 ;;
      let row := {| row_inputs := input_values;
                    row_outputs :=
                      read_outputs (gates (sim_after p)) output_names [] |} in
      '(s2, rest, out) <-
         truth_rows n' (i + 1)%Z (sim_after p) input_names output_names ;;
      Ok (s2, row :: rest, printed p ++ out)
  end.

(** [DigitalCircuitSimulator.get_truth_table]: the simulator afterwards, the
    returned [truth_table] and the lines printed on the way. *)
Definition get_truth_table (s : DigitalCircuitSimulator)
  (input_names output_names : list string)
  : result (DigitalCircuitSimulator * list Row * list string) :=
  truth_rows (2 ^ List.length input_names) 0 s input_names output_names.

(** One recorded state of [simulate]. *)
Record Sample : Type := mkSample {
  sample_time : Q;
  sample_inputs : list (string * Z);
  sample_gates : list (string * Z);
  sample_flip_flops : list (string * Z);
  sample_wires : list (string * Z)
}.

(** [{w.id: w.signal.value for w in self.wires}] *)
Fixpoint wire_signals (ws : list Wire) (acc : list (string * Z))
  : list (string * Z) :=
  match ws with
  | [] => acc
  | w :: ws' =>
      wire_signals ws' (dict_set String.eqb acc (wire_id w) (value (signal w)))
  end.

Definition sample (s : DigitalCircuitSimulator) : Sample :=
  {| sample_time := current_time s;
     sample_inputs := map (fun kv => (fst kv, value (snd kv))) (sim_inputs s);
     sample_gates := map (fun kg => (fst kg, value (output (snd kg)))) (gates s);
     sample_flip_flops :=
       map (fun kf => (fst kf, value (q_output (snd kf)))) (flip_flops s);
     sample_wires := wire_signals (wires s) [] |}.

(** [self.current_time = t] *)
Definition with_current_time (s : DigitalCircuitSimulator) (t : Q)
  : DigitalCircuitSimulator :=
  {| gates := gates s;
     flip_flops := flip_flops s;
     wires := wires s;
     sim_inputs := sim_inputs s;
     sim_outputs := sim_outputs s;
     current_time := t |}.

(** The [while self.current_time <= duration] loop of [simulate], run for at
    most [fuel] turns: [None] when the loop is still going after them. *)
Fixpoint simulate_loop (fuel : nat) (s : DigitalCircuitSimulator)
  (duration time_step : Q) (results : list Sample) (out : list string)
  : option (result (DigitalCircuitSimulator * list Sample * list string)) :=
  match fuel with
  | O => None
  | S fuel' =>
      if Qle_bool (current_time s) duration then
        match propagate s with
        | Raise e => Some (Raise e)
        | Ok p =>
            let s1 := sim_after p in
            simulate_loop fuel'
              (with_current_time s1 (current_time s1 + time_step)%Q)
              duration time_step (results ++ [sample s1]) (out ++ printed p)
        end
      else Some (Ok (s, results, out))
  end.

(** The dict returned by [simulate]. *)
Record Simulation : Type := mkSimulation {
  sim_success : bool;
  simulation_type : string;
  sim_duration : Q;
  sim_time_step : Q;
  samples : nat;
  sim_results : list Sample
}.

(** [DigitalCircuitSimulator.simulate], given [fuel] turns of its loop: the
    simulator afterwards, the returned dict and the lines printed. *)
Definition simulate (fuel : nat) (s : DigitalCircuitSimulator)
  (duration time_step : Q)
  : option (result (DigitalCircuitSimulator * Simulation * list string)) :=
  match simulate_loop fuel (with_current_time s 0) duration time_step [] [] with
  | None => None
  | Some (Raise e) => Some (Raise e)
  | Some (Ok (s', results, out)) =>
      Some (Ok (s',
                {| sim_success := true;
                   simulation_type := "digital_logic";
                   sim_duration := duration;
                   sim_time_step := time_step;
                   samples := List.length results;
                   sim_results := results |},
                out))
  end.

End Digital.

(* ================================================================== *)
(** ** simulation/engine.py *)
(* ================================================================== *)

Module Engine.

(** A JSON scalar used as a component id and as a dict key: [None] (also the
    value of [d.get("id")] when the key is absent), an int or a str. *)
Inductive pyid : Type :=
| IdNone
| IdInt (z : Z)
| IdStr (s : string).

(** [a == b] *)
Definition pyid_eqb (a b : pyid) : bool :=
  match a, b with
  | IdNone, IdNone => true
  | IdInt x, IdInt y => (x =? y)%Z
  | IdStr x, IdStr y => String.eqb x y
  | _, _ => false
  end.

(** [str(a)], as an f-string formats it. *)
Definition str (a : pyid) : string :=
  match a with
  | IdNone => "None"
  | IdInt z => str_of_Z z
  | IdStr s => s
  end.

(** A component dict: [get("id")], [get("type")], [get("terminals", [])]
    and [get("props", {})] with numeric property values. *)
Record Component : Type := mkComponent {
  comp_id : pyid;
  comp_type : option string;
  terminals : list string;
  props : list (string * Q)
}.

(** The value under ["comp"] of a wire end.  The code calls [.get("id")] on
    it: on a dict this is its id ([IdNone] when it has none, and for the
    default [{}] of a missing key); any other value (a number, a string,
    [None]) has no [get]. *)
Inductive CompRef : Type :=
| CompDict (id : pyid)
| CompValue (v : pyid).

(** One end of a wire dict, when it is a dict: the value under ["comp"] and
    the value under ["terminal"], if any. *)
Record Endpoint : Type := mkEndpoint {
  ep_comp : CompRef;
  ep_terminal : option pyid
}.

(** The value under ["from"] or ["to"] of a wire dict: a dict (the default
    [{}] of a missing key is [EndDict] with [CompDict IdNone] and no
    terminal), or any other value. *)
Inductive End : Type :=
| EndDict (e : Endpoint)
| EndValue (v : pyid).

(** A wire dict: [get("from", {})] and [get("to", {})]. *)
Record Wire : Type := mkWire {
  wire_from : End;
  wire_to : End
}.

(** [component.get("type") == t] *)
Definition type_is (c : Component) (t : string) : bool :=
  match comp_type c with
  | Some t' => String.eqb t' t
  | None => false
  end.

(** [component.get("props", {}).get(name, default)] *)
Definition prop (c : Component) (name : string) (default : Q) : Q :=
  match dict_get String.eqb (props c) name with
  | Some v => v
  | None => default
  end.

(** [endpoint.get("terminal", 0)] *)
Definition terminal_of (e : Endpoint) : pyid :=
  match ep_terminal e with
  | Some t => t
  | None => IdInt 0
  end.

(** [wire.get(side, {}).get("comp", {}).get("id")]: [.get] on a value that is
    no dict raises AttributeError. *)
Definition end_comp_id (e : End) : result pyid :=
  match e with
  | EndDict ep =>
      match ep_comp ep with
      | CompDict id => Ok id
      | CompValue _ => Raise AttributeError
      end
  | EndValue _ => Raise AttributeError
  end.

(** [wire.get(side, {}).get("terminal", 0)] *)
Definition end_terminal (e : End) : result pyid :=
  match e with
  | EndDict ep => Ok (terminal_of ep)
  | EndValue _ => Raise AttributeError
  end.

(** [f"{comp}_{term}"] *)
Definition term_key (comp term : pyid) : pyid :=
  IdStr (str comp ++ "_" ++ str term)%string.

Definition NodeMap : Type := list (pyid * Z).

(** The inner loop of "Assign node numbers": the terminals of one component,
    from index [term_idx] on. *)
Fixpoint assign_terminals (cid : pyid) (ts : list string) (term_idx : Z)
  (node_map : NodeMap) (next_node : Z) : NodeMap * Z :=
  match ts with
  | [] => (node_map, next_node)
  | _ :: ts' =>
      let k := term_key cid (IdInt term_idx) in
      if dict_mem pyid_eqb node_map k
      then assign_terminals cid ts' (term_idx + 1)%Z node_map next_node
      else assign_terminals cid ts' (term_idx + 1)%Z
             (dict_set pyid_eqb node_map k (next_node + 1)%Z) (next_node + 1)%Z
  end.

(** The loop "Assign node numbers". *)
Fixpoint assign_nodes (cs : list Component) (ground_node : pyid)
  (node_map : NodeMap) (next_node : Z) : NodeMap * Z :=
  match cs with
  | [] => (node_map, next_node)
  | c :: cs' =>
      if pyid_eqb (comp_id c) ground_node
      then assign_nodes cs' ground_node node_map next_node
      else
        let '(m, n) :=
          assign_terminals (comp_id c) (terminals c) 0 node_map next_node in
        assign_nodes cs' ground_node m n
  end.

(** The [if] block of the loop "Merge nodes connected by wires". *)
Definition merge_keys (node_map : NodeMap) (from_key to_key : pyid) : NodeMap :=
  match dict_get pyid_eqb node_map from_key, dict_get pyid_eqb node_map to_key with
  | Some a, Some b =>
      let min_node := Z.min a b in
      dict_set pyid_eqb (dict_set pyid_eqb node_map from_key min_node)
        to_key min_node
  | _, _ => node_map
  end.

(** One turn of the loop "Merge nodes connected by wires". *)
Definition merge_wire (node_map : NodeMap) (w : Wire) : result NodeMap :=
  from_comp <- end_comp_id (wire_from w) ;;
  from_term <- end_terminal (wire_from w) ;;
  to_comp <- end_comp_id (wire_to w) ;;
  to_term <- end_terminal (wire_to w) ;;
  let from_key := term_key from_comp from_term in
  let to_key := term_key to_comp to_term in
  Ok (merge_keys node_map from_key to_key).

(** The loop "Merge nodes connected by wires". *)
Fixpoint merge_wires (wires : list Wire) (node_map : NodeMap)
  : result NodeMap :=
  match wires with
  | [] => Ok node_map
  | w :: ws =>
      node_map1 <- merge_wire node_map w ;;
      merge_wires ws node_map1
  end.

(** [_build_node_map]: the node map and the ground id ([IdNone] for [None]). *)
Definition _build_node_map (components : list Component) (wires : list Wire)
  : result (NodeMap * pyid) :=
  let '(node_map0, ground_node) :=
    match find (fun c => type_is c "ground") components with
    | Some c => (dict_set pyid_eqb [] (comp_id c) 0%Z, comp_id c)
    | None => ([], IdNone)
    end in
  let '(node_map1, _) := assign_nodes components ground_node node_map0 0 in
  node_map2 <- merge_wires wires node_map1 ;;
  Ok (node_map2, ground_node).

(** *** NumPy arrays *)

Definition Vector : Type := list Q.
Definition Matrix : Type := list (list Q).

(** [np.zeros(n)] and [np.zeros((n, n))] *)
Definition zeros (n : nat) : Vector := repeat 0%Q n.
Definition zeros2 (n : nat) : Matrix := repeat (zeros n) n.

(** Index normalisation along an axis of length [n]: negative indices count
    from the end, anything else out of range raises. *)
Definition np_index (n : nat) (i : Z) : result nat :=
  if ((0 <=? i) && (i <? Z.of_nat n))%Z then Ok (Z.to_nat i)
  else if ((- Z.of_nat n <=? i) && (i <? 0))%Z then Ok (Z.to_nat (i + Z.of_nat n))
  else Raise IndexError.

(** [v[i]] *)
Definition vec_get (v : Vector) (i : Z) : result Q :=
  k <- np_index (List.length v) i ;;
  list_index v k.

(** [v[i] = x] *)
Definition vec_set (v : Vector) (i : Z) (x : Q) : result Vector :=
  k <- np_index (List.length v) i ;;
  list_assign v k x.

(** [G[i, j] += x] *)
Definition mat_add (G : Matrix) (i j : Z) (x : Q) : result Matrix :=
  k <- np_index (List.length G) i ;;
  row <- list_index G k ;;
  old <- vec_get row j ;;
  row' <- vec_set row j (old + x)%Q ;;
  list_assign G k row'.

(** [a / b] on numbers. *)
Definition pydiv (a b : Q) : result Q :=
  if Qeq_bool b 0 then Raise ZeroDivisionError else Ok (a / b)%Q.

(** [r > 0] *)
Definition positive (r : Q) : bool := negb (Qle_bool r 0).

(** [g = 1.0 / r if r > 0 else 0] *)
Definition conductance (r : Q) : result Q :=
  if positive r then pydiv 1 r else Ok 0%Q.

(** [i = v / r if r > 0 else 0] *)
Definition resistor_current (v r : Q) : result Q :=
  if positive r then pydiv v r else Ok 0%Q.

(** Equality of two props dicts, regardless of key order. *)
Definition props_eqb (a b : list (string * Q)) : bool :=
  (List.length a =? List.length b)%nat &&
  forallb (fun kv => match dict_get String.eqb b (fst kv) with
                     | Some v => Qeq_bool (snd kv) v
                     | None => false
                     end) a.

Definition option_string_eqb (a b : option string) : bool :=
  match a, b with
  | Some x, Some y => String.eqb x y
  | None, None => true
  | _, _ => false
  end.

Fixpoint strings_eqb (a b : list string) : bool :=
  match a, b with
  | [], [] => true
  | x :: a', y :: b' => String.eqb x y && strings_eqb a' b'
  | _, _ => false
  end.

(** [c1 == c2] on component dicts. *)
Definition component_eqb (c1 c2 : Component) : bool :=
  pyid_eqb (comp_id c1) (comp_id c2) &&
  option_string_eqb (comp_type c1) (comp_type c2) &&
  strings_eqb (terminals c1) (terminals c2) &&
  props_eqb (props c1) (props c2).

(** [voltage_sources.index(component)] *)
Fixpoint index_of (l : list Component) (c : Component) : result Z :=
  match l with
  | [] => Raise ValueError
  | x :: l' =>
      if component_eqb x c then Ok 0%Z
      else i <- index_of l' c ;; Ok (i + 1)%Z
  end.

(** [node_map.get(f"{comp_id}_{k}", 0)] *)
Definition node_of (node_map : NodeMap) (cid : pyid) (k : Z) : Z :=
  match dict_get pyid_eqb node_map (term_key cid (IdInt k)) with
  | Some n => n
  | None => 0%Z
  end.

(** [_add_component_to_mna]: the matrices after the in-place updates ([Ivec]
    is the current vector [I]). *)
Definition _add_component_to_mna (component : Component) (G : Matrix)
  (Ivec : Vector) (node_map : NodeMap) (ground_node : pyid)
  (voltage_sources : list Component) : result (Matrix * Vector) :=
  if type_is component "resistor" then
    let n1 := node_of node_map (comp_id component) 0 in
    let n2 := node_of node_map (comp_id component) 1 in
    let r := prop component "resistance" 1000 in
    g <- conductance r ;;
    G1 <- (if (0 <? n1)%Z then
             Ga <- mat_add G (n1 - 1) (n1 - 1) g ;;
             (if (0 <? n2)%Z then mat_add Ga (n1 - 1) (n2 - 1) (- g)%Q
              else Ok Ga)
           else Ok G) ;;
    G2 <- (if (0 <? n2)%Z then
             Gb <- mat_add G1 (n2 - 1) (n2 - 1) g ;;
             (if (0 <? n1)%Z then mat_add Gb (n2 - 1) (n1 - 1) (- g)%Q
              else Ok Gb)
           else Ok G1) ;;
    Ok (G2, Ivec)
  else if type_is component "battery" then
    let n1 := node_of node_map (comp_id component) 0 in
    let n2 := node_of node_map (comp_id component) 1 in
    let v := prop component "voltage" 9 in
    vs_idx <- index_of voltage_sources component ;;
    let num_nodes :=
      (Z.of_nat (List.length G) - Z.of_nat (List.length voltage_sources))%Z in
    let row := (num_nodes + vs_idx)%Z in
    G1 <- (if (0 <? n1)%Z then
             Ga <- mat_add G (n1 - 1) row 1 ;;
             mat_add Ga row (n1 - 1) 1
           else Ok G) ;;
    G2 <- (if (0 <? n2)%Z then
             Gb <- mat_add G1 (n2 - 1) row (- (1))%Q ;;
             mat_add Gb row (n2 - 1) (- (1))%Q
           else Ok G1) ;;
    Ivec1 <- vec_set Ivec row v ;;
    Ok (G2, Ivec1)
  else Ok (G, Ivec).

(** [_get_component_voltage] *)
Definition _get_component_voltage (component : Component) (V : Vector)
  (node_map : NodeMap) (ground_node : pyid) : result Q :=
  let n1 := node_of node_map (comp_id component) 0 in
  let n2 := node_of node_map (comp_id component) 1 in
  v1 <- (if (0 <? n1)%Z then vec_get V (n1 - 1) else Ok 0%Q) ;;
  v2 <- (if (0 <? n2)%Z then vec_get V (n2 - 1) else Ok 0%Q) ;;
  Ok (v1 - v2)%Q.

(** The dict returned by [simulate_dc]; ["error"] is present on failure only,
    ["node_voltages"] on success only. *)
Record DCResult : Type := mkDCResult {
  success : bool;
  error : option string;
  voltages : list (pyid * Q);
  currents : list (pyid * Q);
  node_voltages : option (list (pyid * Q))
}.

(** The loop "Process components". *)
Fixpoint stamp_all (cs : list Component) (G : Matrix) (Ivec : Vector)
  (node_map : NodeMap) (ground_node : pyid) (voltage_sources : list Component)
  : result (Matrix * Vector) :=
  match cs with
  | [] => Ok (G, Ivec)
  | c :: cs' =>
      '(G1, Ivec1) <- _add_component_to_mna c G Ivec node_map ground_node
                     voltage_sources ;;
      stamp_all cs' G1 Ivec1 node_map ground_node voltage_sources
  end.

(** The loop "Node voltages". *)
Fixpoint node_voltage_entries (items : NodeMap) (V : Vector)
  (volts : list (pyid * Q)) : result (list (pyid * Q)) :=
  match items with
  | [] => Ok volts
  | (node_id, node_idx) :: rest =>
      if (0 <? node_idx)%Z then
        x <- vec_get V (node_idx - 1) ;;
        node_voltage_entries rest V
          (dict_set pyid_eqb volts (IdStr ("node_" ++ str node_id)%string) x)
      else node_voltage_entries rest V volts
  end.

(** The loop "Component voltages and currents". *)
Fixpoint component_entries (cs : list Component) (V : Vector)
  (node_map : NodeMap) (ground_node : pyid) (voltage_sources : list Component)
  (num_nodes : Z) (volts curs : list (pyid * Q))
  : result (list (pyid * Q) * list (pyid * Q)) :=
  match cs with
  | [] => Ok (volts, curs)
  | c :: cs' =>
      if type_is c "resistor" then
        v <- _get_component_voltage c V node_map ground_node ;;
        let r := prop c "resistance" 1000 in
        i <- resistor_current v r ;;
        component_entries cs' V node_map ground_node voltage_sources num_nodes
          (dict_set pyid_eqb volts (comp_id c) (Qabs v))
          (dict_set pyid_eqb curs (comp_id c) (Qabs i))
      else if type_is c "battery" then
        idx <- index_of voltage_sources c ;;
        x <- vec_get V (num_nodes + idx) ;;
        component_entries cs' V node_map ground_node voltage_sources num_nodes
          (dict_set pyid_eqb volts (comp_id c) (prop c "voltage" 9))
          (dict_set pyid_eqb curs (comp_id c) (Qabs x))
      else
        component_entries cs' V node_map ground_node voltage_sources num_nodes
          volts curs
  end.

Definition no_ground_result : DCResult :=
  {| success := false;
     error := Some "No ground node found";
     voltages := [];
     currents := [];
     node_voltages := None |}.

Definition singular_result : DCResult :=
  {| success := false;
     error := Some "Singular matrix - cannot solve circuit";
     voltages := [];
     currents := [];
     node_voltages := None |}.

Section WithLibraries.

(** [scipy.linalg.solve], outside the repository: [None] stands for any
    exception it raises, which the bare [except] of [simulate_dc] catches. *)
Variable solve : Matrix -> Vector -> option Vector.

(** [np.arange(start, stop, step)] followed by [.tolist()], outside the
    repository: the time points NumPy returns, or the exception it raises. *)
Variable np_arange : Q -> Q -> Q -> result (list Q).

(** [simulate_dc] *)
Definition simulate_dc (components : list Component) (wires : list Wire)
  : result DCResult :=
  '(node_map, ground_node) <- _build_node_map components wires ;;
  match ground_node with
  | IdNone => Ok no_ground_result
  | _ =>
      let num_nodes := (Z.of_nat (List.length node_map) - 1)%Z in
      let voltage_sources :=
        filter (fun c => type_is c "battery") components in
      let num_vsources := Z.of_nat (List.length voltage_sources) in
      let n := Z.to_nat (num_nodes + num_vsources) in
      '(G, Ivec) <- stamp_all components (zeros2 n) (zeros n) node_map
                   ground_node voltage_sources ;;
      match solve G Ivec with
      | None => Ok singular_result
      | Some V =>
          volts0 <- node_voltage_entries node_map V [] ;;
          '(volts, curs) <- component_entries components V node_map
                              ground_node voltage_sources num_nodes
                              volts0 [] ;;
          Ok {| success := true;
                error := None;
                voltages := volts;
                currents := curs;
                node_voltages := Some volts |}
      end
  end.

(** The two "Store results" loops of [simulate_transient], for one of the
    history dicts. *)
Fixpoint append_history (items : list (pyid * Q))
  (history : list (pyid * list Q)) : list (pyid * list Q) :=
  match items with
  | [] => history
  | (key, v) :: rest =>
      let h := if dict_mem pyid_eqb history key then history
               else dict_set pyid_eqb history key [] in
      let old := match dict_get pyid_eqb h key with
                 | Some l => l
                 | None => []
                 end in
      append_history rest (dict_set pyid_eqb h key (old ++ [v]))
  end.

(** The loop [for t in time_points] of [simulate_transient]. *)
Fixpoint transient_steps (time_points : list Q) (components : list Component)
  (wires : list Wire) (voltage_history current_history : list (pyid * list Q))
  : result (list (pyid * list Q) * list (pyid * list Q)) :=
  match time_points with
  | [] => Ok (voltage_history, current_history)
  | _ :: rest =>
      results <- simulate_dc components wires ;;
      transient_steps rest components wires
        (append_history (voltages results) voltage_history)
        (append_history (currents results) current_history)
  end.

(** The dict returned by [simulate_transient]. *)
Record TransientResult : Type := mkTransientResult {
  t_success : bool;
  time : list Q;
  t_voltages : list (pyid * list Q);
  t_currents : list (pyid * list Q)
}.

(** [simulate_transient] *)
Definition simulate_transient (components : list Component)
  (wires : list Wire) (duration time_step : Q) : result TransientResult :=
  time_points <- np_arange 0 duration time_step ;;
  '(voltage_history, current_history) <-
     transient_steps time_points components wires [] [] ;;
  Ok {| t_success := true;
        time := time_points;
        t_voltages := voltage_history;
        t_currents := current_history |}.

End WithLibraries.

(** A frequency of the sweep, kept as its decimal exponent: [Pow10 e] is
    [10 ** e]. *)
Inductive Frequency : Type := Pow10 (e : Q).

(** [np.linspace(start, stop, num)] *)
Definition linspace (start stop : Q) (num : nat) : list Q :=
  map (fun k => (start + inject_Z (Z.of_nat k) *
                   ((stop - start) / inject_Z (Z.of_nat num - 1)))%Q)
    (seq 0 num).

(** [np.logspace(start, stop, num)] *)
Definition logspace (start stop : Q) (num : nat) : list Frequency :=
  map Pow10 (linspace start stop num).

(** The dict returned by [simulate_ac]. *)
Record ACResult : Type := mkACResult {
  ac_success : bool;
  frequencies : list Frequency;
  magnitude : list Q;
  phase : list Q
}.

(** [simulate_ac] *)
Definition simulate_ac (components : list Component) (wires : list Wire)
  : ACResult :=
  let freqs := logspace 0 6 100 in
  {| ac_success := true;
     frequencies := freqs;
     magnitude := map (fun _ => 1%Q) freqs;
     phase := map (fun _ => 0%Q) freqs |}.

(** What [simulate] hands back, by analysis. *)
Inductive Results : Type :=
| DC (r : DCResult)
| AC (r : ACResult)
| Transient (r : TransientResult).

(** [simulate] *)
Definition simulate (solve : Matrix -> Vector -> option Vector)
  (np_arange : Q -> Q -> Q -> result (list Q))
  (components : list Component) (wires : list Wire) (simulation_type : string)
  (duration time_step : Q) : result Results :=
  if String.eqb simulation_type "dc" then
    r <- simulate_dc solve components wires ;; Ok (DC r)
  else if String.eqb simulation_type "ac" then
    Ok (AC (simulate_ac components wires))
  else if String.eqb simulation_type "transient" then
    r <- simulate_transient solve np_arange components wires duration time_step ;;
    Ok (Transient r)
  else Raise ValueError.

(** One entry of the dict returned by [calculate_component_states];
    ["brightness"] is present for LEDs only. *)
Record ComponentState : Type := mkComponentState {
  st_voltage : Q;
  st_current : Q;
  st_power : Q;
  st_status : string;
  st_brightness : option Q
}.

(** [d.get(key, 0)] on a dict of numbers. *)
Definition get0 (d : list (pyid * Q)) (key : pyid) : Q :=
  match dict_get pyid_eqb d key with
  | Some v => v
  | None => 0%Q
  end.

(** [a > b] and [a < b] on numbers. *)
Definition num_gt (a b : Q) : bool := negb (Qle_bool a b).
Definition num_lt (a b : Q) : bool := negb (Qle_bool b a).

(** [min(a, b)] on numbers: [b] only when it is strictly smaller. *)
Definition pymin (a b : Q) : Q := if num_lt b a then b else a.

(** The body of the loop of [calculate_component_states]. *)
Definition component_state (component : Component)
  (voltages currents : list (pyid * Q)) : ComponentState :=
  let voltage := get0 voltages (comp_id component) in
  let current := get0 currents (comp_id component) in
  let power := (voltage * current)%Q in
  if type_is component "resistor" then
    let max_power := prop component "power" (1 # 4) in
    {| st_voltage := voltage; st_current := current; st_power := power;
       st_status :=
         if num_gt power max_power then "overload"
         else if num_gt power (max_power * (8 # 10))%Q then "warning"
         else "normal";
       st_brightness := None |}
  else if type_is component "led" then
    if num_gt current (1 # 1000) then
      {| st_voltage := voltage; st_current := current; st_power := power;
         st_status := "on";
         st_brightness := Some (pymin 100 ((current / (2 # 100)) * 100)%Q) |}
    else
      {| st_voltage := voltage; st_current := current; st_power := power;
         st_status := "off";
         st_brightness := Some 0%Q |}
  else
    {| st_voltage := voltage; st_current := current; st_power := power;
       st_status := "normal";
       st_brightness := None |}.

(** [calculate_component_states], on the ["voltages"] and ["currents"] dicts
    of a result whose values are numbers (a DC result; both are empty for an
    AC result). *)
Fixpoint calculate_component_states (components : list Component)
  (voltages currents : list (pyid * Q)) (states : list (pyid * ComponentState))
  : list (pyid * ComponentState) :=
  match components with
  | [] => states
  | c :: cs =>
      calculate_component_states cs voltages currents
        (dict_set pyid_eqb states (comp_id c) (component_state c voltages currents))
  end.




End Engine.

(* ================================================================== *)
(** ** Vocabulary of the statements and the circuits they are tried on *)
(* ================================================================== *)

Module PySpec.

(** A call that raises raises [x]. *)
Definition raises_only {A : Type} (x : exn) (r : result A) : Prop :=
  forall e, r = Raise e -> e = x.

(** A call does not raise [x]. *)
Definition never_raises {A : Type} (x : exn) (r : result A) : Prop :=
  r <> Raise x.

End PySpec.

Module DigitalSpec.
Import Digital.

(** A gate as [LogicGate.__init__] and [set_input] leave it: as many inputs
    as [num_inputs] says, and at least one for the two types whose
    [evaluate] reads [inputs[0]]. *)
Definition gate_ok (g : LogicGate) : bool :=
  (List.length (inputs g) =? Z.to_nat (num_inputs g))%nat &&
  match gate_type g with
  | NOT | BUFFER => (1 <=? List.length (inputs g))%nat
  | _ => true
  end.

Definition gates_ok (gs : list (string * LogicGate)) : Prop :=
  Forall (fun kg => gate_ok (snd kg) = true) gs.

(** The wire loop passes over [w]: one of its end ids is no key of [gs]. *)
Definition skipped (gs : list (string * LogicGate)) (w : Wire) : bool :=
  negb (dict_mem String.eqb gs (from_gate w) &&
        dict_mem String.eqb gs (to_gate w)).

(** A flip-flop whose [update] sees no edge. *)
Definition idle (ff : FlipFlop) : bool := negb (edge_detected ff).

(** The flip-flop part of a snapshot taken on the table [ffs]. *)
Definition q_values (ffs : list (string * FlipFlop)) : list (string * Z) :=
  map (fun kf => (fst kf, value (q_output (snd kf)))) ffs.

(** The inputs column of row [i] for pairwise distinct input names: input
    [j] carries binary digit [j] of [i]. *)
Definition binary_row (i : Z) (names : list string) : list (string * Z) :=
  combine names
    (map (fun j => Z.b2z (Z.testbit i (Z.of_nat j))) (seq 0 (List.length names))).

End DigitalSpec.

Module Circuits.
Import Digital.

Definition delay : Q := 1 # 1000.

(** A lone 2-input AND gate. *)
Definition and_only : DigitalCircuitSimulator :=
  add_gate create_digital_simulator "and1" AND 2 delay.

(** The AND gate fed by two input gates [a] and [b]. *)
Definition and_buffered : DigitalCircuitSimulator :=
  add_wire
    (add_wire
       (add_gate
          (add_gate (add_gate create_digital_simulator "a" BUFFER 1 delay)
             "b" BUFFER 1 delay)
          "and1" AND 2 delay)
       "w1" "a" "output" "and1" 0)
    "w2" "b" "output" "and1" 1.

(** One rising-edge flip-flop [ff] whose D input has been set HIGH. *)
Definition dff_high : DigitalCircuitSimulator :=
  drive_d (add_flip_flop create_digital_simulator "ff" "rising") "ff" HIGH.

(** A gate [g] of type [gt] wired to its own input, its output forced LOW
    as the callers do for initial inputs. *)
Definition self_loop_low (gt : GateType) : DigitalCircuitSimulator :=
  let s := add_wire (add_gate create_digital_simulator "g" gt 1 delay)
             "w" "g" "output" "g" 0 in
  with_gates_wires s (force_output (gates s) "g" LOW) (wires s).

(** A NOT gate [g] and a flip-flop [ff], with a wire from [g] to [ff]. *)
Definition gate_to_ff : DigitalCircuitSimulator :=
  add_wire
    (add_flip_flop (add_gate create_digital_simulator "g" NOT 1 delay)
       "ff" "rising")
    "w" "g" "output" "ff" 0.

(** The wire of [gate_to_ff], as [add_wire] builds it. *)
Definition wire_to_ff : Wire := new_Wire "w" "g" "output" "ff" 0.

(** The id [x] given to a gate and to a flip-flop (nothing compares the two
    tables), fed by a wire from [one], an AND gate without inputs, whose
    output settles HIGH. *)
Definition shared_id : DigitalCircuitSimulator :=
  add_wire
    (add_flip_flop
       (add_gate (add_gate create_digital_simulator "one" AND 0 delay)
          "x" BUFFER 1 delay)
       "x" "rising")
    "w" "one" "output" "x" 0.

(** The wire of [shared_id], as [add_wire] builds it. *)
Definition wire_to_shared : Wire := new_Wire "w" "one" "output" "x" 0.

(** The table a 2-input AND gate [and1] should have over inputs [a], [b]:
    rows in counting order, bit [j] of row [i] on input [j]. *)
Definition and_table_expected : list Row :=
  [ {| row_inputs := [("a", 0%Z); ("b", 0%Z)]; row_outputs := [("and1", 0%Z)] |};
    {| row_inputs := [("a", 1%Z); ("b", 0%Z)]; row_outputs := [("and1", 0%Z)] |};
    {| row_inputs := [("a", 0%Z); ("b", 1%Z)]; row_outputs := [("and1", 0%Z)] |};
    {| row_inputs := [("a", 1%Z); ("b", 1%Z)]; row_outputs := [("and1", 1%Z)] |} ].

(** The table [get_truth_table] returns for it: every output UNKNOWN. *)
Definition and_table_observed : list Row :=
  map (fun r => {| row_inputs := row_inputs r;
                   row_outputs := [("and1", value UNKNOWN)] |})
    and_table_expected.

End Circuits.

Module Networks.
Import Engine.

Definition resistor (name : string) (r : Q) : Component :=
  {| comp_id := IdStr name;
     comp_type := Some "resistor";
     terminals := ["a"; "b"];
     props := [("resistance", r)] |}.

Definition battery (name : string) (v : Q) : Component :=
  {| comp_id := IdStr name;
     comp_type := Some "battery";
     terminals := ["plus"; "minus"];
     props := [("voltage", v)] |}.

Definition ground (name : string) : Component :=
  {| comp_id := IdStr name;
     comp_type := Some "ground";
     terminals := ["gnd"];
     props := [] |}.

(** A wire from terminal [i] of component [a] to terminal [j] of [b], each
    end carrying the component dict:
    [{"from": {"comp": {"id": a}, "terminal": i}, "to": ...}]. *)
Definition wire (a : string) (i : Z) (b : string) (j : Z) : Wire :=
  {| wire_from :=
       EndDict {| ep_comp := CompDict (IdStr a); ep_terminal := Some (IdInt i) |};
     wire_to :=
       EndDict {| ep_comp := CompDict (IdStr b); ep_terminal := Some (IdInt j) |} |}.





(** The end of a wire is a dict whose ["comp"] is a dict (or missing). *)
Definition end_ok (e : End) : bool :=
  match e with
  | EndDict ep =>
      match ep_comp ep with CompDict _ => true | CompValue _ => false end
  | EndValue _ => false
  end.

(** Both ends of a wire are. *)
Definition wire_ok (w : Wire) : bool :=
  end_ok (wire_from w) && end_ok (wire_to w).

(** Three resistors in a chain that ends on the ground; the wire r2-r3 is
    listed before r1-r2. *)
Definition chain_components : list Component :=
  [ground "gnd"; resistor "r1" 100; resistor "r2" 220; resistor "r3" 330].

Definition chain_wires : list Wire :=
  [wire "r2" 1 "r3" 0; wire "r1" 1 "r2" 1; wire "r3" 1 "gnd" 0].

(** A battery across a resistor, no ground. *)
Definition floating_components : list Component :=
  [battery "b1" 9; resistor "r1" 1000].

Definition floating_wires : list Wire :=
  [wire "b1" 0 "r1" 0; wire "r1" 1 "b1" 1].

(** Two batteries of different voltage across the same pair of nodes. *)
Definition parallel_components : list Component :=
  [ground "gnd"; battery "b1" 9; battery "b2" 5].

Definition parallel_wires : list Wire :=
  [wire "b1" 0 "b2" 0; wire "b1" 1 "b2" 1].

(** [V] solves [G * V = Ivec] (exactly, over the rationals). *)
Fixpoint dot (row V : Vector) : Q :=
  match row, V with
  | a :: row', x :: V' => (a * x + dot row' V')%Q
  | _, _ => 0%Q
  end.

Definition solves (G : Matrix) (V Ivec : Vector) : Prop :=
  Forall2 Qeq (map (fun row => dot row V) G) Ivec.

(** A solver that always fails, and one that answers with ones. *)
Definition failing_solver : Matrix -> Vector -> option Vector :=
  fun _ _ => None.

Definition ones_solver : Matrix -> Vector -> option Vector :=
  fun G _ => Some (repeat 1%Q (List.length G)).

(** The dict key a wire end names, when the end has one. *)
Definition end_key (e : End) : option pyid :=
  match end_comp_id e, end_terminal e with
  | Ok c, Ok t => Some (term_key c t)
  | _, _ => None
  end.

(** The node a wire end is mapped to. *)
Definition node_of_endpoint (node_map : NodeMap) (e : End) : option Z :=
  match end_key e with
  | Some k => dict_get pyid_eqb node_map k
  | None => None
  end.

(** The system [simulate_dc] assembles and hands to the solver, with the
    node map and the ground id it was assembled on. *)
Definition dc_system (components : list Component) (wires : list Wire)
  : result (NodeMap * pyid * (Matrix * Vector)) :=
  '(node_map, ground_node) <- _build_node_map components wires ;;
  let num_nodes := (Z.of_nat (List.length node_map) - 1)%Z in
  let voltage_sources := filter (fun c => type_is c "battery") components in
  let num_vsources := Z.of_nat (List.length voltage_sources) in
  let n := Z.to_nat (num_nodes + num_vsources) in
  '(G, Ivec) <- stamp_all components (zeros2 n) (zeros n) node_map
               ground_node voltage_sources ;;
  Ok (node_map, ground_node, (G, Ivec)).

(** [V] is the one solution of [G * V = Ivec]. *)
Definition unique_solution (G : Matrix) (Ivec V : Vector) : Prop :=
  List.length V = List.length G /\ solves G V Ivec /\
  forall V', List.length V' = List.length G -> solves G V' Ivec ->
             Forall2 Qeq V' V.

(** The contract of the linear solver on the system [G * V = Ivec]: a vector
    it returns is the one solution of the system, and it fails only on a
    system that does not have exactly one. *)
Definition solver_contract (solve : Matrix -> Vector -> option Vector)
  (G : Matrix) (Ivec : Vector) : Prop :=
  (forall V, solve G Ivec = Some V -> unique_solution G Ivec V) /\
  (solve G Ivec = None -> ~ exists V, unique_solution G Ivec V).

(** A 9 V source with one terminal, which leaves its other end on the
    reference node, next to a ground; and a solver that answers with the
    solution of the system this circuit assembles. *)
Definition probe_components : list Component :=
  [ground "gnd";
   {| comp_id := IdStr "b1"; comp_type := Some "battery";
      terminals := ["plus"]; props := [("voltage", 9)] |}].

Definition probe_solver : Matrix -> Vector -> option Vector :=
  fun _ _ => Some [9; 0]%Q.

(** A stand-in for [np.arange] on the examples: [ceil((stop - start) / step)]
    points [start + k * step], counted over the rationals (NumPy counts in
    doubles); a zero step raises. *)
Definition grid (start stop step : Q) : result (list Q) :=
  if Qeq_bool step 0 then Raise ZeroDivisionError
  else
    Ok (map (fun k => (start + inject_Z (Z.of_nat k) * step)%Q)
          (seq 0 (Z.to_nat (Qceiling ((stop - start) / step))))).

(** The result of a transient run that took no sample. *)
Definition empty_transient : TransientResult :=
  {| t_success := true; time := []; t_voltages := []; t_currents := [] |}.

End Networks.

Module GateSpec.
Import Digital.

(** A gate like [g] but of type [t]. *)
Definition with_type (g : LogicGate) (t : GateType) : LogicGate :=
  {| gate_id := gate_id g;
     gate_type := t;
     num_inputs := num_inputs g;
     inputs := inputs g;
     output := output g;
     propagation_delay := propagation_delay g;
     last_update_time := last_update_time g |}.

(** LOW for HIGH, HIGH for LOW; the two other levels are left alone. *)
Definition complement (l : LogicLevel) : LogicLevel :=
  match l with
  | LOW => HIGH
  | HIGH => LOW
  | other => other
  end.

Definition of_bool (b : bool) : LogicLevel := if b then HIGH else LOW.

(** A level that is LOW or HIGH. *)
Definition two_valued (l : LogicLevel) : bool :=
  match l with
  | LOW | HIGH => true
  | _ => false
  end.

(** What never changes about a gate, and about a wire. *)
Definition gate_shape (g : LogicGate) : string * GateType * Z * Q * nat :=
  (gate_id g, gate_type g, num_inputs g, propagation_delay g,
   List.length (inputs g)).

Definition wire_route (w : Wire) : string * string * string * string * Z :=
  (wire_id w, from_gate w, from_output w, to_gate w, to_input w).

(** Q-bar as [FlipFlop.update] sets it: HIGH exactly when Q is LOW. *)
Definition q_bar_of (q : LogicLevel) : LogicLevel :=
  if level_eqb q LOW then HIGH else LOW.

(** The (cycle, edge) labels of a run of [n] clock cycles from cycle [c]. *)
Fixpoint cycle_labels (n : nat) (c : Z) : list (Z * string) :=
  match n with
  | O => []
  | S n' => (c, "rising") :: (c, "falling") :: cycle_labels n' (c + 1)%Z
  end.

End GateSpec.

Module NodeSpec.
Import Engine Networks.

(** The end names no dict key, or one that differs from [k]. *)
Definition end_avoids (k : pyid) (e : End) : bool :=
  match end_key e with
  | Some key => negb (pyid_eqb key k)
  | None => true
  end.

(** Neither end of the wire is named like the ground entry. *)
Definition avoids (ground_node : pyid) (w : Wire) : bool :=
  end_avoids ground_node (wire_from w) && end_avoids ground_node (wire_to w).



(** An [n] by [n] matrix. *)
Definition square (n : nat) (G : Matrix) : Prop :=
  List.length G = n /\ Forall (fun row => List.length row = n) G.

(** What the two loops keep: the ground id stays on node 0, and every other
    entry stays on a positive node as long as no merge names the ground id. *)
Definition grounded (g : pyid) (nm : NodeMap) : Prop :=
  dict_get pyid_eqb nm g = Some 0%Z.

Definition apart (g : pyid) (nm : NodeMap) : Prop :=
  Forall (fun kv => fst kv <> g -> (1 <= snd kv)%Z) nm.


(** [k] is the id of a resistor or of a battery of the circuit. *)
Definition powered (components : list Component) (k : pyid) : Prop :=
  exists c, In c components /\ comp_id c = k /\
            (type_is c "resistor" = true \/ type_is c "battery" = true).

(** A battery across two resistors, one of them of negative resistance; the
    ground component has an int id. *)
Definition divider_components : list Component :=
  [{| comp_id := IdInt 7; comp_type := Some "ground"; terminals := ["gnd"];
      props := [] |};
   battery "b1" 9; resistor "r1" 100; resistor "r2" (-5)].

Definition divider_wires : list Wire :=
  [wire "b1" 0 "r1" 0; wire "r1" 1 "r2" 0; wire "r2" 1 "b1" 1].

(** A history dict in which every key of [d] holds its value [n] times;
    no sample leaves the history dict empty. *)
Definition held (n : nat) (d : list (pyid * Q)) : list (pyid * list Q) :=
  match n with
  | O => []
  | _ => map (fun kv => (fst kv, repeat (snd kv) n)) d
  end.

(** The last component of the list that carries the id [k]. *)
Definition last_with_id (components : list Component) (k : pyid)
  : option Component :=
  find (fun c => pyid_eqb (comp_id c) k) (rev components).

Definition led (name : string) : Component :=
  {| comp_id := IdStr name; comp_type := Some "led";
     terminals := ["anode"; "cathode"]; props := [] |}.

(** A battery, a resistor and an LED in a loop. *)
Definition lamp_components : list Component :=
  [ground "gnd"; battery "b1" 9; resistor "r1" 330; led "d1"].

Definition lamp_wires : list Wire :=
  [wire "b1" 0 "r1" 0; wire "r1" 1 "d1" 0; wire "d1" 1 "b1" 1].





End NodeSpec.

Module PushSpec.
Import Digital.

(** [l] with position [i] replaced by [v] (as it is beyond the end). *)
Fixpoint set_nth {A : Type} (l : list A) (i : nat) (v : A) : list A :=
  match l, i with
  | [], _ => []
  | _ :: l', O => v :: l'
  | a :: l', S i' => a :: set_nth l' i' v
  end.

(** The input slot a turn of the wire loop writes on the gates [gs], and the
    level it writes there, if it writes at all. *)
Definition wire_write (gs : list (string * LogicGate)) (w : Wire)
  : option (string * nat * LogicLevel) :=
  match dict_get String.eqb gs (from_gate w), dict_get String.eqb gs (to_gate w) with
  | Some fg, Some tg =>
      if ((0 <=? to_input w) && (to_input w <? num_inputs tg))%Z
      then Some (to_gate w, Z.to_nat (to_input w), output fg)
      else None
  | _, _ => None
  end.

(** Input [i] of the gate under key [k] set to [v]. *)
Definition write_input (gs : list (string * LogicGate)) (k : string) (i : nat)
  (v : LogicLevel) : list (string * LogicGate) :=
  match dict_get String.eqb gs k with
  | Some g => dict_set String.eqb gs k (with_inputs g (set_nth (inputs g) i v))
  | None => gs
  end.

Definition apply_write (gs : list (string * LogicGate))
  (x : option (string * nat * LogicLevel)) : list (string * LogicGate) :=
  match x with
  | Some (k, i, v) => write_input gs k i v
  | None => gs
  end.

(** The wire as a turn of the wire loop on the gates [gs] leaves it. *)
Definition wire_pushed (gs : list (string * LogicGate)) (w : Wire) : Wire :=
  match dict_get String.eqb gs (from_gate w), dict_get String.eqb gs (to_gate w) with
  | Some fg, Some _ => with_signal w (output fg)
  | _, _ => w
  end.

(** What the wire loop reads of the gates: keys, arities and outputs. *)
Definition gate_view (gs : list (string * LogicGate))
  : list (string * Z * LogicLevel) :=
  map (fun kg => (fst kg, num_inputs (snd kg), output (snd kg))) gs.

(** A circuit at rest: no gate would change its output, no wire its signal
    or the input it feeds. *)
Definition at_rest (s : DigitalCircuitSimulator) : Prop :=
  update_gates (gates s) (current_time s) = Ok (gates s, false) /\
  push_wires (gates s) (wires s) = Ok (gates s, wires s).

End PushSpec.

(* ================================================================== *)
(** ** Facts about dicts *)
(* ================================================================== *)

Section DictFacts.
Context {V : Type}.

Lemma sget_sset (d : list (string * V)) k v k' :
  dict_get String.eqb (dict_set String.eqb d k v) k' =
  if String.eqb k k' then Some v else dict_get String.eqb d k'.
Proof.
  induction d as [|[k0 v0] d IH]; simpl.
  - reflexivity.
  - destruct (String.eqb_spec k0 k) as [->|Hk0]; simpl.
    + destruct (String.eqb k k'); reflexivity.
    + rewrite IH.
      destruct (String.eqb_spec k0 k') as [->|Hk'].
      * destruct (String.eqb_spec k k'); [congruence | reflexivity].
      * reflexivity.
Qed.

(** Assigning to a key that is present keeps the key sequence. *)
Lemma keys_sset_present (d : list (string * V)) k v v0 :
  dict_get String.eqb d k = Some v0 ->
  map fst (dict_set String.eqb d k v) = map fst d.
Proof.
  induction d as [|[k0 w] d IH]; simpl; [discriminate|].
  destruct (String.eqb k0 k); simpl; intros H.
  - reflexivity.
  - f_equal. now apply IH.
Qed.

(** Whether a key is absent depends on the key sequence only. *)
Lemma sget_none_keys {W : Type} (d : list (string * V)) (d' : list (string * W)) k :
  map fst d = map fst d' ->
  dict_get String.eqb d k = None -> dict_get String.eqb d' k = None.
Proof.
  revert d'.
  induction d as [|[k0 v0] d IH]; intros [|[k1 v1] d']; simpl;
    try discriminate; try reflexivity.
  intros H. injection H as -> Hd.
  destruct (String.eqb k1 k); [discriminate|]. now apply IH.
Qed.

Lemma sget_In (d : list (string * V)) k v :
  dict_get String.eqb d k = Some v -> In (k, v) d.
Proof.
  induction d as [|[k0 v0] d IH]; simpl; [discriminate|].
  destruct (String.eqb_spec k0 k) as [->|Hk].
  - intros [= ->]. now left.
  - intros H. right. now apply IH.
Qed.

Lemma Forall_sset (P : string * V -> Prop) (d : list (string * V)) k v :
  Forall P d -> P (k, v) -> Forall P (dict_set String.eqb d k v).
Proof.
  intros Hd Hkv.
  induction d as [|[k0 v0] d IH]; simpl.
  - now constructor.
  - inversion Hd as [|? ? H0 Hd']; subst.
    destruct (String.eqb_spec k0 k) as [->|Hk].
    + now constructor.
    + constructor; [assumption | now apply IH].
Qed.
End DictFacts.

(* ================================================================== *)
(** ** Facts about calls that may raise *)
(* ================================================================== *)

Import PySpec.

Lemma bind_Ok_inv {A B : Type} (m : result A) (f : A -> result B) b :
  bind m f = Ok b -> exists a, m = Ok a /\ f a = Ok b.
Proof.
  destruct m as [a|e]; simpl; intros H; [|discriminate H].
  exists a. split; [reflexivity | exact H].
Qed.

(** Case analysis on the first call of a sequence that returned. *)
Ltac bind_ok H :=
  let a := fresh "a" in
  let E := fresh "E" in
  apply bind_Ok_inv in H; destruct H as (a & E & H); cbv beta in H.

Lemma Ok_inj {A : Type} (a b : A) : Ok a = Ok b -> a = b.
Proof. intros H. now injection H. Qed.

(** Run the calls that have returned. *)
Ltac run := cbv beta iota delta [bind].

Lemma raises_only_Ok {A : Type} x (a : A) : raises_only x (Ok a).
Proof. intros e H. discriminate H. Qed.

Lemma raises_only_Raise {A : Type} x : raises_only x (@Raise A x).
Proof. intros e H. now injection H. Qed.

Lemma raises_only_bind {A B : Type} x (m : result A) (f : A -> result B) :
  raises_only x m -> (forall a, m = Ok a -> raises_only x (f a)) ->
  raises_only x (bind m f).
Proof.
  intros Hm Hf e. destruct m as [a|e0]; simpl.
  - now apply Hf.
  - intros [= <-]. now apply Hm.
Qed.

Lemma list_index_raises {A : Type} (l : list A) i :
  raises_only IndexError (list_index l i).
Proof.
  unfold list_index. destruct (nth_error l i).
  - apply raises_only_Ok.
  - apply raises_only_Raise.
Qed.

Lemma list_assign_raises {A : Type} (l : list A) : forall i v,
  raises_only IndexError (list_assign l i v).
Proof.
  induction l as [|a l IH]; intros i v; simpl.
  - destruct i; apply raises_only_Raise.
  - destruct i as [|i]; [apply raises_only_Ok|].
    specialize (IH i v). destruct (list_assign l i v).
    + apply raises_only_Ok.
    + intros e0 [= <-]. now apply IH.
Qed.

Lemma list_assign_length {A : Type} (l : list A) : forall i v l',
  list_assign l i v = Ok l' -> List.length l' = List.length l.
Proof.
  induction l as [|a l IH]; intros i v l'; simpl.
  - destruct i; discriminate.
  - destruct i as [|i].
    + now intros [= <-].
    + destruct (list_assign l i v) eqn:E; [|discriminate].
      intros [= <-]. simpl. f_equal. eapply IH; eassumption.
Qed.

Lemma list_assign_ok {A : Type} (l : list A) : forall i v,
  (i < List.length l)%nat -> exists l', list_assign l i v = Ok l'.
Proof.
  induction l as [|a l IH]; intros i v Hi; simpl in *; [lia|].
  destruct i as [|i]; [eauto|].
  destruct (IH i v) as [l' ->]; [lia | eauto].
Qed.

(* ================================================================== *)
(** ** The digital simulator *)
(* ================================================================== *)

Module DigitalProofs.
Import Digital DigitalSpec Circuits.

(** *** Key sequences are stable *)

Lemma push_wire_keys gs w gs' w' :
  push_wire gs w = Ok (gs', w') -> map fst gs' = map fst gs.
Proof.
  unfold push_wire.
  destruct (dict_get String.eqb gs (from_gate w)) as [fg|];
    [|intros [= <- _]; reflexivity].
  destruct (dict_get String.eqb gs (to_gate w)) as [tg|] eqn:Et;
    [|intros [= <- _]; reflexivity].
  intros H. bind_ok H. injection H as <- _.
  eapply keys_sset_present; eassumption.
Qed.

Lemma push_wires_keys ws : forall gs gs' ws',
  push_wires gs ws = Ok (gs', ws') -> map fst gs' = map fst gs.
Proof.
  induction ws as [|w ws IH]; simpl; intros gs gs' ws' H.
  - now injection H as <- _.
  - bind_ok H. destruct a as [gs1 w1]. bind_ok H. destruct a as [gs2 ws2].
    injection H as <- _.
    rewrite (IH _ _ _ E0). eapply push_wire_keys; eassumption.
Qed.

Lemma gate_update_cases g t g' c :
  gate_update g t = Ok (g', c) ->
  inputs g' = inputs g /\ num_inputs g' = num_inputs g /\
  gate_type g' = gate_type g.
Proof.
  unfold gate_update. intros H. bind_ok H.
  destruct (negb (level_eqb a (output g))); injection H as <- _; auto.
Qed.

Lemma update_gates_keys t : forall gs gs' c,
  update_gates gs t = Ok (gs', c) -> map fst gs' = map fst gs.
Proof.
  induction gs as [|[k g] gs IH]; simpl; intros gs' c H.
  - now injection H as <- _.
  - bind_ok H. destruct a as [g1 c1]. bind_ok H. destruct a as [gs2 c2].
    injection H as <- _. simpl. f_equal. eapply IH; eassumption.
Qed.

Lemma propagate_loop_keys t : forall fuel gs ws it gs' ws' it',
  propagate_loop fuel t gs ws it = Ok (gs', ws', it') ->
  map fst gs' = map fst gs.
Proof.
  induction fuel as [|fuel IH]; simpl; intros gs ws it gs' ws' it' H.
  - now injection H as <- _ _.
  - bind_ok H. destruct a as [gs1 ch]. bind_ok H. destruct a as [gs2 ws2].
    assert (K : map fst gs2 = map fst gs).
    { rewrite (push_wires_keys _ _ _ _ E0). eapply update_gates_keys; eassumption. }
    destruct ch.
    + rewrite (IH _ _ _ _ _ _ H). exact K.
    + injection H as <- _ _. exact K.
Qed.

(** *** Wires passed over *)

Lemma skipped_keys gs gs' w :
  map fst gs = map fst gs' -> skipped gs w = true -> skipped gs' w = true.
Proof.
  unfold skipped, dict_mem. intros K H.
  apply negb_true_iff in H. apply negb_true_iff.
  apply andb_false_iff in H. apply andb_false_iff.
  destruct H as [H|H]; [left|right];
    match type of H with
    | match dict_get _ _ ?k with _ => _ end = _ =>
        destruct (dict_get String.eqb gs k) eqn:E; [discriminate|];
        now rewrite (sget_none_keys _ _ _ K E)
    end.
Qed.

Lemma push_wire_skipped gs w :
  skipped gs w = true -> push_wire gs w = Ok (gs, w).
Proof.
  unfold skipped, dict_mem, push_wire. intros H.
  destruct (dict_get String.eqb gs (from_gate w)); [|reflexivity].
  destruct (dict_get String.eqb gs (to_gate w)); [discriminate|reflexivity].
Qed.

Lemma push_wires_skipped ws : forall gs gs' ws' i w,
  push_wires gs ws = Ok (gs', ws') ->
  nth_error ws i = Some w -> skipped gs w = true ->
  nth_error ws' i = Some w.
Proof.
  induction ws as [|w0 ws IH]; simpl; intros gs gs' ws' i w H Hi Hs.
  - destruct i; discriminate.
  - bind_ok H. destruct a as [gs1 w1]. bind_ok H. destruct a as [gs2 ws2].
    injection H as _ <-.
    destruct i as [|i]; simpl in *.
    + injection Hi as ->. rewrite (push_wire_skipped _ _ Hs) in E.
      now injection E as _ <-.
    + eapply IH; try eassumption.
      eapply skipped_keys; [|eassumption].
      symmetry. eapply push_wire_keys; eassumption.
Qed.

Lemma propagate_loop_skipped t : forall fuel gs ws it gs' ws' it' i w,
  propagate_loop fuel t gs ws it = Ok (gs', ws', it') ->
  nth_error ws i = Some w -> skipped gs w = true ->
  nth_error ws' i = Some w.
Proof.
  induction fuel as [|fuel IH]; simpl; intros gs ws it gs' ws' it' i w H Hi Hs.
  - now injection H as _ <- _.
  - bind_ok H. destruct a as [gs1 ch]. bind_ok H. destruct a as [gs2 ws2].
    assert (K1 : map fst gs1 = map fst gs) by (eapply update_gates_keys; eassumption).
    assert (Hs1 : skipped gs1 w = true) by (eapply skipped_keys; [symmetry|]; eassumption).
    assert (Hi2 : nth_error ws2 i = Some w) by (eapply push_wires_skipped; eassumption).
    destruct ch.
    + eapply IH; try eassumption.
      eapply skipped_keys; [|exact Hs1].
      symmetry. eapply push_wires_keys; eassumption.
    + now injection H as _ <- _.
Qed.

(** *** Only an out-of-range index can stop a pass *)

Lemma evaluate_raises g : raises_only IndexError (evaluate g).
Proof.
  unfold evaluate.
  destruct (existsb (level_eqb UNKNOWN) (inputs g)); [apply raises_only_Ok|].
  destruct (gate_type g); try apply raises_only_Ok.
  - apply raises_only_bind; [apply list_index_raises|].
    intros; apply raises_only_Ok.
  - apply list_index_raises.
Qed.

Lemma gate_set_input_raises g i v :
  raises_only IndexError (gate_set_input g i v).
Proof.
  unfold gate_set_input.
  destruct ((0 <=? i)%Z && (i <? num_inputs g)%Z); [|apply raises_only_Ok].
  apply raises_only_bind; [apply list_assign_raises|].
  intros; apply raises_only_Ok.
Qed.

Lemma gate_update_raises g t : raises_only IndexError (gate_update g t).
Proof.
  unfold gate_update. apply raises_only_bind; [apply evaluate_raises|].
  intros a _. destruct (negb (level_eqb a (output g))); apply raises_only_Ok.
Qed.

Lemma push_wire_raises gs w : raises_only IndexError (push_wire gs w).
Proof.
  unfold push_wire.
  destruct (dict_get String.eqb gs (from_gate w)); [|apply raises_only_Ok].
  destruct (dict_get String.eqb gs (to_gate w)); [|apply raises_only_Ok].
  apply raises_only_bind; [apply gate_set_input_raises|].
  intros; apply raises_only_Ok.
Qed.

Lemma push_wires_raises ws : forall gs,
  raises_only IndexError (push_wires gs ws).
Proof.
  induction ws as [|w ws IH]; intros gs; simpl; [apply raises_only_Ok|].
  apply raises_only_bind; [apply push_wire_raises|].
  intros [gs1 w1] _. apply raises_only_bind; [apply IH|].
  intros [gs2 ws2] _. apply raises_only_Ok.
Qed.

Lemma update_gates_raises t : forall gs,
  raises_only IndexError (update_gates gs t).
Proof.
  induction gs as [|[k g] gs IH]; simpl; [apply raises_only_Ok|].
  apply raises_only_bind; [apply gate_update_raises|].
  intros [g1 c1] _. apply raises_only_bind; [apply IH|].
  intros [gs2 c2] _. apply raises_only_Ok.
Qed.

Lemma propagate_loop_raises t : forall fuel gs ws it,
  raises_only IndexError (propagate_loop fuel t gs ws it).
Proof.
  induction fuel as [|fuel IH]; intros gs ws it; simpl; [apply raises_only_Ok|].
  apply raises_only_bind; [apply update_gates_raises|].
  intros [gs1 ch] _. apply raises_only_bind; [apply push_wires_raises|].
  intros [gs2 ws2] _. destruct ch; [apply IH | apply raises_only_Ok].
Qed.

Lemma propagate_raises s : raises_only IndexError (propagate s).
Proof.
  unfold propagate. apply raises_only_bind; [apply push_wires_raises|].
  intros [gs0 ws0] _. apply raises_only_bind; [apply propagate_loop_raises|].
  intros [[gs1 ws1] it] _. apply raises_only_Ok.
Qed.

(** *** Gates built by the constructor never stop a pass *)

Lemma gate_set_input_ok g i v :
  gate_ok g = true ->
  exists g', gate_set_input g i v = Ok g' /\ gate_ok g' = true.
Proof.
  unfold gate_ok, gate_set_input. intros H.
  apply andb_true_iff in H. destruct H as [Hlen Hty].
  apply Nat.eqb_eq in Hlen.
  destruct ((0 <=? i)%Z && (i <? num_inputs g)%Z) eqn:Hi.
  - apply andb_true_iff in Hi. destruct Hi as [H0 H1].
    apply Z.leb_le in H0. apply Z.ltb_lt in H1.
    destruct (list_assign_ok (inputs g) (Z.to_nat i) v) as [ins Hins]; [lia|].
    rewrite Hins. simpl. eexists. split; [reflexivity|].
    simpl. rewrite (list_assign_length _ _ _ _ Hins).
    apply andb_true_iff. split; [now apply Nat.eqb_eq | exact Hty].
  - eexists. split; [reflexivity|].
    apply andb_true_iff. split; [now apply Nat.eqb_eq | exact Hty].
Qed.

Lemma evaluate_ok g : gate_ok g = true -> exists l, evaluate g = Ok l.
Proof.
  unfold gate_ok, evaluate. intros H.
  apply andb_true_iff in H. destruct H as [_ Hty].
  destruct (existsb (level_eqb UNKNOWN) (inputs g)); [eauto|].
  destruct (gate_type g); eauto;
    apply Nat.leb_le in Hty; destruct (inputs g) as [|i0 ins];
    simpl in Hty; try lia; unfold bind, list_index; simpl; eauto.
Qed.

Lemma gate_update_ok g t :
  gate_ok g = true ->
  exists g' c, gate_update g t = Ok (g', c) /\ gate_ok g' = true.
Proof.
  intros H. unfold gate_update.
  destruct (evaluate_ok g H) as [l ->]. run.
  destruct (negb (level_eqb l (output g))); eauto.
Qed.

Lemma update_gates_ok t : forall gs,
  gates_ok gs ->
  exists gs' c, update_gates gs t = Ok (gs', c) /\ gates_ok gs'.
Proof.
  induction gs as [|[k g] gs IH]; intros H; simpl.
  - exists [], false. split; [reflexivity | constructor].
  - inversion H as [|? ? Hg Hgs]; subst. simpl in Hg.
    destruct (gate_update_ok g t Hg) as (g1 & c1 & -> & Hg1). run.
    destruct (IH Hgs) as (gs2 & c2 & -> & Hgs2). run.
    eexists _, _. split; [reflexivity|]. now constructor.
Qed.

Lemma gates_ok_get gs k g :
  gates_ok gs -> dict_get String.eqb gs k = Some g -> gate_ok g = true.
Proof.
  intros H E. apply sget_In in E.
  unfold gates_ok in H. rewrite Forall_forall in H. exact (H _ E).
Qed.

Lemma push_wire_ok gs w :
  gates_ok gs ->
  exists gs' w', push_wire gs w = Ok (gs', w') /\ gates_ok gs'.
Proof.
  intros H. unfold push_wire.
  destruct (dict_get String.eqb gs (from_gate w)) as [fg|]; [|eauto].
  destruct (dict_get String.eqb gs (to_gate w)) as [tg|] eqn:Et; [|eauto].
  destruct (gate_set_input_ok tg (to_input (with_signal w (output fg)))
              (signal (with_signal w (output fg)))
              (gates_ok_get _ _ _ H Et)) as (tg' & -> & Htg').
  run. eexists _, _. split; [reflexivity|].
  now apply Forall_sset.
Qed.

Lemma push_wires_ok ws : forall gs,
  gates_ok gs ->
  exists gs' ws', push_wires gs ws = Ok (gs', ws') /\ gates_ok gs'.
Proof.
  induction ws as [|w ws IH]; intros gs H; simpl; [eauto|].
  destruct (push_wire_ok gs w H) as (gs1 & w1 & -> & H1). run.
  destruct (IH gs1 H1) as (gs2 & ws2 & -> & H2). run. eauto.
Qed.

Lemma propagate_loop_ok t : forall fuel gs ws it,
  gates_ok gs ->
  exists gs' ws' it',
    propagate_loop fuel t gs ws it = Ok (gs', ws', it') /\ gates_ok gs'.
Proof.
  induction fuel as [|fuel IH]; intros gs ws it H; simpl; [eauto|].
  destruct (update_gates_ok t gs H) as (gs1 & ch & -> & H1). run.
  destruct (push_wires_ok ws gs1 H1) as (gs2 & ws2 & -> & H2). run.
  destruct ch; [apply IH; assumption | eauto].
Qed.

Lemma propagate_ok s :
  gates_ok (gates s) ->
  exists p, propagate s = Ok p /\ gates_ok (gates (sim_after p)).
Proof.
  intros H. unfold propagate.
  destruct (push_wires_ok (wires s) (gates s) H) as (gs0 & ws0 & -> & H0). run.
  destruct (propagate_loop_ok (current_time s) max_iterations gs0 ws0 0%nat H0)
    as (gs1 & ws1 & it & -> & H1).
  run. eexists. split; [reflexivity | exact H1].
Qed.

(** *** The pass counter *)

Lemma propagate_loop_passes t : forall fuel gs ws it gs' ws' it',
  propagate_loop fuel t gs ws it = Ok (gs', ws', it') ->
  (it <= it' <= it + fuel)%nat /\ (0 < fuel -> it < it')%nat.
Proof.
  induction fuel as [|fuel IH]; simpl; intros gs ws it gs' ws' it' H.
  - injection H as _ _ <-. lia.
  - bind_ok H. destruct a as [gs1 ch]. bind_ok H. destruct a as [gs2 ws2].
    destruct ch.
    + apply IH in H. lia.
    + injection H as _ _ <-. lia.
Qed.

Lemma propagate_passes s p :
  propagate s = Ok p ->
  (1 <= passes p <= max_iterations)%nat /\
  printed p =
    (if (passes p =? max_iterations)%nat then [loop_warning] else []) /\
  flip_flops (sim_after p) = flip_flops s /\
  sim_inputs (sim_after p) = sim_inputs s.
Proof.
  unfold propagate. intros H.
  bind_ok H. destruct a as [gs0 ws0]. bind_ok H. destruct a as [[gs1 ws1] it].
  apply Ok_inj in H. subst p.
  cbn [passes printed sim_after with_gates_wires flip_flops sim_inputs].
  apply propagate_loop_passes in E0.
  set (m := max_iterations) in *.
  assert (Hm : (0 < m)%nat) by (subst m; unfold max_iterations; lia).
  clearbody m.
  repeat split; try lia.
  destruct (Nat.leb_spec m it); destruct (Nat.eqb_spec it m);
    try reflexivity; lia.
Qed.

(** *** Wires to ids outside the gates table (C10) *)

(** C10: a wire whose [from_gate] or [to_gate] id is no key of the gates
    table (every id that only names a flip-flop is such an id) is passed over
    by the wire loop in every pass: on any gates table with the same keys the
    turn changes neither the wire nor any gate; after all passes of
    [propagate] the wire is as it was, and so is the flip-flop table (D
    inputs and clocks included), which only direct calls can change;
    [propagate] does return on gates as the constructor builds them. *)
Theorem propagate_skips_unknown_ends :
  forall (s : DigitalCircuitSimulator) (i : nat) (w : Wire),
    nth_error (wires s) i = Some w ->
    skipped (gates s) w = true ->
    (forall gs, map fst gs = map fst (gates s) -> push_wire gs w = Ok (gs, w)) /\
    (forall p, propagate s = Ok p ->
       nth_error (wires (sim_after p)) i = Some w /\
       flip_flops (sim_after p) = flip_flops s) /\
    (gates_ok (gates s) -> exists p, propagate s = Ok p).
Proof.
  intros s i w Hi Hs. split; [|split].
  - intros gs K. apply push_wire_skipped.
    eapply skipped_keys; [symmetry; exact K | exact Hs].
  - intros p H. split; [|now apply propagate_passes in H].
    unfold propagate in H.
    bind_ok H. destruct a as [gs0 ws0]. bind_ok H. destruct a as [[gs1 ws1] it].
    apply Ok_inj in H. subst p. cbn [sim_after with_gates_wires wires].
    eapply propagate_loop_skipped; [eassumption | |].
    + eapply push_wires_skipped; eassumption.
    + eapply skipped_keys; [|eassumption].
      symmetry. eapply push_wires_keys; eassumption.
  - intros Hok. destruct (propagate_ok s Hok) as (p & Hp & _). eauto.
Qed.

Lemma propagate_skips_unknown_ends_witness :
  (forall gs, map fst gs = map fst (gates gate_to_ff) ->
     push_wire gs wire_to_ff = Ok (gs, wire_to_ff)) /\
  (forall p, propagate gate_to_ff = Ok p ->
     nth_error (wires (sim_after p)) 0 = Some wire_to_ff /\
     flip_flops (sim_after p) = flip_flops gate_to_ff) /\
  (exists p, propagate gate_to_ff = Ok p).
Proof.
  destruct (propagate_skips_unknown_ends gate_to_ff 0 wire_to_ff
              eq_refl eq_refl) as (Hturn & Hrun & Hret).
  split; [exact Hturn|]. split; [exact Hrun|].
  apply Hret. repeat constructor.
Defined.

(** C10 as stated fails: an id can name a flip-flop and a gate at once.  In
    [shared_id] the wire leads to the flip-flop id [x], which is a gates key
    too, so the wire loop does not pass over it: after [propagate] its
    signal has gone from UNKNOWN to HIGH and input 0 of the gate [x] is
    HIGH.  The flip-flop [x] itself is left as it was. *)
Lemma wire_to_shared_id_is_driven :
  nth_error (wires shared_id) 0 = Some wire_to_shared /\
  dict_mem String.eqb (flip_flops shared_id) (to_gate wire_to_shared) = true /\
  skipped (gates shared_id) wire_to_shared = false /\
  signal wire_to_shared = UNKNOWN /\
  exists p g,
    propagate shared_id = Ok p /\
    nth_error (wires (sim_after p)) 0 = Some (with_signal wire_to_shared HIGH) /\
    dict_get String.eqb (gates (sim_after p)) "x" = Some g /\
    inputs g = [HIGH] /\
    flip_flops (sim_after p) = flip_flops shared_id.
Proof.
  split; [reflexivity|]. split; [reflexivity|]. split; [reflexivity|].
  split; [reflexivity|].
  eexists _, _. split; [vm_compute; reflexivity|].
  split; [reflexivity|]. split; [reflexivity|]. split; reflexivity.
Qed.

(** *** The iteration cap (C5) *)

(** Two one-cycle runs of the clock driver: the inverter loop reaches the cap
    in both half-cycles, the buffer loop settles at once, and the returned
    snapshots are the same. *)
Lemma cap_runs_share_snapshots :
  exists s1 s2 snaps,
    simulate_clock_cycle (self_loop_low NOT) "clk" 1 =
      Ok (s1, snaps, [loop_warning; loop_warning]) /\
    simulate_clock_cycle (self_loop_low BUFFER) "clk" 1 = Ok (s2, snaps, []).
Proof.
  eexists _, _, _. split; vm_compute; reflexivity.
Qed.

Lemma inverter_loop_reaches_cap :
  exists p, propagate (self_loop_low NOT) = Ok p /\
            passes p = max_iterations /\ printed p = [loop_warning].
Proof.
  eexists. split; [vm_compute; reflexivity|]. split; reflexivity.
Qed.

(** No reading of the returned snapshots tells a run that reached the cap
    from one that did not. *)
Lemma cap_not_in_snapshots :
  ~ exists report : list Snapshot -> bool,
      forall s clock_signal n s' snaps out,
        simulate_clock_cycle s clock_signal n = Ok (s', snaps, out) ->
        (report snaps = true <-> out <> []).
Proof.
  intros [report H].
  destruct cap_runs_share_snapshots as (s1 & s2 & snaps & H1 & H2).
  apply H in H1. apply H in H2.
  assert (R : report snaps = true) by (apply H1; discriminate).
  apply H2 in R. now apply R.
Qed.

(** C5, as the code has it: every call of [propagate] stops after at least
    one and at most [max_iterations] = 100 passes (or on an out-of-range
    index, never otherwise), and it returns on gates as the constructor
    builds them; reaching the cap only prints the warning line, and the
    snapshots a driver returns do not tell whether the cap was reached. *)
Theorem propagate_capped_console_only :
  (forall s : DigitalCircuitSimulator,
     match propagate s with
     | Ok p =>
         (1 <= passes p <= max_iterations)%nat /\
         printed p =
           (if (passes p =? max_iterations)%nat then [loop_warning] else [])
     | Raise e => e = IndexError
     end) /\
  (forall s : DigitalCircuitSimulator,
     gates_ok (gates s) -> exists p, propagate s = Ok p) /\
  ~ (exists report : list Snapshot -> bool,
       forall s clock_signal n s' snaps out,
         simulate_clock_cycle s clock_signal n = Ok (s', snaps, out) ->
         (report snaps = true <-> out <> [])).
Proof.
  split; [|split].
  - intros s. destruct (propagate s) as [p|e] eqn:E.
    + apply propagate_passes in E. tauto.
    + now apply (propagate_raises s).
  - intros s H. destruct (propagate_ok s H) as (p & Hp & _). eauto.
  - exact cap_not_in_snapshots.
Qed.

(** C5 as stated fails: the inverter loop reaches the cap and the warning is
    printed, yet nothing in the result of the run reports it. *)
Lemma cap_reached_unreported :
  (exists p, propagate (self_loop_low NOT) = Ok p /\
             passes p = max_iterations /\ printed p = [loop_warning]) /\
  (exists s1 s2 snaps,
     simulate_clock_cycle (self_loop_low NOT) "clk" 1 =
       Ok (s1, snaps, [loop_warning; loop_warning]) /\
     simulate_clock_cycle (self_loop_low BUFFER) "clk" 1 = Ok (s2, snaps, [])) /\
  ~ (exists report : list Snapshot -> bool,
       forall s clock_signal n s' snaps out,
         simulate_clock_cycle s clock_signal n = Ok (s', snaps, out) ->
         (report snaps = true <-> out <> [])).
Proof.
  split; [exact inverter_loop_reaches_cap|].
  split; [exact cap_runs_share_snapshots | exact cap_not_in_snapshots].
Qed.

(** *** The clock-cycle driver and a D flip-flop (C2) *)

(** A half-cycle on a circuit that holds only the flip-flop of [dff_high]:
    the clock level lands in the inputs dict, the flip-flop sees no edge. *)
Lemma half_cycle_dff ins outs t clock_signal level c e :
  half_cycle
    {| gates := []; flip_flops := flip_flops dff_high; wires := [];
       sim_inputs := ins; sim_outputs := outs; current_time := t |}
    clock_signal level c e =
  Ok ({| gates := []; flip_flops := flip_flops dff_high; wires := [];
         sim_inputs := dict_set String.eqb ins clock_signal level;
         sim_outputs := outs; current_time := t |},
      {| cycle := c; edge := e; snap_gates := [];
         snap_flip_flops := [("ff", value LOW)] |},
      []).
Proof. reflexivity. Qed.

Lemma clock_cycles_dff clock_signal : forall n c ins outs t,
  exists ins' snaps,
    clock_cycles n c
      {| gates := []; flip_flops := flip_flops dff_high; wires := [];
         sim_inputs := ins; sim_outputs := outs; current_time := t |}
      clock_signal =
    Ok ({| gates := []; flip_flops := flip_flops dff_high; wires := [];
           sim_inputs := ins'; sim_outputs := outs; current_time := t |},
        snaps, []) /\
    List.length snaps = (2 * n)%nat /\
    Forall (fun sn => snap_flip_flops sn = [("ff", value LOW)]) snaps.
Proof.
  induction n as [|n IH]; intros c ins outs t.
  - exists ins, []. repeat split. constructor.
  - cbn [clock_cycles]. rewrite half_cycle_dff. run.
    rewrite half_cycle_dff. run.
    destruct (IH (c + 1)%Z
                (dict_set String.eqb
                   (dict_set String.eqb ins clock_signal HIGH)
                   clock_signal LOW) outs t)
      as (ins' & snaps & -> & Hlen & Hall).
    eexists _, _. split; [reflexivity|]. split.
    + cbn [List.length]. lia.
    + repeat constructor. exact Hall.
Qed.

(** C2 fails on the code: on the circuit that holds one rising-edge flip-flop
    with D set HIGH, the driver returns for every number of cycles, with two
    snapshots per cycle, and Q is LOW (0) in every one of them: no call of
    the driver reaches [set_clock], so [update] never sees an edge. *)
Theorem clock_driver_never_captures :
  forall (clock_signal : string) (num_cycles : Z),
  exists s' snaps,
    simulate_clock_cycle dff_high clock_signal num_cycles = Ok (s', snaps, []) /\
    List.length snaps = (2 * Z.to_nat num_cycles)%nat /\
    Forall (fun sn => snap_flip_flops sn = [("ff", value LOW)]) snaps.
Proof.
  intros clock_signal num_cycles. unfold simulate_clock_cycle.
  destruct (clock_cycles_dff clock_signal (Z.to_nat num_cycles) 0%Z [] [] 0%Q)
    as (ins' & snaps & H & Hlen & Hall).
  exists {| gates := []; flip_flops := flip_flops dff_high; wires := [];
            sim_inputs := ins'; sim_outputs := []; current_time := 0 |}, snaps.
  split; [exact H | split; assumption].
Qed.

(** The driver leaves every flip-flop that is idle as it was: it never calls
    [set_clock], so an idle flip-flop stays idle through any run. *)
Lemma update_flip_flops_idle ffs :
  Forall (fun kf => idle (snd kf) = true) ffs -> update_flip_flops ffs = ffs.
Proof.
  unfold update_flip_flops, idle, ff_update.
  induction 1 as [|[k ff] ffs H _ IH]; simpl; [reflexivity|].
  simpl in H. apply negb_true_iff in H. rewrite H, IH. reflexivity.
Qed.

Lemma half_cycle_idle s clock_signal level c e s1 sn out :
  half_cycle s clock_signal level c e = Ok (s1, sn, out) ->
  Forall (fun kf => idle (snd kf) = true) (flip_flops s) ->
  flip_flops s1 = flip_flops s /\ snap_flip_flops sn = q_values (flip_flops s).
Proof.
  unfold half_cycle. intros H Hidle. bind_ok H.
  apply propagate_passes in E. destruct E as (_ & _ & Hff & _).
  cbn [set_input flip_flops] in Hff.
  apply Ok_inj in H. injection H as <- <- _.
  cbn [with_flip_flops flip_flops snapshot snap_flip_flops].
  rewrite Hff, (update_flip_flops_idle _ Hidle). split; reflexivity.
Qed.

Lemma clock_cycles_idle clock_signal : forall n c s s' snaps out,
  clock_cycles n c s clock_signal = Ok (s', snaps, out) ->
  Forall (fun kf => idle (snd kf) = true) (flip_flops s) ->
  flip_flops s' = flip_flops s /\
  Forall (fun sn => snap_flip_flops sn = q_values (flip_flops s)) snaps.
Proof.
  induction n as [|n IH]; intros c s s' snaps out H Hidle; cbn [clock_cycles] in H.
  - apply Ok_inj in H. injection H as <- <- _. split; [reflexivity | constructor].
  - bind_ok H. destruct a as [[s1 rising] out1].
    bind_ok H. destruct a as [[s2 falling] out2].
    bind_ok H. destruct a as [[s3 rest] out3].
    apply Ok_inj in H. injection H as <- <- _.
    destruct (half_cycle_idle _ _ _ _ _ _ _ _ E Hidle) as [F1 S1].
    rewrite <- F1 in Hidle.
    destruct (half_cycle_idle _ _ _ _ _ _ _ _ E0 Hidle) as [F2 S2].
    rewrite <- F2 in Hidle.
    destruct (IH _ _ _ _ _ E1 Hidle) as [F3 S3].
    split; [congruence|].
    constructor; [exact S1|]. constructor; [congruence|].
    rewrite F2, F1 in S3. exact S3.
Qed.

Lemma level_eqb_eq a b : level_eqb a b = true <-> a = b.
Proof. destruct a, b; simpl; split; intros H; congruence. Qed.

(** What the driver misses: once [set_clock] has raised the clock of a
    rising-edge flip-flop, [update] does capture D. *)
Lemma flip_flop_captures_after_set_clock ff :
  edge_trigger ff = "rising" -> clock ff = LOW ->
  q_output (fst (ff_update (set_clock (set_d ff HIGH) HIGH))) = HIGH.
Proof.
  intros He Hc. unfold ff_update, edge_detected.
  cbn [set_clock set_d edge_trigger previous_clock clock d_input q_output].
  rewrite He, Hc. cbn [String.eqb Ascii.eqb Bool.eqb level_eqb andb].
  destruct (q_output ff) eqn:E; cbn [negb fst q_output set_clock set_d];
    solve [reflexivity | exact E].
Qed.

(** *** The rows of a truth table *)

Lemma bit_of_testbit i j : (0 <= j)%Z -> bit_of i j = Z.b2z (Z.testbit i j).
Proof.
  intros Hj. unfold bit_of.
  change 1%Z with (Z.ones 1). rewrite Z.land_ones by lia.
  change (2 ^ 1)%Z with 2%Z. rewrite <- Z.bit0_mod.
  rewrite Z.shiftr_spec by lia. reflexivity.
Qed.

Lemma sget_none_notin {V : Type} (d : list (string * V)) k :
  ~ In k (map fst d) -> dict_get String.eqb d k = None.
Proof.
  induction d as [|[k0 v0] d IH]; simpl; intros H; [reflexivity|].
  destruct (String.eqb_spec k0 k) as [->|Hk]; [tauto|].
  apply IH. tauto.
Qed.

Lemma sset_absent {V : Type} (d : list (string * V)) k v :
  ~ In k (map fst d) -> dict_set String.eqb d k v = d ++ [(k, v)].
Proof.
  induction d as [|[k0 v0] d IH]; simpl; intros H; [reflexivity|].
  destruct (String.eqb_spec k0 k) as [->|Hk]; [tauto|].
  rewrite IH by tauto. reflexivity.
Qed.

Lemma force_output_ok gs gid v : gates_ok gs -> gates_ok (force_output gs gid v).
Proof.
  intros H. unfold force_output.
  destruct (dict_get String.eqb gs gid) as [g|] eqn:E; [|exact H].
  apply Forall_sset; [exact H|].
  exact (gates_ok_get _ _ _ H E).
Qed.

Lemma set_combination_spec i : forall names s j acc,
  gates_ok (gates s) -> NoDup names -> (0 <= j)%Z ->
  (forall n, In n names -> ~ In n (map fst acc)) ->
  gates_ok (gates (fst (set_combination s i j names acc))) /\
  snd (set_combination s i j names acc) =
    acc ++ combine names
             (map (fun k => Z.b2z (Z.testbit i (j + Z.of_nat k)))
                (seq 0 (List.length names))).
Proof.
  induction names as [|n names IH]; intros s j acc Hok Hnd Hj Hacc;
    cbn [set_combination].
  - split; [exact Hok | now rewrite app_nil_r].
  - inversion Hnd as [|? ? Hn Hnd']; subst.
    match goal with
    | |- context [set_combination ?s2 i (j + 1)%Z names ?acc2] =>
        destruct (IH s2 (j + 1)%Z acc2) as [G V]
    end.
    + cbn [with_gates_wires gates set_input]. now apply force_output_ok.
    + exact Hnd'.
    + lia.
    + intros m Hm. rewrite sset_absent by (apply Hacc; now left).
      rewrite map_app, in_app_iff. simpl.
      intros [Hin|[Heq|[]]].
      * apply (Hacc m); [now right | exact Hin].
      * subst m. contradiction.
    + split; [exact G|]. rewrite V.
      rewrite sset_absent by (apply Hacc; now left).
      rewrite <- app_assoc. f_equal. cbn [List.length seq map combine app].
      rewrite bit_of_testbit by lia. rewrite Z.add_0_r. f_equal.
      f_equal. rewrite <- seq_shift, map_map.
      apply map_ext. intros k. f_equal. f_equal. lia.
Qed.

Lemma truth_rows_spec input_names output_names :
  NoDup input_names ->
  forall n i s,
    gates_ok (gates s) -> (0 <= i)%Z ->
    exists s' rows out,
      truth_rows n i s input_names output_names = Ok (s', rows, out) /\
      List.length rows = n /\
      forall k r, nth_error rows k = Some r ->
        row_inputs r = binary_row (i + Z.of_nat k) input_names.
Proof.
  intros Hnd. induction n as [|n IH]; intros i s Hok Hi; cbn [truth_rows].
  - exists s, [], []. repeat split. intros [|k] r H; discriminate H.
  - destruct (set_combination_spec i input_names s 0 [] Hok Hnd (Z.le_refl 0))
      as [G V]; [intros n0 _ []|].
    destruct (set_combination s i 0 input_names []) as [s1 input_values].
    cbn [fst snd] in G, V.
    destruct (propagate_ok s1 G) as (p & -> & Gp). run.
    destruct (IH (i + 1)%Z (sim_after p) Gp) as (s2 & rest & out & -> & Hlen & Hrows);
      [lia|]. run.
    eexists _, _, _. split; [reflexivity|]. split; [simpl; now rewrite Hlen|].
    intros [|k] r H; simpl in H.
    + injection H as <-. cbn [row_inputs]. rewrite V. unfold binary_row.
      cbn [app]. rewrite Z.add_0_r. reflexivity.
    + rewrite (Hrows k r H). f_equal. lia.
Qed.

(** The counting part of the truth-table contract holds: for pairwise
    distinct input names and gates as the constructor builds them,
    [get_truth_table] returns exactly [2 ^ n] rows, and row [k] carries on
    input [j] binary digit [j] of [k]. *)
Lemma get_truth_table_counts s input_names output_names :
  gates_ok (gates s) -> NoDup input_names ->
  exists s' rows out,
    get_truth_table s input_names output_names = Ok (s', rows, out) /\
    List.length rows = (2 ^ List.length input_names)%nat /\
    forall k r, nth_error rows k = Some r ->
      row_inputs r = binary_row (Z.of_nat k) input_names.
Proof.
  intros Hok Hnd. unfold get_truth_table.
  destruct (truth_rows_spec input_names output_names Hnd
              (2 ^ List.length input_names) 0%Z s Hok (Z.le_refl 0))
    as (s' & rows & out & H & Hlen & Hrows).
  exists s', rows, out. repeat split; assumption.
Qed.

(** *** The truth table of an AND gate (C3) *)

(** C3 fails on the code: for a lone 2-input AND gate, and for the same gate
    fed by two input gates [a] and [b], [get_truth_table] returns four rows
    in counting order whose output is UNKNOWN (-1) in every row, the row of
    inputs (1,1) included; the expected table is a different one. *)
Theorem and_truth_table_all_unknown :
  (exists s', get_truth_table and_only ["a"; "b"] ["and1"] =
              Ok (s', and_table_observed, [])) /\
  (exists s', get_truth_table and_buffered ["a"; "b"] ["and1"] =
              Ok (s', and_table_observed, [])) /\
  and_table_observed <> and_table_expected.
Proof.
  split; [|split].
  - eexists. vm_compute. reflexivity.
  - eexists. vm_compute. reflexivity.
  - intros H. apply (f_equal (fun t => map row_outputs t)) in H.
    vm_compute in H. discriminate H.
Qed.

End DigitalProofs.

(* ================================================================== *)
(** ** The circuit engine *)
(* ================================================================== *)

Module EngineProofs.
Import Engine Networks.

(** *** Wires whose ends are not dicts *)

Lemma end_ok_reads e :
  end_ok e = true ->
  exists c t, end_comp_id e = Ok c /\ end_terminal e = Ok t /\
              end_key e = Some (term_key c t).
Proof.
  destruct e as [[[id|v] t]|v]; simpl; try discriminate.
  intros _. eexists _, _. repeat split.
Qed.

Lemma end_key_reads e k :
  end_key e = Some k ->
  exists c t, end_comp_id e = Ok c /\ end_terminal e = Ok t /\
              k = term_key c t.
Proof.
  destruct e as [[[id|v] t]|v]; simpl; try discriminate.
  intros [= <-]. eexists _, _. repeat split.
Qed.

(** One turn of the merge loop: on a wire with two dict ends it merges the
    two keys, on any other wire it raises. *)
Lemma merge_wire_cases nm w :
  (wire_ok w = true /\
   exists fk tk, end_key (wire_from w) = Some fk /\
                 end_key (wire_to w) = Some tk /\
                 merge_wire nm w = Ok (merge_keys nm fk tk)) \/
  (wire_ok w = false /\ merge_wire nm w = Raise AttributeError).
Proof.
  destruct w as [[[[fid|fv] ft]|fv] [[[tid|tv] tt]|tv]];
    unfold merge_wire, wire_ok; simpl; run;
    try (right; split; reflexivity).
  left. split; [reflexivity|]. eexists _, _. repeat split.
Qed.

Lemma merge_wires_cases : forall ws nm,
  (forallb wire_ok ws = true /\ exists nm', merge_wires ws nm = Ok nm') \/
  (forallb wire_ok ws = false /\ merge_wires ws nm = Raise AttributeError).
Proof.
  induction ws as [|w ws IH]; intros nm; cbn [merge_wires forallb].
  - left. split; [reflexivity | eauto].
  - destruct (merge_wire_cases nm w) as [[Hw (fk & tk & _ & _ & ->)]|[Hw ->]];
      rewrite Hw; run.
    + exact (IH _).
    + right. split; reflexivity.
Qed.

Lemma build_node_map_cases components wires :
  (forallb wire_ok wires = true /\
   exists nm g, _build_node_map components wires = Ok (nm, g)) \/
  (forallb wire_ok wires = false /\
   _build_node_map components wires = Raise AttributeError).
Proof.
  unfold _build_node_map.
  destruct (match find (fun c => type_is c "ground") components with
            | Some c => (dict_set pyid_eqb [] (comp_id c) 0%Z, comp_id c)
            | None => ([], IdNone)
            end) as [nm0 g].
  destruct (assign_nodes components g nm0 0) as [nm1 next].
  destruct (merge_wires_cases wires nm1) as [[Hw [nm' ->]]|[Hw ->]]; run.
  - left. split; [exact Hw | eauto].
  - right. split; [exact Hw | reflexivity].
Qed.

Lemma build_node_map_raises components wires :
  PySpec.raises_only AttributeError (_build_node_map components wires).
Proof.
  destruct (build_node_map_cases components wires)
    as [[_ (nm & g & ->)]|[_ ->]].
  - apply raises_only_Ok.
  - apply raises_only_Raise.
Qed.

(** *** No ground (C7) *)






(** *** Division is guarded (C9) *)

Lemma never_raises_of_only {A : Type} (x y : exn) (r : result A) :
  x <> y -> PySpec.raises_only y r -> PySpec.never_raises x r.
Proof. intros Hxy Hr E. exact (Hxy (Hr x E)). Qed.

Lemma never_raises_Ok {A : Type} x (a : A) : PySpec.never_raises x (Ok a).
Proof. intros H. discriminate H. Qed.

Lemma never_raises_bind {A B : Type} x (m : result A) (f : A -> result B) :
  PySpec.never_raises x m ->
  (forall a, m = Ok a -> PySpec.never_raises x (f a)) ->
  PySpec.never_raises x (bind m f).
Proof.
  intros Hm Hf. destruct m as [a|e]; unfold bind; [now apply Hf|].
  intros [= ->]. now apply Hm.
Qed.

Lemma np_index_raises n i : PySpec.raises_only IndexError (np_index n i).
Proof.
  unfold np_index.
  destruct ((0 <=? i)%Z && (i <? Z.of_nat n)%Z); [apply raises_only_Ok|].
  destruct ((- Z.of_nat n <=? i)%Z && (i <? 0)%Z);
    [apply raises_only_Ok | apply raises_only_Raise].
Qed.

Lemma vec_get_raises v i : PySpec.raises_only IndexError (vec_get v i).
Proof.
  unfold vec_get. apply raises_only_bind; [apply np_index_raises|].
  intros; apply list_index_raises.
Qed.

Lemma vec_set_raises v i x : PySpec.raises_only IndexError (vec_set v i x).
Proof.
  unfold vec_set. apply raises_only_bind; [apply np_index_raises|].
  intros; apply list_assign_raises.
Qed.

Lemma mat_add_raises G i j x : PySpec.raises_only IndexError (mat_add G i j x).
Proof.
  unfold mat_add.
  apply raises_only_bind; [apply np_index_raises|]. intros k _.
  apply raises_only_bind; [apply list_index_raises|]. intros row _.
  apply raises_only_bind; [apply vec_get_raises|]. intros old _.
  apply raises_only_bind; [apply vec_set_raises|]. intros row' _.
  apply list_assign_raises.
Qed.

Lemma index_of_raises l c : PySpec.raises_only ValueError (index_of l c).
Proof.
  induction l as [|x l IH]; simpl; [apply raises_only_Raise|].
  destruct (component_eqb x c); [apply raises_only_Ok|].
  apply raises_only_bind; [exact IH|]. intros; apply raises_only_Ok.
Qed.

(** The guard [r > 0] excludes a zero divisor. *)
Lemma positive_nonzero r : positive r = true -> Qeq_bool r 0 = false.
Proof.
  unfold positive. intros H. apply negb_true_iff in H.
  destruct (Qeq_bool r 0) eqn:E; [|reflexivity].
  apply Qeq_bool_iff in E.
  assert (L : Qle_bool r 0 = true) by (apply Qle_bool_iff; rewrite E; apply Qle_refl).
  congruence.
Qed.

Lemma nonpositive_not_positive r : (r <= 0)%Q -> positive r = false.
Proof.
  intros H. unfold positive. apply negb_false_iff. now apply Qle_bool_iff.
Qed.

Lemma conductance_never_divides_by_zero r :
  PySpec.never_raises ZeroDivisionError (conductance r).
Proof.
  unfold conductance, pydiv. destruct (positive r) eqn:P.
  - rewrite (positive_nonzero r P). apply never_raises_Ok.
  - apply never_raises_Ok.
Qed.

Lemma resistor_current_never_divides_by_zero v r :
  PySpec.never_raises ZeroDivisionError (resistor_current v r).
Proof.
  unfold resistor_current, pydiv. destruct (positive r) eqn:P.
  - rewrite (positive_nonzero r P). apply never_raises_Ok.
  - apply never_raises_Ok.
Qed.

Ltac index_only :=
  apply (never_raises_of_only ZeroDivisionError IndexError); [discriminate|];
  first [apply mat_add_raises | apply vec_set_raises | apply vec_get_raises].

Lemma add_component_never_divides_by_zero c G Ivec node_map ground_node vs :
  PySpec.never_raises ZeroDivisionError
    (_add_component_to_mna c G Ivec node_map ground_node vs).
Proof.
  unfold _add_component_to_mna.
  destruct (type_is c "resistor").
  - apply never_raises_bind; [apply conductance_never_divides_by_zero|].
    intros g _.
    apply never_raises_bind.
    { destruct (0 <? node_of node_map (comp_id c) 0)%Z; [|apply never_raises_Ok].
      apply never_raises_bind; [index_only|]. intros Ga _.
      destruct (0 <? node_of node_map (comp_id c) 1)%Z;
        [index_only | apply never_raises_Ok]. }
    intros G1 _.
    apply never_raises_bind.
    { destruct (0 <? node_of node_map (comp_id c) 1)%Z; [|apply never_raises_Ok].
      apply never_raises_bind; [index_only|]. intros Gb _.
      destruct (0 <? node_of node_map (comp_id c) 0)%Z;
        [index_only | apply never_raises_Ok]. }
    intros G2 _. apply never_raises_Ok.
  - destruct (type_is c "battery"); [|apply never_raises_Ok].
    apply never_raises_bind.
    { apply (never_raises_of_only ZeroDivisionError ValueError); [discriminate|].
      apply index_of_raises. }
    intros vs_idx _.
    apply never_raises_bind.
    { destruct (0 <? node_of node_map (comp_id c) 0)%Z; [|apply never_raises_Ok].
      apply never_raises_bind; [index_only|]. intros Ga _. index_only. }
    intros G1 _.
    apply never_raises_bind.
    { destruct (0 <? node_of node_map (comp_id c) 1)%Z; [|apply never_raises_Ok].
      apply never_raises_bind; [index_only|]. intros Gb _. index_only. }
    intros G2 _.
    apply never_raises_bind; [index_only|]. intros; apply never_raises_Ok.
Qed.

Lemma stamp_all_never_divides_by_zero node_map ground_node vs : forall cs G Ivec,
  PySpec.never_raises ZeroDivisionError
    (stamp_all cs G Ivec node_map ground_node vs).
Proof.
  induction cs as [|c cs IH]; intros G Ivec; simpl; [apply never_raises_Ok|].
  apply never_raises_bind; [apply add_component_never_divides_by_zero|].
  intros [G1 Ivec1] _. apply IH.
Qed.

Lemma node_voltage_entries_never_divides_by_zero V : forall items volts,
  PySpec.never_raises ZeroDivisionError (node_voltage_entries items V volts).
Proof.
  induction items as [|[node_id node_idx] items IH]; intros volts; simpl;
    [apply never_raises_Ok|].
  destruct (0 <? node_idx)%Z; [|apply IH].
  apply never_raises_bind; [index_only|]. intros; apply IH.
Qed.

Lemma get_component_voltage_never_divides_by_zero c V node_map ground_node :
  PySpec.never_raises ZeroDivisionError
    (_get_component_voltage c V node_map ground_node).
Proof.
  unfold _get_component_voltage.
  apply never_raises_bind.
  { destruct (0 <? node_of node_map (comp_id c) 0)%Z;
      [index_only | apply never_raises_Ok]. }
  intros v1 _. apply never_raises_bind.
  { destruct (0 <? node_of node_map (comp_id c) 1)%Z;
      [index_only | apply never_raises_Ok]. }
  intros; apply never_raises_Ok.
Qed.

Lemma component_entries_never_divides_by_zero V node_map ground_node vs n :
  forall cs volts curs,
  PySpec.never_raises ZeroDivisionError
    (component_entries cs V node_map ground_node vs n volts curs).
Proof.
  induction cs as [|c cs IH]; intros volts curs; simpl; [apply never_raises_Ok|].
  destruct (type_is c "resistor").
  - apply never_raises_bind;
      [apply get_component_voltage_never_divides_by_zero|]. intros v _.
    apply never_raises_bind;
      [apply resistor_current_never_divides_by_zero|]. intros; apply IH.
  - destruct (type_is c "battery"); [|apply IH].
    apply never_raises_bind.
    { apply (never_raises_of_only ZeroDivisionError ValueError); [discriminate|].
      apply index_of_raises. }
    intros idx _. apply never_raises_bind; [index_only|]. intros; apply IH.
Qed.

Lemma simulate_dc_never_divides_by_zero solve components wires :
  PySpec.never_raises ZeroDivisionError (simulate_dc solve components wires).
Proof.
  unfold simulate_dc.
  apply never_raises_bind.
  { apply (never_raises_of_only ZeroDivisionError AttributeError);
      [discriminate | apply build_node_map_raises]. }
  intros [node_map ground_node] _.
  assert (X : forall n,
    PySpec.never_raises ZeroDivisionError
      ('(G, Ivec) <- stamp_all components (zeros2 n) (zeros n) node_map
                       ground_node
                       (filter (fun c => type_is c "battery") components) ;;
       match solve G Ivec with
       | Some V =>
           volts0 <- node_voltage_entries node_map V [] ;;
           '(volts, curs) <- component_entries components V node_map
                               ground_node
                               (filter (fun c => type_is c "battery") components)
                               (Z.of_nat (List.length node_map) - 1) volts0 [] ;;
           Ok {| success := true; error := None; voltages := volts;
                 currents := curs; node_voltages := Some volts |}
       | None => Ok singular_result
       end)).
  { intros n.
    apply never_raises_bind; [apply stamp_all_never_divides_by_zero|].
    intros [G Ivec] _. destruct (solve G Ivec) as [V|]; [|apply never_raises_Ok].
    apply never_raises_bind; [apply node_voltage_entries_never_divides_by_zero|].
    intros volts0 _.
    apply never_raises_bind; [apply component_entries_never_divides_by_zero|].
    intros [volts curs] _. apply never_raises_Ok. }
  destruct ground_node; [apply never_raises_Ok | apply X | apply X].
Qed.

(** C9: for a resistor whose resistance is zero or negative, the conductance
    stamped by the MNA assembly and the current derived by the DC driver are
    both set to 0 without dividing, so neither [_add_component_to_mna] nor
    [simulate_dc] can raise ZeroDivisionError, on any matrices, node map,
    wires and solver. *)
Theorem nonpositive_resistance_clamped :
  forall c : Component,
    type_is c "resistor" = true ->
    (prop c "resistance" 1000 <= 0)%Q ->
    conductance (prop c "resistance" 1000) = Ok 0%Q /\
    (forall v, resistor_current v (prop c "resistance" 1000) = Ok 0%Q) /\
    (forall G Ivec node_map ground_node vs,
       PySpec.never_raises ZeroDivisionError
         (_add_component_to_mna c G Ivec node_map ground_node vs)) /\
    (forall solve components wires,
       In c components ->
       PySpec.never_raises ZeroDivisionError
         (simulate_dc solve components wires)).
Proof.
  intros c _ Hr. pose proof (nonpositive_not_positive _ Hr) as P.
  split; [|split; [|split]].
  - unfold conductance. now rewrite P.
  - intros v. unfold resistor_current. now rewrite P.
  - intros. apply add_component_never_divides_by_zero.
  - intros. apply simulate_dc_never_divides_by_zero.
Qed.

Lemma nonpositive_resistance_clamped_witness :
  conductance (prop (resistor "r1" 0) "resistance" 1000) = Ok 0%Q /\
  (forall v, resistor_current v (prop (resistor "r1" 0) "resistance" 1000) = Ok 0%Q) /\
  (forall G Ivec node_map ground_node vs,
     PySpec.never_raises ZeroDivisionError
       (_add_component_to_mna (resistor "r1" 0) G Ivec node_map ground_node vs)) /\
  (forall solve components wires,
     In (resistor "r1" 0) components ->
     PySpec.never_raises ZeroDivisionError
       (simulate_dc solve components wires)).
Proof.
  apply (nonpositive_resistance_clamped (resistor "r1" 0)).
  - reflexivity.
  - vm_compute. discriminate.
Defined.

(** *** Merging nodes along wires (C4) *)

Lemma pyid_eqb_eq a b : pyid_eqb a b = true <-> a = b.
Proof.
  destruct a as [|x|x], b as [|y|y]; simpl; split; intros H;
    try discriminate; try reflexivity.
  - apply Z.eqb_eq in H. now subst.
  - injection H as ->. apply Z.eqb_refl.
  - apply String.eqb_eq in H. now subst.
  - injection H as ->. apply String.eqb_refl.
Qed.

Lemma pget_pset (d : NodeMap) k v k' :
  dict_get pyid_eqb (dict_set pyid_eqb d k v) k' =
  if pyid_eqb k k' then Some v else dict_get pyid_eqb d k'.
Proof.
  induction d as [|[k0 v0] d IH]; simpl; [reflexivity|].
  destruct (pyid_eqb k0 k) eqn:E0; simpl.
  - apply pyid_eqb_eq in E0. subst k0.
    destruct (pyid_eqb k k'); reflexivity.
  - rewrite IH. destruct (pyid_eqb k0 k') eqn:E1; [|reflexivity].
    destruct (pyid_eqb k k') eqn:E2; [|reflexivity].
    apply pyid_eqb_eq in E1, E2. subst k0 k'.
    assert (R : pyid_eqb k k = true) by now apply pyid_eqb_eq.
    congruence.
Qed.

(** One merge does what its comment says: both ends of the wire get the
    lower of their two node numbers. *)
Lemma merge_wire_joins_ends node_map w a b :
  node_of_endpoint node_map (wire_from w) = Some a ->
  node_of_endpoint node_map (wire_to w) = Some b ->
  exists node_map',
    merge_wire node_map w = Ok node_map' /\
    node_of_endpoint node_map' (wire_from w) = Some (Z.min a b) /\
    node_of_endpoint node_map' (wire_to w) = Some (Z.min a b).
Proof.
  unfold node_of_endpoint. intros Ha Hb.
  destruct (end_key (wire_from w)) as [fk|] eqn:Ef; [|discriminate].
  destruct (end_key (wire_to w)) as [tk|] eqn:Et; [|discriminate].
  destruct (merge_wire_cases node_map w)
    as [[_ (fk' & tk' & Ef' & Et' & ->)]|[Hw _]].
  - rewrite Ef in Ef'. rewrite Et in Et'.
    injection Ef' as <-. injection Et' as <-.
    eexists. split; [reflexivity|].
    unfold merge_keys. rewrite Ha, Hb, !pget_pset.
    assert (R : forall k, pyid_eqb k k = true) by (intros k; now apply pyid_eqb_eq).
    rewrite !R.
    destruct (pyid_eqb _ _); split; reflexivity.
  - exfalso. unfold wire_ok in Hw.
    destruct (wire_from w) as [[[?|?] ?]|?], (wire_to w) as [[[?|?] ?]|?];
      simpl in *; discriminate.
Qed.

(** C4 fails on the code: in the chain r1 - r2 - r3 - ground with the wire
    r2-r3 listed first, the node map ends with the two ends of that wire on
    different nodes (r2 terminal 1 on node 2, r3 terminal 0 on node 4), so
    r1 terminal 1 and r3 terminal 0, joined through r2, are on different
    nodes too: a merge renumbers the two ends of its wire only, not the
    terminals merged with them before.  The ground terminal has no entry
    under its terminal key, so the wire to it merges nothing and r3 terminal
    1 stays on node 6. *)
Theorem wired_terminals_on_different_nodes :
  exists node_map ground_node,
    _build_node_map chain_components chain_wires = Ok (node_map, ground_node) /\
    In (wire "r2" 1 "r3" 0) chain_wires /\
    node_of_endpoint node_map (wire_from (wire "r2" 1 "r3" 0)) = Some 2%Z /\
    node_of_endpoint node_map (wire_to (wire "r2" 1 "r3" 0)) = Some 4%Z /\
    node_of_endpoint node_map (wire_from (wire "r1" 1 "r2" 1)) = Some 2%Z /\
    In (wire "r3" 1 "gnd" 0) chain_wires /\
    node_of_endpoint node_map (wire_from (wire "r3" 1 "gnd" 0)) = Some 6%Z /\
    node_of_endpoint node_map (wire_to (wire "r3" 1 "gnd" 0)) = None /\
    dict_get pyid_eqb node_map ground_node = Some 0%Z.
Proof.
  eexists _, _. split; [vm_compute; reflexivity|].
  split; [now left|]. repeat split. now right; right; left.
Qed.

(** *** The AC sweep (C6) *)

(** C6 as stated fails: with no component and no wire the sweep still
    returns its 100 frequency points. *)
Lemma simulate_ac_empty_circuit_not_empty :
  ac_success (simulate_ac [] []) = true /\
  List.length (frequencies (simulate_ac [] [])) = 100%nat /\
  frequencies (simulate_ac [] []) <> [] /\
  magnitude (simulate_ac [] []) <> [].
Proof.
  split; [reflexivity|]. split; [reflexivity|].
  split; intros H; apply (f_equal (@List.length _)) in H;
    vm_compute in H; discriminate H.
Qed.

(** C6, as the code has it: whatever the components and wires are (none
    included), [simulate_ac] returns success with the same 100 frequencies
    10^(6k/99), k = 0..99, each with magnitude 1 and phase 0. *)
Theorem simulate_ac_placeholder :
  forall (components : list Component) (wires : list Wire),
    ac_success (simulate_ac components wires) = true /\
    frequencies (simulate_ac components wires) =
      map (fun k => Pow10 (0 + inject_Z (Z.of_nat k) * ((6 - 0) / inject_Z 99)))
        (seq 0 100) /\
    magnitude (simulate_ac components wires) = repeat 1%Q 100 /\
    phase (simulate_ac components wires) = repeat 0%Q 100 /\
    simulate_ac components wires = simulate_ac [] [].
Proof.
  intros components wires.
  split; [reflexivity|]. split; [|split; [|split]]; reflexivity.
Qed.

(** *** The transient driver (C1) *)

(** The sample loop returns whenever the DC analysis of the circuit does. *)
Lemma transient_steps_total solve components wires r :
  simulate_dc solve components wires = Ok r ->
  forall pts vh ch, exists vh' ch',
    transient_steps solve pts components wires vh ch = Ok (vh', ch').
Proof.
  intros H. induction pts as [|t pts IH]; intros vh ch; cbn [transient_steps].
  - eauto.
  - rewrite H. run. apply IH.
Qed.

(** C1 as stated fails.  With [grid] standing in for [np.arange] (the two
    agree on these parameters): a run whose end lies before its start is not
    rejected but returns success with no sample; so does a run with a
    negative step; with end before start and a negative step the run
    returns success with 1000 samples; and with a zero step the exception
    of the division escapes, no failure dict is returned. *)
Lemma transient_bad_parameters_not_rejected :
  simulate_transient failing_solver grid floating_components floating_wires
    (-1) (1 # 1000) = Ok empty_transient /\
  simulate_transient failing_solver grid floating_components floating_wires
    1 (-1 # 1000) = Ok empty_transient /\
  t_success empty_transient = true /\
  (exists r,
     simulate_transient failing_solver grid floating_components floating_wires
       (-1) (-1 # 1000) = Ok r /\
     t_success r = true /\ List.length (time r) = 1000%nat) /\
  simulate_transient failing_solver grid floating_components floating_wires
    1 0 = Raise ZeroDivisionError.
Proof.
  split; [reflexivity|]. split; [reflexivity|]. split; [reflexivity|].
  split; [|reflexivity].
  destruct (simulate_transient failing_solver grid floating_components
              floating_wires (-1) (-1 # 1000)) as [r|e] eqn:E;
    [|vm_compute in E; discriminate E].
  exists r. split; [reflexivity|].
  unfold simulate_transient in E. bind_ok E.
  bind_ok E. destruct a0 as [vh ch]. apply Ok_inj in E. subst r.
  split; [reflexivity|]. cbn [time].
  vm_compute in E0. apply Ok_inj in E0. subst a. reflexivity.
Qed.

(** C1, as the code has it: the transient driver checks none of its
    parameters and has no failing result.  For every duration and time step
    (end before start and steps of zero or below included) the run is what
    [np.arange(0, duration, time_step)] makes of them: an exception of
    [np.arange] escapes, so no result dict is returned; an empty time axis
    gives success with empty histories; and a time axis of any length gives,
    when the DC analysis of the circuit returns, success with every one of
    its points as a sample, the driver itself putting no bound on their
    number.  A run that returns always reports success, on the time axis
    [np.arange] gave. *)
Theorem transient_never_rejects :
  forall (solve : Matrix -> Vector -> option Vector)
         (np_arange : Q -> Q -> Q -> result (list Q))
         (components : list Component) (wires : list Wire)
         (duration time_step : Q),
    (forall e, np_arange 0 duration time_step = Raise e ->
       simulate_transient solve np_arange components wires duration time_step =
         Raise e) /\
    (np_arange 0 duration time_step = Ok [] ->
       simulate_transient solve np_arange components wires duration time_step =
         Ok empty_transient) /\
    (forall pts r0,
       np_arange 0 duration time_step = Ok pts ->
       simulate_dc solve components wires = Ok r0 ->
       exists r,
         simulate_transient solve np_arange components wires duration
           time_step = Ok r /\
         t_success r = true /\ time r = pts) /\
    (forall r,
       simulate_transient solve np_arange components wires duration time_step =
         Ok r ->
       t_success r = true /\ np_arange 0 duration time_step = Ok (time r)).
Proof.
  intros solve np_arange components wires duration time_step.
  unfold simulate_transient.
  split; [|split; [|split]].
  - intros e ->. reflexivity.
  - intros ->. reflexivity.
  - intros pts r0 -> H0. run.
    destruct (transient_steps_total _ _ _ _ H0 pts [] []) as (vh & ch & ->).
    eexists. repeat split.
  - intros r H. bind_ok H. bind_ok H. destruct a0 as [vh ch].
    apply Ok_inj in H. subst r. split; [reflexivity | exact E].
Qed.

(** *** Around the linear solve *)

(** The system [simulate_dc] hands to the solver is the one [dc_system]
    assembles; whatever makes the solver fail becomes the "Singular matrix"
    failure dict, and a vector it returns is what the results are read
    from. *)
Lemma simulate_dc_solver_outcome solve components wires node_map ground_node
  G Ivec :
  dc_system components wires = Ok (node_map, ground_node, (G, Ivec)) ->
  ground_node <> IdNone ->
  simulate_dc solve components wires =
    match solve G Ivec with
    | None => Ok singular_result
    | Some V =>
        volts0 <- node_voltage_entries node_map V [] ;;
        '(volts, curs) <- component_entries components V node_map ground_node
                            (filter (fun c => type_is c "battery") components)
                            (Z.of_nat (List.length node_map) - 1) volts0 [] ;;
        Ok {| success := true; error := None; voltages := volts;
              currents := curs; node_voltages := Some volts |}
    end.
Proof.
  unfold dc_system, simulate_dc. intros H Hg.
  bind_ok H. destruct a as [nm g]. cbv zeta in H. bind_ok H.
  destruct a as [G' I']. apply Ok_inj in H. injection H as -> -> -> ->.
  rewrite E. run. destruct ground_node as [|z|n]; [congruence| |];
    rewrite E0; run; reflexivity.
Qed.

(** The example of two voltage sources that force one node pair to two
    different voltages: the assembled system has no solution. *)
Lemma parallel_batteries_system :
  exists nm g G Ivec,
    dc_system parallel_components parallel_wires = Ok (nm, g, (G, Ivec)) /\
    g <> IdNone /\
    forall V, ~ solves G V Ivec.
Proof.
  eexists _, _, _, _. split; [vm_compute; reflexivity|].
  split; [discriminate|].
  intros V E. unfold solves in E. cbn [map] in E.
  repeat match goal with
         | H : Forall2 _ (_ :: _) (_ :: _) |- _ =>
             inversion H; clear H; subst
         end.
  destruct V as [|v0 [|v1 V]]; cbn [dot] in *; lra.
Qed.

(** So with any solver that only returns solutions the DC driver ends in
    the "Singular matrix" failure dict. *)
Lemma parallel_batteries_fail_singular
  (solve : Matrix -> Vector -> option Vector) :
  (forall G Ivec V, solve G Ivec = Some V -> solves G V Ivec) ->
  simulate_dc solve parallel_components parallel_wires = Ok singular_result.
Proof.
  intros Hsound.
  destruct parallel_batteries_system as (nm & g & G & Ivec & Hs & Hg & Hno).
  rewrite (simulate_dc_solver_outcome _ _ _ _ _ _ _ Hs Hg).
  destruct (solve G Ivec) as [V|] eqn:E; [|reflexivity].
  elim (Hno V). now apply Hsound.
Qed.

End EngineProofs.

(* ================================================================== *)
(** ** Gates: [evaluate], [set_input], [update] *)
(* ================================================================== *)

Module GateFacts.
Import Digital DigitalSpec GateSpec Circuits DigitalProofs.

Lemma parity_of_high_count (l : list LogicLevel) :
  (high_count l mod 2 =? 1)%Z = fold_right xorb false (map is_high l).
Proof.
  unfold high_count.
  induction l as [|a l IH]; [reflexivity|].
  cbn [filter map fold_right]. destruct (is_high a).
  - rewrite <- IH. cbn [List.length]. rewrite Nat2Z.inj_succ.
    rewrite !Zmod_odd, Z.odd_succ, <- Z.negb_odd.
    destruct (Z.odd (Z.of_nat (List.length (filter is_high l)))); reflexivity.
  - rewrite IH. reflexivity.
Qed.

Lemma forallb_as_fold (l : list LogicLevel) :
  forallb is_high l = fold_right andb true (map is_high l).
Proof. induction l as [|a l IH]; simpl; [reflexivity | now rewrite IH]. Qed.

Lemma existsb_as_fold (l : list LogicLevel) :
  existsb is_high l = fold_right orb false (map is_high l).
Proof. induction l as [|a l IH]; simpl; [reflexivity | now rewrite IH]. Qed.

(** X1: NAND, NOR and XNOR gates answer with the complement of what an AND,
    OR and XOR gate answers on the same inputs (UNKNOWN for UNKNOWN), for
    every number and value of inputs; none of the six can raise. *)
Theorem evaluate_complement_pairs :
  forall g : LogicGate,
    (exists l, evaluate (with_type g AND) = Ok l /\
               evaluate (with_type g NAND) = Ok (complement l)) /\
    (exists l, evaluate (with_type g OR) = Ok l /\
               evaluate (with_type g NOR) = Ok (complement l)) /\
    (exists l, evaluate (with_type g XOR) = Ok l /\
               evaluate (with_type g XNOR) = Ok (complement l)).
Proof.
  intros g. unfold evaluate. cbn [with_type gate_type inputs].
  destruct (existsb (level_eqb UNKNOWN) (inputs g)).
  - repeat split; exists UNKNOWN; split; reflexivity.
  - split; [|split].
    + destruct (forallb is_high (inputs g)); eexists; split; reflexivity.
    + destruct (existsb is_high (inputs g)); eexists; split; reflexivity.
    + destruct (high_count (inputs g) mod 2 =? 1)%Z; eexists; split; reflexivity.
Qed.

(** X2: on inputs none of which is UNKNOWN, the gates compute the Boolean
    functions of "this input is HIGH": AND the conjunction, OR the
    disjunction, XOR the parity (exclusive-or of all inputs), NAND, NOR and
    XNOR their negations; a HIGH-Z input counts as not HIGH for them.  NOT
    answers HIGH exactly when its first input is LOW (so LOW for HIGH-Z),
    and BUFFER hands its first input through. *)
Theorem evaluate_boolean_functions :
  forall g : LogicGate,
    existsb (level_eqb UNKNOWN) (inputs g) = false ->
    let bs := map is_high (inputs g) in
    evaluate (with_type g AND) = Ok (of_bool (fold_right andb true bs)) /\
    evaluate (with_type g OR) = Ok (of_bool (fold_right orb false bs)) /\
    evaluate (with_type g XOR) = Ok (of_bool (fold_right xorb false bs)) /\
    evaluate (with_type g NAND) = Ok (of_bool (negb (fold_right andb true bs))) /\
    evaluate (with_type g NOR) = Ok (of_bool (negb (fold_right orb false bs))) /\
    evaluate (with_type g XNOR) = Ok (of_bool (negb (fold_right xorb false bs))) /\
    (forall a rest, inputs g = a :: rest ->
       evaluate (with_type g NOT) = Ok (of_bool (level_eqb a LOW)) /\
       evaluate (with_type g BUFFER) = Ok a).
Proof.
  intros g H bs. subst bs. unfold evaluate.
  cbn [with_type gate_type inputs]. rewrite H.
  rewrite <- forallb_as_fold, <- existsb_as_fold, <- parity_of_high_count.
  repeat apply conj.
  - destruct (forallb is_high (inputs g)); reflexivity.
  - destruct (existsb is_high (inputs g)); reflexivity.
  - destruct (high_count (inputs g) mod 2 =? 1)%Z; reflexivity.
  - destruct (forallb is_high (inputs g)); reflexivity.
  - destruct (existsb is_high (inputs g)); reflexivity.
  - destruct (high_count (inputs g) mod 2 =? 1)%Z; reflexivity.
  - intros a rest Hin. rewrite Hin. unfold bind, list_index. cbn [nth_error].
    split; [|reflexivity]. destruct (level_eqb a LOW); reflexivity.
Qed.

Lemma evaluate_boolean_functions_witness :
  let g := with_inputs (new_LogicGate "x" XOR 3 delay) [HIGH; HIGH_Z; HIGH] in
  let bs := map is_high (inputs g) in
  evaluate (with_type g AND) = Ok (of_bool (fold_right andb true bs)) /\
  evaluate (with_type g OR) = Ok (of_bool (fold_right orb false bs)) /\
  evaluate (with_type g XOR) = Ok (of_bool (fold_right xorb false bs)) /\
  evaluate (with_type g NAND) = Ok (of_bool (negb (fold_right andb true bs))) /\
  evaluate (with_type g NOR) = Ok (of_bool (negb (fold_right orb false bs))) /\
  evaluate (with_type g XNOR) = Ok (of_bool (negb (fold_right xorb false bs))) /\
  (forall a rest, inputs g = a :: rest ->
     evaluate (with_type g NOT) = Ok (of_bool (level_eqb a LOW)) /\
     evaluate (with_type g BUFFER) = Ok a).
Proof.
  exact (evaluate_boolean_functions
           (with_inputs (new_LogicGate "x" XOR 3 delay) [HIGH; HIGH_Z; HIGH])
           eq_refl).
Defined.

Lemma existsb_unknown_In (l : list LogicLevel) :
  In UNKNOWN l -> existsb (level_eqb UNKNOWN) l = true.
Proof.
  intros H. apply existsb_exists. exists UNKNOWN. split; [exact H | reflexivity].
Qed.

(** X3: what [evaluate] can answer.  One UNKNOWN input makes the answer
    UNKNOWN whatever the type and the other inputs are (an OR gate with a
    HIGH input included); a gate of a type outside the eight combinational
    ones always answers UNKNOWN; and HIGH-Z is only ever answered by a
    BUFFER whose first input is HIGH-Z. *)
Theorem evaluate_answers :
  forall (g : LogicGate) (l : LogicLevel),
    evaluate g = Ok l ->
    (In UNKNOWN (inputs g) -> l = UNKNOWN) /\
    (match gate_type g with
     | AND | OR | NOT | NAND | NOR | XOR | XNOR | BUFFER => True
     | _ => l = UNKNOWN
     end) /\
    (l = HIGH_Z ->
     gate_type g = BUFFER /\ nth_error (inputs g) 0 = Some HIGH_Z).
Proof.
  intros g l. unfold evaluate.
  destruct (existsb (level_eqb UNKNOWN) (inputs g)) eqn:U.
  - intros [= <-]. repeat split; try discriminate. now destruct (gate_type g).
  - intros H. split.
    { intros Hin. rewrite (existsb_unknown_In _ Hin) in U. discriminate U. }
    unfold bind, list_index in H.
    destruct (gate_type g);
      try (apply Ok_inj in H; subst l; split; [exact Logic.I || reflexivity|];
           intros Hz;
           repeat match type of Hz with
                  | (if ?c then _ else _) = _ => destruct c
                  end; discriminate Hz).
    + destruct (nth_error (inputs g) 0) as [i0|]; [|discriminate H].
      apply Ok_inj in H. subst l. split; [exact Logic.I|].
      intros Hz. destruct (level_eqb i0 LOW); discriminate Hz.
    + destruct (nth_error (inputs g) 0) as [i0|]; [|discriminate H].
      apply Ok_inj in H. subst l. split; [exact Logic.I|].
      intros ->. split; reflexivity.
Qed.

Lemma evaluate_answers_witness :
  let g := with_inputs (new_LogicGate "o" OR 2 delay) [HIGH; UNKNOWN] in
  (In UNKNOWN (inputs g) -> UNKNOWN = UNKNOWN) /\
  (match gate_type g with
   | AND | OR | NOT | NAND | NOR | XOR | XNOR | BUFFER => True
   | _ => UNKNOWN = UNKNOWN
   end) /\
  (UNKNOWN = HIGH_Z ->
   gate_type g = BUFFER /\ nth_error (inputs g) 0 = Some HIGH_Z).
Proof.
  exact (evaluate_answers
           (with_inputs (new_LogicGate "o" OR 2 delay) [HIGH; UNKNOWN])
           UNKNOWN eq_refl).
Defined.

Lemma list_assign_nth {A : Type} (l : list A) : forall i v l',
  list_assign l i v = Ok l' ->
  nth_error l' i = Some v /\
  forall j, j <> i -> nth_error l' j = nth_error l j.
Proof.
  induction l as [|a l IH]; intros i v l'; simpl.
  - destruct i; discriminate.
  - destruct i as [|i].
    + intros [= <-]. split; [reflexivity|].
      intros [|j] Hj; [congruence | reflexivity].
    + destruct (list_assign l i v) eqn:E; [|discriminate].
      intros [= <-]. destruct (IH _ _ _ E) as [Hv Ho].
      split; [exact Hv|]. intros [|j] Hj; [reflexivity|].
      simpl. apply Ho. congruence.
Qed.

(** X4: [set_input] on a gate as the constructor builds it never raises.
    With an index from 0 up to [num_inputs - 1] it writes that one input:
    reading the slot back gives the value, every other input, the output and
    the timestamp are as before.  With any other index (negative, or
    [num_inputs] and above) the gate is left exactly as it was. *)
Theorem set_input_writes_one_slot :
  forall (g : LogicGate) (i : Z) (v : LogicLevel),
    gate_ok g = true ->
    exists g',
      gate_set_input g i v = Ok g' /\
      gate_shape g' = gate_shape g /\
      output g' = output g /\
      last_update_time g' = last_update_time g /\
      ((0 <= i < num_inputs g)%Z ->
       nth_error (inputs g') (Z.to_nat i) = Some v /\
       forall j, j <> Z.to_nat i ->
                 nth_error (inputs g') j = nth_error (inputs g) j) /\
      (~ (0 <= i < num_inputs g)%Z -> g' = g).
Proof.
  intros g i v Hok. unfold gate_set_input.
  destruct ((0 <=? i)%Z && (i <? num_inputs g)%Z) eqn:Hi.
  - apply andb_true_iff in Hi. destruct Hi as [H0 H1].
    apply Z.leb_le in H0. apply Z.ltb_lt in H1.
    unfold gate_ok in Hok. apply andb_true_iff in Hok.
    destruct Hok as [Hlen _]. apply Nat.eqb_eq in Hlen.
    destruct (list_assign_ok (inputs g) (Z.to_nat i) v) as [ins Hins]; [lia|].
    rewrite Hins. run. eexists. split; [reflexivity|].
    unfold gate_shape. cbn [with_inputs gate_id gate_type num_inputs
      propagation_delay inputs output last_update_time].
    rewrite (list_assign_length _ _ _ _ Hins).
    split; [reflexivity|]. split; [reflexivity|]. split; [reflexivity|].
    split.
    + intros _. apply (list_assign_nth _ _ _ _ Hins).
    + intros Hn. lia.
  - exists g. split; [reflexivity|].
    split; [reflexivity|]. split; [reflexivity|]. split; [reflexivity|].
    split; [|reflexivity].
    intros Hr. apply andb_false_iff in Hi. destruct Hi as [Hi|Hi];
      [apply Z.leb_gt in Hi | apply Z.ltb_ge in Hi]; lia.
Qed.

Lemma set_input_writes_one_slot_witness :
  exists g',
    gate_set_input (new_LogicGate "a" AND 3 delay) 1 HIGH = Ok g' /\
    gate_shape g' = gate_shape (new_LogicGate "a" AND 3 delay) /\
    output g' = output (new_LogicGate "a" AND 3 delay) /\
    last_update_time g' = last_update_time (new_LogicGate "a" AND 3 delay) /\
    ((0 <= 1 < num_inputs (new_LogicGate "a" AND 3 delay))%Z ->
     nth_error (inputs g') (Z.to_nat 1) = Some HIGH /\
     forall j, j <> Z.to_nat 1 ->
               nth_error (inputs g') j =
               nth_error (inputs (new_LogicGate "a" AND 3 delay)) j) /\
    (~ (0 <= 1 < num_inputs (new_LogicGate "a" AND 3 delay))%Z ->
     g' = new_LogicGate "a" AND 3 delay).
Proof.
  exact (set_input_writes_one_slot (new_LogicGate "a" AND 3 delay) 1 HIGH eq_refl).
Defined.

Lemma evaluate_ignores_output g o t :
  evaluate (with_output g o t) = evaluate g.
Proof. reflexivity. Qed.

(** X5: [update] on a gate as the constructor builds it never raises, and
    leaves the gate settled: its output is what [evaluate] answers on its
    inputs, and a second [update], at whatever time, reports no change and
    alters nothing.  It reports a change exactly when the output differs
    from the one before, and only then moves the timestamp (to the time
    given); inputs, type and arity are never touched. *)
Theorem update_settles_gate :
  forall (g : LogicGate) (t t' : Q),
    gate_ok g = true ->
    exists g1 changed,
      gate_update g t = Ok (g1, changed) /\
      evaluate g1 = Ok (output g1) /\
      gate_update g1 t' = Ok (g1, false) /\
      gate_shape g1 = gate_shape g /\
      inputs g1 = inputs g /\
      (changed = true ->
       output g1 <> output g /\ last_update_time g1 = t) /\
      (changed = false -> g1 = g).
Proof.
  intros g t t' Hok. unfold gate_update.
  destruct (evaluate_ok g Hok) as [l Hl]. rewrite Hl. run.
  destruct (level_eqb l (output g)) eqn:E; cbn [negb].
  - apply level_eqb_eq in E. subst l.
    exists g, false. rewrite Hl. run.
    assert (R : level_eqb (output g) (output g) = true) by now apply level_eqb_eq.
    rewrite R. cbn [negb]. repeat split; try reflexivity; discriminate.
  - exists (with_output g l t), true.
    rewrite evaluate_ignores_output, Hl. run.
    cbn [with_output output last_update_time].
    assert (R : level_eqb l l = true) by now apply level_eqb_eq.
    rewrite R. cbn [negb]. repeat split; try reflexivity; try discriminate.
    intros Heq. subst l. rewrite R in E. discriminate E.
Qed.

Lemma update_settles_gate_witness :
  exists g1 changed,
    gate_update (with_inputs (new_LogicGate "n" NOT 1 delay) [LOW]) (1 # 2) =
      Ok (g1, changed) /\
    evaluate g1 = Ok (output g1) /\
    gate_update g1 7 = Ok (g1, false) /\
    gate_shape g1 = gate_shape (with_inputs (new_LogicGate "n" NOT 1 delay) [LOW]) /\
    inputs g1 = inputs (with_inputs (new_LogicGate "n" NOT 1 delay) [LOW]) /\
    (changed = true ->
     output g1 <> output (with_inputs (new_LogicGate "n" NOT 1 delay) [LOW]) /\
     last_update_time g1 = 1 # 2) /\
    (changed = false -> g1 = with_inputs (new_LogicGate "n" NOT 1 delay) [LOW]).
Proof.
  exact (update_settles_gate
           (with_inputs (new_LogicGate "n" NOT 1 delay) [LOW]) (1 # 2) 7 eq_refl).
Defined.

End GateFacts.

(* ================================================================== *)
(** ** Flip-flops: [set_d], [set_clock], [update] *)
(* ================================================================== *)

Module FlipFlopFacts.
Import Digital DigitalSpec GateSpec Circuits DigitalProofs.

Lemma level_eqb_refl l : level_eqb l l = true.
Proof. now destruct l. Qed.

(** X6: when a flip-flop captures.  After [set_d d] and [set_clock level],
    [update] leaves Q equal to [d] exactly when the trigger is "rising", the
    clock was LOW and the level set is HIGH, or the trigger is "falling", the
    clock was HIGH and the level set is LOW; in every other case, among them
    every trigger string other than these two, Q is what it was.  [update]
    reports a change exactly when Q differs afterwards. *)
Theorem flip_flop_captures_on_its_edge :
  forall (ff : FlipFlop) (d level : LogicLevel),
    let driven := set_clock (set_d ff d) level in
    let edge :=
      (String.eqb (edge_trigger ff) "rising" &&
       level_eqb (clock ff) LOW && level_eqb level HIGH) ||
      (String.eqb (edge_trigger ff) "falling" &&
       level_eqb (clock ff) HIGH && level_eqb level LOW) in
    q_output (fst (ff_update driven)) = (if edge then d else q_output ff) /\
    snd (ff_update driven) =
      negb (level_eqb (q_output (fst (ff_update driven))) (q_output ff)) /\
    d_input (fst (ff_update driven)) = d /\
    clock (fst (ff_update driven)) = level /\
    previous_clock (fst (ff_update driven)) = clock ff.
Proof.
  intros ff d level driven edge. subst driven edge.
  unfold ff_update, edge_detected.
  cbn [set_clock set_d edge_trigger previous_clock clock d_input q_output].
  destruct (String.eqb (edge_trigger ff) "rising") eqn:R.
  - apply String.eqb_eq in R. rewrite R.
    cbn [String.eqb Ascii.eqb Bool.eqb andb orb].
    destruct (level_eqb (clock ff) LOW && level_eqb level HIGH) eqn:E;
      cbn [orb].
    + destruct (level_eqb d (q_output ff)) eqn:Q; cbn [negb fst snd q_output
        set_clock set_d d_input clock previous_clock];
        rewrite ?level_eqb_refl, ?Q; repeat split.
      apply level_eqb_eq in Q. now symmetry.
    + cbn [fst snd set_clock set_d q_output d_input clock previous_clock].
      rewrite level_eqb_refl. repeat split.
  - cbn [andb orb].
    destruct (String.eqb (edge_trigger ff) "falling"); cbn [andb].
    + destruct (level_eqb (clock ff) HIGH && level_eqb level LOW) eqn:E.
      * destruct (level_eqb d (q_output ff)) eqn:Q; cbn [negb fst snd q_output
          set_clock set_d d_input clock previous_clock];
          rewrite ?level_eqb_refl, ?Q; repeat split.
        apply level_eqb_eq in Q. now symmetry.
      * cbn [fst snd set_clock set_d q_output d_input clock previous_clock].
        rewrite level_eqb_refl. repeat split.
    + cbn [fst snd set_clock set_d q_output d_input clock previous_clock].
      rewrite level_eqb_refl. repeat split.
Qed.

(** X7: [update] never clears the edge it acted on: clock and previous
    clock are left as they are, so until the next [set_clock] every further
    [update] sees the same edge and captures whatever D is by then; two
    [set_clock] calls with the same level leave no edge, whatever the state
    before. *)
Theorem flip_flop_edge_outlives_update :
  forall (ff : FlipFlop) (d level : LogicLevel),
    edge_detected (fst (ff_update ff)) = edge_detected ff /\
    (edge_detected ff = true ->
     q_output (fst (ff_update (set_d (fst (ff_update ff)) d))) = d) /\
    edge_detected (set_clock (set_clock ff level) level) = false.
Proof.
  intros ff d level. split; [|split].
  - unfold ff_update. destruct (edge_detected ff) eqn:E; [|exact E].
    destruct (negb (level_eqb (d_input ff) (q_output ff))); exact E.
  - intros E.
    assert (E1 : edge_detected (set_d (fst (ff_update ff)) d) = true).
    { unfold ff_update. rewrite E.
      destruct (negb (level_eqb (d_input ff) (q_output ff))); exact E. }
    unfold ff_update at 1. rewrite E1.
    cbn [set_d d_input q_output].
    destruct (level_eqb d (q_output (fst (ff_update ff)))) eqn:Q;
      cbn [negb fst q_output set_d]; [|reflexivity].
    apply level_eqb_eq in Q. now symmetry.
  - unfold edge_detected.
    cbn [set_clock edge_trigger previous_clock clock].
    destruct (String.eqb (edge_trigger ff) "rising");
      [destruct level; reflexivity|].
    destruct (String.eqb (edge_trigger ff) "falling");
      [destruct level; reflexivity | reflexivity].
Qed.

Lemma flip_flop_edge_outlives_update_witness :
  let ff := set_clock (new_FlipFlop "ff" "rising") HIGH in
  edge_detected (fst (ff_update ff)) = edge_detected ff /\
  q_output (fst (ff_update (set_d (fst (ff_update ff)) HIGH))) = HIGH /\
  edge_detected (set_clock (set_clock ff LOW) LOW) = false.
Proof.
  destruct (flip_flop_edge_outlives_update
              (set_clock (new_FlipFlop "ff" "rising") HIGH) HIGH LOW)
    as (A & B & C).
  split; [exact A|]. split; [exact (B eq_refl) | exact C].
Defined.

(** X8: Q-bar follows Q.  A new flip-flop has Q LOW and Q-bar HIGH, and
    [set_d], [set_clock] and [update] keep Q-bar equal to HIGH when Q is LOW
    and to LOW otherwise; so after capturing an UNKNOWN or HIGH-Z level D,
    Q-bar is LOW, not a complement. *)
Theorem q_bar_follows_q :
  forall (fid edge : string) (ff : FlipFlop) (v : LogicLevel),
    q_not_output (new_FlipFlop fid edge) = q_bar_of (q_output (new_FlipFlop fid edge)) /\
    (q_not_output ff = q_bar_of (q_output ff) ->
     q_not_output (set_d ff v) = q_bar_of (q_output (set_d ff v)) /\
     q_not_output (set_clock ff v) = q_bar_of (q_output (set_clock ff v)) /\
     q_not_output (fst (ff_update ff)) = q_bar_of (q_output (fst (ff_update ff)))).
Proof.
  intros fid edge ff v. split; [reflexivity|]. intros H.
  split; [exact H|]. split; [exact H|].
  unfold ff_update. destruct (edge_detected ff); [|exact H].
  destruct (negb (level_eqb (d_input ff) (q_output ff))); [reflexivity | exact H].
Qed.

End FlipFlopFacts.

(* ================================================================== *)
(** ** The simulator: building a circuit and propagating *)
(* ================================================================== *)

Module PropagateFacts.
Import Digital DigitalSpec GateSpec Circuits DigitalProofs.

Lemma sset_length {V : Type} (d : list (string * V)) k v :
  List.length (dict_set String.eqb d k v) =
  if dict_mem String.eqb d k then List.length d else S (List.length d).
Proof.
  unfold dict_mem.
  induction d as [|[k0 v0] d IH]; simpl; [reflexivity|].
  destruct (String.eqb k0 k); simpl; [reflexivity|].
  rewrite IH. destruct (dict_get String.eqb d k); reflexivity.
Qed.

Lemma new_gate_ok gid gt n d : (1 <= n)%Z -> gate_ok (new_LogicGate gid gt n d) = true.
Proof.
  intros Hn. unfold gate_ok, new_LogicGate. cbn [inputs num_inputs gate_type].
  rewrite repeat_length, Nat.eqb_refl. cbn [andb].
  destruct gt; try reflexivity; apply Nat.leb_le; lia.
Qed.

(** X9: [add_gate] is an insert by id.  Looking the id up afterwards gives a
    fresh gate (all inputs and the output UNKNOWN), every other id gives
    what it gave before, and the table grows by one entry only when the id
    was new: adding an id again replaces the gate and resets its state.
    Wires, flip-flops and inputs are untouched, and with an arity of at
    least 1 the table stays one on which propagation cannot raise. *)
Theorem add_gate_inserts :
  forall (s : DigitalCircuitSimulator) (gid : string) (gt : GateType)
         (n : Z) (d : Q),
    let s' := add_gate s gid gt n d in
    dict_get String.eqb (gates s') gid = Some (new_LogicGate gid gt n d) /\
    (forall k, k <> gid ->
       dict_get String.eqb (gates s') k = dict_get String.eqb (gates s) k) /\
    List.length (gates s') =
      (if dict_mem String.eqb (gates s) gid then List.length (gates s)
       else S (List.length (gates s))) /\
    wires s' = wires s /\ flip_flops s' = flip_flops s /\
    sim_inputs s' = sim_inputs s /\
    ((1 <= n)%Z -> gates_ok (gates s) -> gates_ok (gates s')).
Proof.
  intros s gid gt n d s'. subst s'. unfold add_gate.
  cbn [with_gates_wires gates wires flip_flops sim_inputs].
  split; [|split; [|split]].
  - rewrite sget_sset, String.eqb_refl. reflexivity.
  - intros k Hk. rewrite sget_sset.
    destruct (String.eqb_spec gid k); [congruence | reflexivity].
  - apply sset_length.
  - repeat split. intros Hn Hok. apply Forall_sset; [exact Hok|].
    now apply new_gate_ok.
Qed.

(** *** What propagation leaves alone *)

Lemma shapes_sset (d : list (string * LogicGate)) k g g0 :
  dict_get String.eqb d k = Some g0 -> gate_shape g = gate_shape g0 ->
  map (fun kg => (fst kg, gate_shape (snd kg))) (dict_set String.eqb d k g) =
  map (fun kg => (fst kg, gate_shape (snd kg))) d.
Proof.
  induction d as [|[k0 v0] d IH]; simpl; [discriminate|].
  destruct (String.eqb k0 k); simpl.
  - intros [= ->] ->. reflexivity.
  - intros H1 H2. f_equal. now apply IH.
Qed.

Lemma gate_set_input_shape g i v g' :
  gate_set_input g i v = Ok g' ->
  gate_shape g' = gate_shape g /\ output g' = output g.
Proof.
  unfold gate_set_input.
  destruct ((0 <=? i)%Z && (i <? num_inputs g)%Z).
  - intros H. bind_ok H. apply Ok_inj in H. subst g'.
    unfold gate_shape. cbn [with_inputs gate_id gate_type num_inputs
      propagation_delay inputs output].
    now rewrite (list_assign_length _ _ _ _ E).
  - intros H. apply Ok_inj in H. now subst g'.
Qed.

Lemma push_wire_frame gs w gs' w' :
  push_wire gs w = Ok (gs', w') ->
  map (fun kg => (fst kg, gate_shape (snd kg))) gs' =
  map (fun kg => (fst kg, gate_shape (snd kg))) gs /\
  wire_route w' = wire_route w.
Proof.
  unfold push_wire.
  destruct (dict_get String.eqb gs (from_gate w)) as [fg|];
    [|intros H; apply Ok_inj in H; injection H as <- <-; split; reflexivity].
  destruct (dict_get String.eqb gs (to_gate w)) as [tg|] eqn:Et;
    [|intros H; apply Ok_inj in H; injection H as <- <-; split; reflexivity].
  intros H. bind_ok H. apply Ok_inj in H. injection H as <- <-.
  split; [|reflexivity].
  eapply shapes_sset; [eassumption|].
  now apply gate_set_input_shape in E.
Qed.

Lemma push_wires_frame ws : forall gs gs' ws',
  push_wires gs ws = Ok (gs', ws') ->
  map (fun kg => (fst kg, gate_shape (snd kg))) gs' =
  map (fun kg => (fst kg, gate_shape (snd kg))) gs /\
  map wire_route ws' = map wire_route ws.
Proof.
  induction ws as [|w ws IH]; simpl; intros gs gs' ws' H.
  - apply Ok_inj in H. injection H as <- <-. split; reflexivity.
  - bind_ok H. destruct a as [gs1 w1]. bind_ok H. destruct a as [gs2 ws2].
    apply Ok_inj in H. injection H as <- <-.
    destruct (push_wire_frame _ _ _ _ E) as [A B].
    destruct (IH _ _ _ E0) as [C D].
    split; [congruence|]. simpl. congruence.
Qed.

Lemma gate_update_shape g t g' c :
  gate_update g t = Ok (g', c) ->
  gate_shape g' = gate_shape g /\ inputs g' = inputs g.
Proof.
  unfold gate_update. intros H. bind_ok H.
  destruct (negb (level_eqb a (output g))); apply Ok_inj in H;
    injection H as <- _; split; reflexivity.
Qed.

Lemma update_gates_frame t : forall gs gs' c,
  update_gates gs t = Ok (gs', c) ->
  map (fun kg => (fst kg, gate_shape (snd kg))) gs' =
  map (fun kg => (fst kg, gate_shape (snd kg))) gs.
Proof.
  induction gs as [|[k g] gs IH]; simpl; intros gs' c H.
  - apply Ok_inj in H. now injection H as <- _.
  - bind_ok H. destruct a as [g1 c1]. bind_ok H. destruct a as [gs2 c2].
    apply Ok_inj in H. injection H as <- _. simpl.
    rewrite (IH _ _ E0). apply gate_update_shape in E.
    destruct E as [-> _]. reflexivity.
Qed.

Lemma propagate_loop_frame t : forall fuel gs ws it gs' ws' it',
  propagate_loop fuel t gs ws it = Ok (gs', ws', it') ->
  map (fun kg => (fst kg, gate_shape (snd kg))) gs' =
  map (fun kg => (fst kg, gate_shape (snd kg))) gs /\
  map wire_route ws' = map wire_route ws.
Proof.
  induction fuel as [|fuel IH]; simpl; intros gs ws it gs' ws' it' H.
  - apply Ok_inj in H. injection H as <- <- _. split; reflexivity.
  - bind_ok H. destruct a as [gs1 ch]. bind_ok H. destruct a as [gs2 ws2].
    pose proof (update_gates_frame _ _ _ _ E) as A.
    destruct (push_wires_frame _ _ _ _ E0) as [B C].
    destruct ch.
    + destruct (IH _ _ _ _ _ _ H) as [D F]. split; congruence.
    + apply Ok_inj in H. injection H as <- <- _. split; congruence.
Qed.

(** The gate shapes and the clock time across one [propagate]. *)
Lemma propagate_shapes s p :
  propagate s = Ok p ->
  map (fun kg => (fst kg, gate_shape (snd kg))) (gates (sim_after p)) =
    map (fun kg => (fst kg, gate_shape (snd kg))) (gates s) /\
  current_time (sim_after p) = current_time s.
Proof.
  intros H. unfold propagate in H.
  bind_ok H. destruct a as [gs0 ws0]. bind_ok H. destruct a as [[gs1 ws1] it].
  apply Ok_inj in H. subst p.
  cbn [sim_after with_gates_wires gates current_time].
  destruct (push_wires_frame _ _ _ _ E) as [A _].
  destruct (propagate_loop_frame _ _ _ _ _ _ _ _ E0) as [C _].
  split; congruence.
Qed.

(** X10: what [propagate] never does.  It adds, removes or reorders no gate
    and no wire; no gate changes its id, type, arity, delay or number of
    inputs, no wire its id or its ends; flip-flops, the inputs and outputs
    dicts and the clock time are as before.  Only gate inputs, gate outputs,
    gate timestamps and wire signals can differ. *)
Theorem propagate_frame :
  forall (s : DigitalCircuitSimulator) (p : Propagated),
    propagate s = Ok p ->
    map (fun kg => (fst kg, gate_shape (snd kg))) (gates (sim_after p)) =
      map (fun kg => (fst kg, gate_shape (snd kg))) (gates s) /\
    map wire_route (wires (sim_after p)) = map wire_route (wires s) /\
    flip_flops (sim_after p) = flip_flops s /\
    sim_inputs (sim_after p) = sim_inputs s /\
    sim_outputs (sim_after p) = sim_outputs s /\
    current_time (sim_after p) = current_time s.
Proof.
  intros s p H. unfold propagate in H.
  bind_ok H. destruct a as [gs0 ws0]. bind_ok H. destruct a as [[gs1 ws1] it].
  apply Ok_inj in H. subst p.
  cbn [sim_after with_gates_wires gates wires flip_flops sim_inputs
       sim_outputs current_time].
  destruct (push_wires_frame _ _ _ _ E) as [A B].
  destruct (propagate_loop_frame _ _ _ _ _ _ _ _ E0) as [C D].
  repeat split; congruence.
Qed.

Lemma propagate_frame_witness :
  exists p,
    propagate and_buffered = Ok p /\
    map (fun kg => (fst kg, gate_shape (snd kg))) (gates (sim_after p)) =
      map (fun kg => (fst kg, gate_shape (snd kg))) (gates and_buffered) /\
    map wire_route (wires (sim_after p)) = map wire_route (wires and_buffered) /\
    flip_flops (sim_after p) = flip_flops and_buffered /\
    sim_inputs (sim_after p) = sim_inputs and_buffered /\
    sim_outputs (sim_after p) = sim_outputs and_buffered /\
    current_time (sim_after p) = current_time and_buffered.
Proof.
  destruct (propagate and_buffered) as [p|e] eqn:E; [|vm_compute in E; discriminate E].
  exists p. split; [reflexivity|].
  exact (propagate_frame and_buffered p E).
Defined.

(** *** A gate that no wire drives *)

Lemma push_wire_other gs w gs' w' k :
  push_wire gs w = Ok (gs', w') -> to_gate w <> k ->
  dict_get String.eqb gs' k = dict_get String.eqb gs k.
Proof.
  unfold push_wire.
  destruct (dict_get String.eqb gs (from_gate w)) as [fg|];
    [|intros H _; apply Ok_inj in H; now injection H as <- _].
  destruct (dict_get String.eqb gs (to_gate w)) as [tg|];
    [|intros H _; apply Ok_inj in H; now injection H as <- _].
  intros H Hk. bind_ok H. apply Ok_inj in H. injection H as <- _.
  rewrite sget_sset. destruct (String.eqb_spec (to_gate w) k); [contradiction|].
  reflexivity.
Qed.

Lemma push_wires_other ws : forall gs gs' ws' k,
  push_wires gs ws = Ok (gs', ws') -> ~ In k (map to_gate ws) ->
  dict_get String.eqb gs' k = dict_get String.eqb gs k.
Proof.
  induction ws as [|w ws IH]; simpl; intros gs gs' ws' k H Hk.
  - apply Ok_inj in H. now injection H as <- _.
  - bind_ok H. destruct a as [gs1 w1]. bind_ok H. destruct a as [gs2 ws2].
    apply Ok_inj in H. injection H as <- _.
    rewrite (IH _ _ _ k E0) by tauto.
    eapply push_wire_other; [eassumption | tauto].
Qed.

Lemma push_wires_targets ws : forall gs gs' ws',
  push_wires gs ws = Ok (gs', ws') -> map to_gate ws' = map to_gate ws.
Proof.
  intros gs gs' ws' H. apply push_wires_frame in H. destruct H as [_ H].
  apply (f_equal (map (fun r => snd (fst r)))) in H.
  rewrite !map_map in H. exact H.
Qed.

Lemma update_gates_get t : forall gs gs' c k g,
  update_gates gs t = Ok (gs', c) ->
  dict_get String.eqb gs k = Some g ->
  exists g1 c1, gate_update g t = Ok (g1, c1) /\
                dict_get String.eqb gs' k = Some g1.
Proof.
  induction gs as [|[k0 g0] gs IH]; simpl; intros gs' c k g H Hg;
    [discriminate Hg|].
  bind_ok H. destruct a as [g1 c1]. bind_ok H. destruct a as [gs2 c2].
  apply Ok_inj in H. injection H as <- _. simpl.
  destruct (String.eqb k0 k).
  - injection Hg as <-. eauto.
  - eapply IH; eassumption.
Qed.

Lemma gate_update_unknown g t g1 c :
  gate_update g t = Ok (g1, c) -> In UNKNOWN (inputs g) ->
  output g1 = UNKNOWN /\ inputs g1 = inputs g.
Proof.
  unfold gate_update, evaluate. intros H Hin.
  rewrite (GateFacts.existsb_unknown_In _ Hin) in H.
  cbv beta iota delta [bind] in H.
  destruct (level_eqb UNKNOWN (output g)) eqn:E; cbn [negb] in H;
    apply Ok_inj in H; injection H as <- _.
  - apply level_eqb_eq in E. now split.
  - split; reflexivity.
Qed.

Lemma propagate_loop_undriven t k ins : forall fuel gs ws it gs' ws' it' g,
  propagate_loop fuel t gs ws it = Ok (gs', ws', it') ->
  ~ In k (map to_gate ws) ->
  dict_get String.eqb gs k = Some g -> inputs g = ins -> In UNKNOWN ins ->
  (fuel = 0%nat -> output g = UNKNOWN) ->
  exists g', dict_get String.eqb gs' k = Some g' /\
             output g' = UNKNOWN /\ inputs g' = ins.
Proof.
  induction fuel as [|fuel IH]; simpl; intros gs ws it gs' ws' it' g H Hk Hg Hi Hu H0.
  - apply Ok_inj in H. injection H as <- _ _. exists g. auto.
  - bind_ok H. destruct a as [gs1 ch]. bind_ok H. destruct a as [gs2 ws2].
    destruct (update_gates_get _ _ _ _ _ _ E Hg) as (g1 & c1 & Hup & Hg1).
    rewrite <- Hi in Hu.
    destruct (gate_update_unknown _ _ _ _ Hup Hu) as [Ho Hin].
    pose proof (push_wires_other _ _ _ _ k E0 Hk) as Hg2. rewrite Hg1 in Hg2.
    destruct ch.
    + eapply IH; try eassumption.
      * now rewrite (push_wires_targets _ _ _ _ E0).
      * congruence.
      * congruence.
      * auto.
    + apply Ok_inj in H. injection H as <- _ _. exists g1.
      repeat split; congruence.
Qed.

(** X11: a level forced onto a gate does not survive.  For a gate that no
    wire leads to and that has an UNKNOWN input (every fresh gate with at
    least one input is one), each [propagate] that returns leaves its inputs
    as they were and its output UNKNOWN, whatever the output was set to
    before the call. *)
Theorem undriven_gate_ends_unknown :
  forall (s : DigitalCircuitSimulator) (p : Propagated) (k : string)
         (g : LogicGate),
    propagate s = Ok p ->
    dict_get String.eqb (gates s) k = Some g ->
    In UNKNOWN (inputs g) ->
    ~ In k (map to_gate (wires s)) ->
    exists g', dict_get String.eqb (gates (sim_after p)) k = Some g' /\
               output g' = UNKNOWN /\ inputs g' = inputs g.
Proof.
  intros s p k g H Hg Hu Hk. unfold propagate in H.
  bind_ok H. destruct a as [gs0 ws0]. bind_ok H. destruct a as [[gs1 ws1] it].
  apply Ok_inj in H. subst p. cbn [sim_after with_gates_wires gates].
  eapply (propagate_loop_undriven _ k (inputs g)); try eassumption.
  - now rewrite (push_wires_targets _ _ _ _ E).
  - rewrite (push_wires_other _ _ _ _ k E Hk). exact Hg.
  - reflexivity.
  - unfold max_iterations. discriminate.
Qed.

Lemma undriven_gate_ends_unknown_witness :
  exists p g',
    propagate (with_gates_wires and_buffered
                 (force_output (gates and_buffered) "a" HIGH)
                 (wires and_buffered)) = Ok p /\
    dict_get String.eqb (gates (sim_after p)) "a" = Some g' /\
    output g' = UNKNOWN /\ inputs g' = [UNKNOWN].
Proof.
  destruct (propagate (with_gates_wires and_buffered
                         (force_output (gates and_buffered) "a" HIGH)
                         (wires and_buffered))) as [p|e] eqn:E;
    [|vm_compute in E; discriminate E].
  destruct (undriven_gate_ends_unknown _ p "a"
              {| gate_id := "a"; gate_type := BUFFER; num_inputs := 1;
                 inputs := [UNKNOWN]; output := HIGH;
                 propagation_delay := delay; last_update_time := 0 |} E)
    as (g' & A & B & C).
  - reflexivity.
  - now left.
  - vm_compute. intros [H|[H|[]]]; discriminate H.
  - exists p, g'. repeat split; assumption.
Defined.

(** *** A gate whose arity is not positive *)

Lemma update_gates_raises_on t k g : forall gs,
  dict_get String.eqb gs k = Some g ->
  evaluate g = Raise IndexError ->
  update_gates gs t = Raise IndexError.
Proof.
  induction gs as [|[k0 g0] gs IH]; simpl; intros Hg He; [discriminate Hg|].
  destruct (String.eqb k0 k).
  - injection Hg as ->. unfold gate_update, bind. now rewrite He.
  - destruct (gate_update g0 t) as [[g1 c1]|e] eqn:E.
    + run. rewrite (IH Hg He). reflexivity.
    + run. f_equal. now apply (gate_update_raises g0 t).
Qed.

Lemma set_input_no_arity g i v :
  (num_inputs g <= 0)%Z -> gate_set_input g i v = Ok g.
Proof.
  intros H. unfold gate_set_input.
  destruct ((0 <=? i)%Z && (i <? num_inputs g)%Z) eqn:E; [|reflexivity].
  apply andb_true_iff in E. destruct E as [A B].
  apply Z.leb_le in A. apply Z.ltb_lt in B. lia.
Qed.

Lemma push_wire_keeps_no_arity gs w gs' w' k g :
  push_wire gs w = Ok (gs', w') ->
  dict_get String.eqb gs k = Some g -> (num_inputs g <= 0)%Z ->
  dict_get String.eqb gs' k = Some g.
Proof.
  unfold push_wire. intros H Hg Hn.
  destruct (dict_get String.eqb gs (from_gate w)) as [fg|];
    [|apply Ok_inj in H; injection H as <- _; exact Hg].
  destruct (dict_get String.eqb gs (to_gate w)) as [tg|] eqn:Et;
    [|apply Ok_inj in H; injection H as <- _; exact Hg].
  bind_ok H. apply Ok_inj in H. injection H as <- _.
  rewrite sget_sset. destruct (String.eqb_spec (to_gate w) k) as [Heq|]; [|exact Hg].
  subst k. rewrite Hg in Et. injection Et as <-.
  rewrite (set_input_no_arity _ _ _ Hn) in E. apply Ok_inj in E. now subst a.
Qed.

Lemma push_wires_keeps_no_arity ws : forall gs gs' ws' k g,
  push_wires gs ws = Ok (gs', ws') ->
  dict_get String.eqb gs k = Some g -> (num_inputs g <= 0)%Z ->
  dict_get String.eqb gs' k = Some g.
Proof.
  induction ws as [|w ws IH]; simpl; intros gs gs' ws' k g H Hg Hn.
  - apply Ok_inj in H. injection H as <- _. exact Hg.
  - bind_ok H. destruct a as [gs1 w1]. bind_ok H. destruct a as [gs2 ws2].
    apply Ok_inj in H. injection H as <- _.
    eapply IH; [eassumption| |exact Hn].
    eapply push_wire_keeps_no_arity; eassumption.
Qed.

(** X12: an arity that is not positive.  After [add_gate] of a NOT or BUFFER
    gate with [num_inputs] zero or negative the gate has no input to read,
    and every [propagate] raises IndexError, whatever else the circuit
    holds; nothing in the simulator rejects such an arity. *)
Theorem inputless_inverter_breaks_propagate :
  forall (s : DigitalCircuitSimulator) (gid : string) (gt : GateType)
         (n : Z) (d : Q),
    (n <= 0)%Z -> gt = NOT \/ gt = BUFFER ->
    propagate (add_gate s gid gt n d) = Raise IndexError.
Proof.
  intros s gid gt n d Hn Hgt.
  pose proof (propagate_raises (add_gate s gid gt n d)) as Hr.
  destruct (propagate (add_gate s gid gt n d)) as [p|e] eqn:E;
    [|f_equal; now apply Hr].
  exfalso. unfold propagate in E.
  bind_ok E. destruct a as [gs0 ws0]. bind_ok E. destruct a as [[gs1 ws1] it].
  assert (Hg : dict_get String.eqb (gates (add_gate s gid gt n d)) gid =
               Some (new_LogicGate gid gt n d)).
  { unfold add_gate. cbn [with_gates_wires gates].
    rewrite sget_sset, String.eqb_refl. reflexivity. }
  pose proof (push_wires_keeps_no_arity _ _ _ _ _ _ E0 Hg Hn) as Hg0.
  unfold max_iterations in E1. cbn [propagate_loop] in E1.
  rewrite (update_gates_raises_on _ gid (new_LogicGate gid gt n d)) in E1;
    [discriminate E1 | exact Hg0 |].
  unfold evaluate, new_LogicGate. cbn [inputs gate_type].
  replace (Z.to_nat n) with 0%nat by lia.
  destruct Hgt as [-> | ->]; reflexivity.
Qed.

Lemma inputless_inverter_breaks_propagate_witness :
  propagate (add_gate and_buffered "inv" NOT 0 delay) = Raise IndexError.
Proof.
  apply (inputless_inverter_breaks_propagate and_buffered "inv" NOT 0 delay).
  - vm_compute. discriminate.
  - now left.
Defined.

End PropagateFacts.

(* ================================================================== *)
(** ** The drivers: clock cycles, truth tables, sampling *)
(* ================================================================== *)

Module DriverFacts.
Import Digital DigitalSpec GateSpec Circuits DigitalProofs PropagateFacts.

Lemma half_cycle_ok s clock_signal level c e :
  gates_ok (gates s) ->
  exists s1 sn out,
    half_cycle s clock_signal level c e = Ok (s1, sn, out) /\
    gates_ok (gates s1) /\ cycle sn = c /\ edge sn = e /\
    dict_get String.eqb (sim_inputs s1) clock_signal = Some level /\
    (List.length out <= 1)%nat.
Proof.
  intros Hok. unfold half_cycle.
  destruct (propagate_ok (set_input s clock_signal level)) as (p & Hp & Hokp);
    [exact Hok|].
  rewrite Hp. run. eexists _, _, _. split; [reflexivity|].
  apply propagate_passes in Hp. destruct Hp as (_ & Hpr & _ & Hin).
  cbn [with_flip_flops gates sim_inputs snapshot cycle edge].
  repeat split; try assumption.
  - rewrite Hin. cbn [set_input sim_inputs].
    rewrite sget_sset, String.eqb_refl. reflexivity.
  - rewrite Hpr. destruct (passes p =? max_iterations)%nat; simpl; lia.
Qed.

Lemma clock_cycles_shape clock_signal : forall n c s,
  gates_ok (gates s) ->
  exists s' snaps out,
    clock_cycles n c s clock_signal = Ok (s', snaps, out) /\
    map (fun sn => (cycle sn, edge sn)) snaps = cycle_labels n c /\
    gates_ok (gates s') /\
    ((0 < n)%nat -> dict_get String.eqb (sim_inputs s') clock_signal = Some LOW) /\
    (n = 0%nat -> s' = s) /\
    (List.length out <= 2 * n)%nat.
Proof.
  induction n as [|n IH]; intros c s Hok; cbn [clock_cycles cycle_labels].
  - exists s, [], []. repeat split; try assumption; try lia. simpl. lia.
  - destruct (half_cycle_ok s clock_signal HIGH c "rising" Hok)
      as (s1 & r & o1 & -> & Hok1 & Hc1 & He1 & _ & Hl1). run.
    destruct (half_cycle_ok s1 clock_signal LOW c "falling" Hok1)
      as (s2 & f & o2 & -> & Hok2 & Hc2 & He2 & Hin2 & Hl2). run.
    destruct (IH (c + 1)%Z s2 Hok2)
      as (s3 & rest & o3 & -> & Hlab & Hok3 & Hlow & Hz & Hl3). run.
    eexists _, _, _. split; [reflexivity|].
    cbn [map]. rewrite Hc1, He1, Hc2, He2, Hlab.
    repeat split; try assumption; try lia.
    + intros _. destruct n as [|n']; [|apply Hlow; lia].
      rewrite (Hz eq_refl). exact Hin2.
    + rewrite !length_app. lia.
Qed.

Lemma cycle_labels_length n : forall c,
  List.length (cycle_labels n c) = (2 * n)%nat.
Proof.
  induction n as [|n IH]; intros c; simpl; [reflexivity|].
  rewrite IH. lia.
Qed.

(** X13: the shape of a clock run.  On gates as the constructor builds them
    [simulate_clock_cycle] always returns: two snapshots per cycle, labelled
    (0, rising), (0, falling), (1, rising), ... in this order, and at most
    one warning line per half-cycle.  A number of cycles of zero or below
    returns no snapshot and leaves the simulator untouched; after at least
    one cycle the clock name is left LOW in the inputs dict. *)
Theorem clock_run_shape :
  forall (s : DigitalCircuitSimulator) (clock_signal : string) (num_cycles : Z),
    gates_ok (gates s) ->
    exists s' snaps out,
      simulate_clock_cycle s clock_signal num_cycles = Ok (s', snaps, out) /\
      map (fun sn => (cycle sn, edge sn)) snaps =
        cycle_labels (Z.to_nat num_cycles) 0 /\
      List.length snaps = (2 * Z.to_nat num_cycles)%nat /\
      (List.length out <= 2 * Z.to_nat num_cycles)%nat /\
      ((1 <= num_cycles)%Z ->
       dict_get String.eqb (sim_inputs s') clock_signal = Some LOW) /\
      ((num_cycles <= 0)%Z -> s' = s /\ snaps = []).
Proof.
  intros s clock_signal num_cycles Hok. unfold simulate_clock_cycle.
  destruct (clock_cycles_shape clock_signal (Z.to_nat num_cycles) 0%Z s Hok)
    as (s' & snaps & out & H & Hlab & _ & Hlow & Hz & Hl).
  exists s', snaps, out. split; [exact H|]. split; [exact Hlab|].
  split.
  { rewrite <- (length_map (fun sn => (cycle sn, edge sn))), Hlab.
    apply cycle_labels_length. }
  split; [exact Hl|]. split.
  - intros Hn. apply Hlow. lia.
  - intros Hn. assert (Z0 : Z.to_nat num_cycles = 0%nat) by lia.
    split; [now apply Hz|].
    rewrite Z0 in Hlab. destruct snaps; [reflexivity | discriminate Hlab].
Qed.

Lemma clock_run_shape_witness :
  exists s' snaps out,
    simulate_clock_cycle (self_loop_low NOT) "clk" 3 = Ok (s', snaps, out) /\
    map (fun sn => (cycle sn, edge sn)) snaps = cycle_labels (Z.to_nat 3) 0 /\
    List.length snaps = (2 * Z.to_nat 3)%nat /\
    (List.length out <= 2 * Z.to_nat 3)%nat /\
    ((1 <= 3)%Z -> dict_get String.eqb (sim_inputs s') "clk" = Some LOW) /\
    ((3 <= 0)%Z -> s' = self_loop_low NOT /\ snaps = []).
Proof.
  apply (clock_run_shape (self_loop_low NOT) "clk" 3).
  repeat constructor.
Defined.

(** X14: the clock driver moves no flip-flop that is idle.  When no
    flip-flop of the table sees an edge (true of every flip-flop as
    [add_flip_flop] and [set_d] leave it, since only [set_clock] moves the
    clock and the simulator never calls it), a run of any number of cycles
    ends with the flip-flop table as it was, and every snapshot shows the Q
    values of the start. *)
Theorem clock_run_keeps_idle_flip_flops :
  forall (s s' : DigitalCircuitSimulator) (clock_signal : string)
         (num_cycles : Z) (snaps : list Snapshot) (out : list string),
    simulate_clock_cycle s clock_signal num_cycles = Ok (s', snaps, out) ->
    Forall (fun kf => idle (snd kf) = true) (flip_flops s) ->
    flip_flops s' = flip_flops s /\
    Forall (fun sn => snap_flip_flops sn = q_values (flip_flops s)) snaps.
Proof.
  intros s s' clock_signal num_cycles snaps out H Hidle.
  unfold simulate_clock_cycle in H.
  exact (clock_cycles_idle clock_signal _ _ _ _ _ _ H Hidle).
Qed.

Lemma clock_run_keeps_idle_flip_flops_witness :
  exists s' snaps out,
    simulate_clock_cycle gate_to_ff "clk" 2 = Ok (s', snaps, out) /\
    flip_flops s' = flip_flops gate_to_ff /\
    Forall (fun sn => snap_flip_flops sn = q_values (flip_flops gate_to_ff)) snaps.
Proof.
  destruct (simulate_clock_cycle gate_to_ff "clk" 2) as [[[s' snaps] out]|e] eqn:E;
    [|vm_compute in E; discriminate E].
  exists s', snaps, out. split; [reflexivity|].
  apply (clock_run_keeps_idle_flip_flops gate_to_ff s' "clk" 2 snaps out E).
  repeat constructor.
Defined.

(** *** Truth-table rows *)

Lemma smem_keys {V W : Type} (d : list (string * V)) (d' : list (string * W)) k :
  map fst d = map fst d' ->
  dict_mem String.eqb d k = dict_mem String.eqb d' k.
Proof.
  intros K. unfold dict_mem.
  destruct (dict_get String.eqb d k) eqn:E, (dict_get String.eqb d' k) eqn:E';
    try reflexivity.
  - rewrite (sget_none_keys _ _ _ (eq_sym K) E') in E. discriminate E.
  - rewrite (sget_none_keys _ _ _ K E) in E'. discriminate E'.
Qed.

Lemma propagate_keys s p :
  propagate s = Ok p -> map fst (gates (sim_after p)) = map fst (gates s).
Proof.
  intros H. apply propagate_shapes in H. destruct H as [H _].
  apply (f_equal (map fst)) in H. rewrite !map_map in H. exact H.
Qed.

Lemma force_output_keys gs gid v :
  map fst (force_output gs gid v) = map fst gs.
Proof.
  unfold force_output.
  destruct (dict_get String.eqb gs gid) eqn:E; [|reflexivity].
  eapply keys_sset_present. eassumption.
Qed.

Lemma set_combination_keys i : forall names s j acc,
  map fst (gates (fst (set_combination s i j names acc))) = map fst (gates s).
Proof.
  induction names as [|n names IH]; intros s j acc; cbn [set_combination];
    [reflexivity|].
  rewrite IH. cbn [with_gates_wires gates set_input].
  apply force_output_keys.
Qed.

Lemma read_outputs_keys gs : forall names acc k,
  dict_mem String.eqb (read_outputs gs names acc) k = true <->
  dict_mem String.eqb acc k = true \/
  (In k names /\ dict_mem String.eqb gs k = true).
Proof.
  induction names as [|n names IH]; intros acc k; cbn [read_outputs].
  - simpl. tauto.
  - destruct (dict_get String.eqb gs n) as [g|] eqn:E.
    + rewrite IH. unfold dict_mem at 1. rewrite sget_sset.
      destruct (String.eqb_spec n k) as [->|Hn].
      * unfold dict_mem at 3. rewrite E. simpl. tauto.
      * fold (dict_mem String.eqb acc k). simpl. intuition congruence.
    + rewrite IH. simpl. split; [tauto|].
      intros [H|[[->|H] Hm]]; [tauto| |tauto].
      unfold dict_mem in Hm. rewrite E in Hm. discriminate Hm.
Qed.

Lemma truth_rows_outputs input_names output_names : forall n i s s' rows out,
  truth_rows n i s input_names output_names = Ok (s', rows, out) ->
  forall r k, In r rows ->
    (dict_mem String.eqb (row_outputs r) k = true <->
     In k output_names /\ dict_mem String.eqb (gates s) k = true).
Proof.
  induction n as [|n IH]; intros i s s' rows out H r k Hr; cbn [truth_rows] in H.
  - apply Ok_inj in H. injection H as _ <- _. destruct Hr.
  - pose proof (set_combination_keys i input_names s 0 []) as K1.
    destruct (set_combination s i 0 input_names []) as [s1 input_values].
    cbn [fst] in K1.
    bind_ok H. bind_ok H. destruct a0 as [[s2 rest] o].
    apply Ok_inj in H. injection H as _ <- _.
    pose proof (propagate_keys _ _ E) as K2.
    destruct Hr as [<-|Hr].
    + cbn [row_outputs]. rewrite read_outputs_keys.
      rewrite (smem_keys (gates (sim_after a)) (gates s) k) by congruence.
      simpl. intuition discriminate.
    + rewrite (IH _ _ _ _ _ E0 r k Hr).
      rewrite (smem_keys (gates (sim_after a)) (gates s) k) by congruence.
      reflexivity.
Qed.

(** X15: the shape of a truth table.  For pairwise distinct input names, on
    gates as the constructor builds them, [get_truth_table] always returns:
    exactly [2 ^ n] rows; row [k] gives each input [j] binary digit [j] of
    [k] (so the rows come in increasing binary order); and each row reports
    an output for exactly those output names that are gate ids, the others
    being left out without notice. *)
Theorem truth_table_shape :
  forall (s : DigitalCircuitSimulator) (input_names output_names : list string),
    gates_ok (gates s) -> NoDup input_names ->
    exists s' rows out,
      get_truth_table s input_names output_names = Ok (s', rows, out) /\
      List.length rows = (2 ^ List.length input_names)%nat /\
      (forall k r, nth_error rows k = Some r ->
         row_inputs r = binary_row (Z.of_nat k) input_names /\
         forall name,
           dict_mem String.eqb (row_outputs r) name = true <->
           In name output_names /\ dict_mem String.eqb (gates s) name = true).
Proof.
  intros s input_names output_names Hok Hnd.
  destruct (get_truth_table_counts s input_names output_names Hok Hnd)
    as (s' & rows & out & H & Hlen & Hrows).
  exists s', rows, out. split; [exact H|]. split; [exact Hlen|].
  intros k r Hk. split; [now apply Hrows|].
  intros name. unfold get_truth_table in H.
  eapply truth_rows_outputs; [exact H|].
  eapply nth_error_In. exact Hk.
Qed.

Lemma truth_table_shape_witness :
  exists s' rows out,
    get_truth_table and_buffered ["a"; "b"] ["and1"; "nowhere"] =
      Ok (s', rows, out) /\
    List.length rows = (2 ^ List.length ["a"; "b"])%nat /\
    (forall k r, nth_error rows k = Some r ->
       row_inputs r = binary_row (Z.of_nat k) ["a"; "b"] /\
       forall name,
         dict_mem String.eqb (row_outputs r) name = true <->
         In name ["and1"; "nowhere"] /\
         dict_mem String.eqb (gates and_buffered) name = true).
Proof.
  apply (truth_table_shape and_buffered ["a"; "b"] ["and1"; "nowhere"]).
  - repeat constructor.
  - repeat constructor; simpl; intuition discriminate.
Defined.

(** *** The sampling loop *)

Lemma simulate_loop_runs_on duration time_step :
  (time_step <= 0)%Q ->
  forall fuel s results out,
    gates_ok (gates s) -> (current_time s <= duration)%Q ->
    simulate_loop fuel s duration time_step results out = None.
Proof.
  intros Hstep. induction fuel as [|fuel IH]; intros s results out Hok Ht;
    cbn [simulate_loop]; [reflexivity|].
  assert (Hle : Qle_bool (current_time s) duration = true)
    by now apply Qle_bool_iff.
  rewrite Hle.
  destruct (propagate_ok s Hok) as (p & Hp & Hokp). rewrite Hp.
  apply IH.
  - exact Hokp.
  - cbn [with_current_time current_time].
    apply propagate_shapes in Hp.
    destruct Hp as [_ Hct]. rewrite Hct. lra.
Qed.

(** X16: the sampling loop needs a positive step.  With a time step of zero
    or below and a duration of zero or above, [simulate] never returns: on
    gates as the constructor builds them its loop is still running after any
    number of turns, each adding a sample to the results.  With a negative
    duration it returns at once, with success and no sample, whatever the
    step. *)
Theorem sampling_needs_positive_step :
  forall (s : DigitalCircuitSimulator) (duration time_step : Q),
    gates_ok (gates s) -> (time_step <= 0)%Q ->
    ((0 <= duration)%Q ->
     forall fuel, simulate fuel s duration time_step = None) /\
    ((duration < 0)%Q ->
     forall fuel,
       simulate (S fuel) s duration time_step =
       Some (Ok (with_current_time s 0,
                 {| sim_success := true;
                    simulation_type := "digital_logic";
                    sim_duration := duration;
                    sim_time_step := time_step;
                    samples := 0;
                    sim_results := [] |},
                 []))).
Proof.
  intros s duration time_step Hok Hstep. split.
  - intros Hd fuel. unfold simulate.
    rewrite (simulate_loop_runs_on duration time_step Hstep); [reflexivity | |].
    + exact Hok.
    + exact Hd.
  - intros Hd fuel. unfold simulate. cbn [simulate_loop with_current_time current_time].
    assert (Hle : Qle_bool 0 duration = false).
    { destruct (Qle_bool 0 duration) eqn:E; [|reflexivity].
      apply Qle_bool_iff in E. lra. }
    rewrite Hle. reflexivity.
Qed.

Lemma sampling_needs_positive_step_witness :
  (forall fuel, simulate fuel and_buffered (1 # 1000) 0 = None) /\
  ((1 # 1000 < 0)%Q ->
   forall fuel,
     simulate (S fuel) and_buffered (1 # 1000) 0 =
     Some (Ok (with_current_time and_buffered 0,
               {| sim_success := true;
                  simulation_type := "digital_logic";
                  sim_duration := 1 # 1000;
                  sim_time_step := 0;
                  samples := 0;
                  sim_results := [] |},
               []))).
Proof.
  destruct (sampling_needs_positive_step and_buffered (1 # 1000) 0) as [A B].
  - repeat constructor.
  - vm_compute. discriminate.
  - split; [|exact B]. apply A. vm_compute. discriminate.
Defined.

End DriverFacts.

(* ================================================================== *)
(** ** Propagation reaches a fixed point *)
(* ================================================================== *)

Module FixedPoint.
Import Digital DigitalSpec GateSpec PushSpec Circuits DigitalProofs PropagateFacts.

(** *** Replacing list positions and dict entries *)

Lemma set_nth_length {A : Type} (l : list A) : forall i v,
  List.length (set_nth l i v) = List.length l.
Proof.
  induction l as [|a l IH]; intros [|i] v; simpl; try reflexivity.
  now rewrite IH.
Qed.

Lemma set_nth_twice {A : Type} (l : list A) : forall i a b,
  set_nth (set_nth l i a) i b = set_nth l i b.
Proof.
  induction l as [|x l IH]; intros [|i] a b; simpl; try reflexivity.
  now rewrite IH.
Qed.

Lemma set_nth_swap {A : Type} (l : list A) : forall i j a b,
  i <> j -> set_nth (set_nth l i a) j b = set_nth (set_nth l j b) i a.
Proof.
  induction l as [|x l IH]; intros [|i] [|j] a b H; simpl; try reflexivity.
  - congruence.
  - rewrite IH by congruence. reflexivity.
Qed.

Lemma list_assign_set_nth {A : Type} (l : list A) : forall i v,
  (i < List.length l)%nat -> list_assign l i v = Ok (set_nth l i v).
Proof.
  induction l as [|a l IH]; intros [|i] v H; simpl in *; try lia.
  - reflexivity.
  - rewrite IH by lia. reflexivity.
Qed.

Lemma sset_same {V : Type} (d : list (string * V)) k v :
  dict_get String.eqb d k = Some v -> dict_set String.eqb d k v = d.
Proof.
  induction d as [|[k0 v0] d IH]; simpl; [discriminate|].
  destruct (String.eqb_spec k0 k) as [->|Hk].
  - now intros [= ->].
  - intros H. now rewrite IH.
Qed.

Lemma sset_twice {V : Type} (d : list (string * V)) k a b :
  dict_set String.eqb (dict_set String.eqb d k a) k b = dict_set String.eqb d k b.
Proof.
  induction d as [|[k0 v0] d IH]; simpl.
  - now rewrite String.eqb_refl.
  - destruct (String.eqb k0 k) eqn:E; simpl; rewrite E; [reflexivity|].
    now rewrite IH.
Qed.

Lemma sset_swap {V : Type} (d : list (string * V)) k1 k2 a b a0 b0 :
  k1 <> k2 ->
  dict_get String.eqb d k1 = Some a0 -> dict_get String.eqb d k2 = Some b0 ->
  dict_set String.eqb (dict_set String.eqb d k1 a) k2 b =
  dict_set String.eqb (dict_set String.eqb d k2 b) k1 a.
Proof.
  intros Hne. induction d as [|[k0 v0] d IH]; simpl; [discriminate|].
  destruct (String.eqb_spec k0 k1) as [E1|N1];
    destruct (String.eqb_spec k0 k2) as [E2|N2]; simpl.
  - congruence.
  - intros _ _. destruct (String.eqb_spec k0 k2); [contradiction|].
    destruct (String.eqb_spec k0 k1); [reflexivity | contradiction].
  - intros _ _. destruct (String.eqb_spec k0 k1); [contradiction|].
    destruct (String.eqb_spec k0 k2); [reflexivity | contradiction].
  - intros Ha Hb.
    destruct (String.eqb_spec k0 k1); [contradiction|].
    destruct (String.eqb_spec k0 k2); [contradiction|].
    now rewrite IH.
Qed.

(** *** Writes on input slots *)

Lemma write_twice gs k i a b :
  write_input (write_input gs k i a) k i b = write_input gs k i b.
Proof.
  unfold write_input.
  destruct (dict_get String.eqb gs k) as [g|] eqn:E; [|now rewrite E].
  rewrite sget_sset, String.eqb_refl. cbn [with_inputs inputs].
  rewrite sset_twice, set_nth_twice. reflexivity.
Qed.

Lemma write_swap gs k1 i1 a k2 i2 b :
  (k1, i1) <> (k2, i2) ->
  write_input (write_input gs k1 i1 a) k2 i2 b =
  write_input (write_input gs k2 i2 b) k1 i1 a.
Proof.
  intros Hne. unfold write_input.
  destruct (String.eqb_spec k1 k2) as [->|Hk].
  - assert (Hi : i1 <> i2) by congruence.
    destruct (dict_get String.eqb gs k2) as [g|] eqn:E; [|now rewrite E].
    rewrite !sget_sset, String.eqb_refl. cbn [with_inputs inputs].
    rewrite !sset_twice, (set_nth_swap _ _ _ _ _ Hi). reflexivity.
  - destruct (dict_get String.eqb gs k1) as [g1|] eqn:E1;
      destruct (dict_get String.eqb gs k2) as [g2|] eqn:E2;
      rewrite ?sget_sset, ?E1, ?E2;
      try (destruct (String.eqb_spec k1 k2); [congruence|]);
      try (destruct (String.eqb_spec k2 k1); [congruence|]);
      rewrite ?E1, ?E2; try reflexivity.
    eapply sset_swap; eassumption.
Qed.

Lemma fold_absorbs_write W : forall gs k i v,
  (exists v', In (Some (k, i, v')) W) ->
  fold_left apply_write W (write_input gs k i v) = fold_left apply_write W gs.
Proof.
  induction W as [|y W IH]; intros gs k i v [v' Hin]; [destruct Hin|].
  cbn [fold_left]. destruct y as [[[k' i'] v'']|]; cbn [apply_write].
  - destruct (string_dec k k') as [->|Hk].
    + destruct (Nat.eq_dec i i') as [->|Hi].
      * now rewrite write_twice.
      * rewrite write_swap by congruence. apply IH.
        destruct Hin as [Hin|Hin]; [congruence | eauto].
    + rewrite write_swap by congruence. apply IH.
      destruct Hin as [Hin|Hin]; [congruence | eauto].
  - apply IH. destruct Hin as [Hin|Hin]; [discriminate | eauto].
Qed.

Lemma fold_absorbs_writes W : forall P gs,
  (forall k i v, In (Some (k, i, v)) P -> exists v', In (Some (k, i, v')) W) ->
  fold_left apply_write W (fold_left apply_write P gs) =
  fold_left apply_write W gs.
Proof.
  induction P as [|x P IH]; intros gs H; [reflexivity|].
  cbn [fold_left]. rewrite IH by (intros; eapply H; right; eassumption).
  destruct x as [[[k i] v]|]; cbn [apply_write]; [|reflexivity].
  apply fold_absorbs_write. eapply H. left. reflexivity.
Qed.

Lemma fold_writes_twice W gs :
  fold_left apply_write W (fold_left apply_write W gs) =
  fold_left apply_write W gs.
Proof. apply fold_absorbs_writes. eauto. Qed.

(** *** The wire loop as a list of writes *)

Lemma view_get gs1 : forall gs2 k,
  gate_view gs1 = gate_view gs2 ->
  match dict_get String.eqb gs1 k, dict_get String.eqb gs2 k with
  | Some g1, Some g2 => num_inputs g1 = num_inputs g2 /\ output g1 = output g2
  | None, None => True
  | _, _ => False
  end.
Proof.
  induction gs1 as [|[k1 g1] gs1 IH]; intros [|[k2 g2] gs2] k H;
    simpl in *; try discriminate; [exact Logic.I|].
  injection H as -> Hn Ho Hrest.
  destruct (String.eqb k2 k); [split; assumption|].
  now apply IH.
Qed.

Lemma wire_write_view gs1 gs2 w :
  gate_view gs1 = gate_view gs2 -> wire_write gs1 w = wire_write gs2 w.
Proof.
  intros H. unfold wire_write.
  pose proof (view_get gs1 gs2 (from_gate w) H) as Hf.
  pose proof (view_get gs1 gs2 (to_gate w) H) as Ht.
  destruct (dict_get String.eqb gs1 (from_gate w)),
           (dict_get String.eqb gs2 (from_gate w)); try contradiction;
    [|reflexivity].
  destruct (dict_get String.eqb gs1 (to_gate w)),
           (dict_get String.eqb gs2 (to_gate w)); try contradiction;
    [|reflexivity].
  destruct Hf as [_ ->]. destruct Ht as [-> _]. reflexivity.
Qed.

Lemma wire_pushed_view gs1 gs2 w :
  gate_view gs1 = gate_view gs2 -> wire_pushed gs1 w = wire_pushed gs2 w.
Proof.
  intros H. unfold wire_pushed.
  pose proof (view_get gs1 gs2 (from_gate w) H) as Hf.
  pose proof (view_get gs1 gs2 (to_gate w) H) as Ht.
  destruct (dict_get String.eqb gs1 (from_gate w)),
           (dict_get String.eqb gs2 (from_gate w)); try contradiction;
    [|reflexivity].
  destruct (dict_get String.eqb gs1 (to_gate w)),
           (dict_get String.eqb gs2 (to_gate w)); try contradiction;
    [|reflexivity].
  destruct Hf as [_ ->]. reflexivity.
Qed.

Lemma view_sset gs k g g0 :
  dict_get String.eqb gs k = Some g0 ->
  num_inputs g = num_inputs g0 -> output g = output g0 ->
  gate_view (dict_set String.eqb gs k g) = gate_view gs.
Proof.
  unfold gate_view.
  induction gs as [|[k0 v0] gs IH]; simpl; [discriminate|].
  destruct (String.eqb k0 k); simpl.
  - intros [= ->] -> ->. reflexivity.
  - intros H Hn Ho. f_equal. now apply IH.
Qed.

Lemma write_view gs k i v : gate_view (write_input gs k i v) = gate_view gs.
Proof.
  unfold write_input.
  destruct (dict_get String.eqb gs k) as [g|] eqn:E; [|reflexivity].
  eapply view_sset; [eassumption | reflexivity | reflexivity].
Qed.

Lemma write_ok gs k i v : gates_ok gs -> gates_ok (write_input gs k i v).
Proof.
  intros H. unfold write_input.
  destruct (dict_get String.eqb gs k) as [g|] eqn:E; [|exact H].
  apply Forall_sset; [exact H|].
  pose proof (gates_ok_get _ _ _ H E) as Hg.
  unfold gate_ok in *. cbn [with_inputs inputs num_inputs gate_type snd].
  now rewrite set_nth_length.
Qed.

Lemma apply_write_view gs x : gate_view (apply_write gs x) = gate_view gs.
Proof. destruct x as [[[k i] v]|]; [apply write_view | reflexivity]. Qed.

Lemma apply_write_ok gs x : gates_ok gs -> gates_ok (apply_write gs x).
Proof. destruct x as [[[k i] v]|]; [apply write_ok | trivial]. Qed.

Lemma fold_writes_view W : forall gs,
  gate_view (fold_left apply_write W gs) = gate_view gs.
Proof.
  induction W as [|x W IH]; intros gs; [reflexivity|].
  cbn [fold_left]. rewrite IH. apply apply_write_view.
Qed.

Lemma fold_writes_ok W : forall gs,
  gates_ok gs -> gates_ok (fold_left apply_write W gs).
Proof.
  induction W as [|x W IH]; intros gs H; [exact H|].
  cbn [fold_left]. apply IH. now apply apply_write_ok.
Qed.

Lemma push_wire_as_write gs w :
  gates_ok gs ->
  push_wire gs w = Ok (apply_write gs (wire_write gs w), wire_pushed gs w).
Proof.
  intros Hok. unfold push_wire, wire_write, wire_pushed.
  destruct (dict_get String.eqb gs (from_gate w)) as [fg|]; [|reflexivity].
  destruct (dict_get String.eqb gs (to_gate w)) as [tg|] eqn:Et; [|reflexivity].
  unfold gate_set_input. cbn [with_signal to_input signal].
  destruct ((0 <=? to_input w)%Z && (to_input w <? num_inputs tg)%Z) eqn:G.
  - apply andb_true_iff in G. destruct G as [G0 G1].
    apply Z.leb_le in G0. apply Z.ltb_lt in G1.
    pose proof (gates_ok_get _ _ _ Hok Et) as Hg.
    unfold gate_ok in Hg. apply andb_true_iff in Hg. destruct Hg as [Hlen _].
    apply Nat.eqb_eq in Hlen.
    rewrite list_assign_set_nth by lia. run.
    cbn [apply_write]. unfold write_input. rewrite Et. reflexivity.
  - run. cbn [apply_write]. now rewrite (sset_same _ _ _ Et).
Qed.

Lemma push_wires_as_writes gs0 : forall ws gs,
  gates_ok gs -> gate_view gs = gate_view gs0 ->
  push_wires gs ws =
  Ok (fold_left apply_write (map (wire_write gs0) ws) gs,
      map (wire_pushed gs0) ws).
Proof.
  induction ws as [|w ws IH]; intros gs Hok Hv; cbn [push_wires map fold_left];
    [reflexivity|].
  rewrite (push_wire_as_write gs w Hok). run.
  rewrite IH.
  - run. rewrite (wire_write_view gs gs0 w Hv), (wire_pushed_view gs gs0 w Hv).
    reflexivity.
  - now apply apply_write_ok.
  - now rewrite apply_write_view.
Qed.

Lemma wire_write_pushed gs w :
  wire_write gs (wire_pushed gs w) = wire_write gs w.
Proof.
  unfold wire_pushed.
  destruct (dict_get String.eqb gs (from_gate w));
    destruct (dict_get String.eqb gs (to_gate w)); reflexivity.
Qed.

Lemma wire_pushed_twice gs w :
  wire_pushed gs (wire_pushed gs w) = wire_pushed gs w.
Proof.
  unfold wire_pushed.
  destruct (dict_get String.eqb gs (from_gate w)) as [fg|] eqn:Ef;
    destruct (dict_get String.eqb gs (to_gate w)) as [tg|] eqn:Et;
    cbn [with_signal from_gate to_gate]; rewrite ?Ef, ?Et; reflexivity.
Qed.

(** One run of the wire loop leaves gates and wires on which a second run
    changes nothing, however many wires feed one input. *)
Lemma push_wires_idempotent gs ws gs' ws' :
  gates_ok gs -> push_wires gs ws = Ok (gs', ws') ->
  push_wires gs' ws' = Ok (gs', ws') /\ gates_ok gs'.
Proof.
  intros Hok H.
  rewrite (push_wires_as_writes gs ws gs Hok eq_refl) in H.
  apply Ok_inj in H. injection H as <- <-.
  split; [|now apply fold_writes_ok].
  rewrite (push_wires_as_writes gs).
  - rewrite !map_map.
    rewrite (map_ext _ _ (wire_write_pushed gs)).
    rewrite (map_ext _ _ (wire_pushed_twice gs)).
    now rewrite fold_writes_twice.
  - now apply fold_writes_ok.
  - apply fold_writes_view.
Qed.

(** *** The loop ends at rest unless the cap stops it *)

Lemma gate_update_unchanged g t g1 :
  gate_update g t = Ok (g1, false) -> g1 = g.
Proof.
  unfold gate_update. intros H. bind_ok H.
  destruct (negb (level_eqb a (output g))); apply Ok_inj in H;
    [discriminate H | now injection H].
Qed.

Lemma update_gates_unchanged t : forall gs gs1,
  update_gates gs t = Ok (gs1, false) -> gs1 = gs.
Proof.
  induction gs as [|[k g] gs IH]; simpl; intros gs1 H.
  - apply Ok_inj in H. now injection H.
  - bind_ok H. destruct a as [g1 c1]. bind_ok H. destruct a as [gs2 c2].
    apply Ok_inj in H. injection H as <- Hc.
    apply orb_false_iff in Hc. destruct Hc as [-> ->].
    rewrite (gate_update_unchanged _ _ _ E), (IH _ E0). reflexivity.
Qed.

Lemma update_gates_keeps_ok t gs gs1 c :
  gates_ok gs -> update_gates gs t = Ok (gs1, c) -> gates_ok gs1.
Proof.
  intros Hok H. destruct (update_gates_ok t gs Hok) as (gs' & c' & H' & Hok').
  rewrite H in H'. apply Ok_inj in H'. now injection H' as -> _.
Qed.

Lemma propagate_loop_rests t : forall fuel gs ws it gs' ws' it',
  gates_ok gs -> push_wires gs ws = Ok (gs, ws) ->
  propagate_loop fuel t gs ws it = Ok (gs', ws', it') ->
  (it' < it + fuel)%nat ->
  update_gates gs' t = Ok (gs', false) /\
  push_wires gs' ws' = Ok (gs', ws') /\ gates_ok gs'.
Proof.
  induction fuel as [|fuel IH]; intros gs ws it gs' ws' it' Hok Hpush H Hlt;
    cbn [propagate_loop] in H.
  - apply Ok_inj in H. injection H as _ _ <-. lia.
  - bind_ok H. destruct a as [gs1 ch]. bind_ok H. destruct a as [gs2 ws2].
    pose proof (update_gates_keeps_ok _ _ _ _ Hok E) as Hok1.
    destruct ch.
    + destruct (push_wires_idempotent _ _ _ _ Hok1 E0) as [Hp2 Hok2].
      eapply IH; try eassumption. lia.
    + apply Ok_inj in H. injection H as <- <- _.
      pose proof (update_gates_unchanged _ _ _ E) as ->.
      rewrite Hpush in E0. apply Ok_inj in E0. injection E0 as <- <-.
      repeat split; assumption.
Qed.

Lemma update_gates_settled t : forall gs,
  update_gates gs t = Ok (gs, false) ->
  forall k g, In (k, g) gs -> evaluate g = Ok (output g).
Proof.
  induction gs as [|[k0 g0] gs IH]; simpl; intros H k g Hin; [destruct Hin|].
  bind_ok H. destruct a as [g1 c1]. bind_ok H. destruct a as [gs2 c2].
  apply Ok_inj in H. injection H as -> -> Hc.
  apply orb_false_iff in Hc. destruct Hc as [-> ->].
  destruct Hin as [[= <- <-]|Hin]; [|eapply IH; eassumption].
  unfold gate_update in E. bind_ok E.
  destruct (level_eqb a (output g0)) eqn:Q; cbn [negb] in E;
    [|apply Ok_inj in E; discriminate E].
  apply level_eqb_eq in Q. now subst a.
Qed.

(** X17: propagation ends at a fixed point unless the cap stops it.  On
    gates as the constructor builds them, when [propagate] returns after
    fewer than 100 passes the circuit is at rest: every gate's output is
    what [evaluate] answers on its inputs, one more run of the wire loop
    changes no input and no signal, and a second [propagate] takes one pass,
    prints nothing and leaves the simulator exactly as it is.  This holds
    also when several wires feed the same input. *)
Theorem propagate_reaches_fixed_point :
  forall (s : DigitalCircuitSimulator) (p : Propagated),
    gates_ok (gates s) ->
    propagate s = Ok p ->
    (passes p < max_iterations)%nat ->
    at_rest (sim_after p) /\
    (forall k g, In (k, g) (gates (sim_after p)) -> evaluate g = Ok (output g)) /\
    propagate (sim_after p) =
      Ok {| sim_after := sim_after p; passes := 1; printed := [] |}.
Proof.
  intros s p Hok H Hlt. unfold propagate in H.
  bind_ok H. destruct a as [gs0 ws0]. bind_ok H. destruct a as [[gs1 ws1] it].
  apply Ok_inj in H. subst p. cbn [passes sim_after] in *.
  destruct (push_wires_idempotent _ _ _ _ Hok E) as [Hp0 Hok0].
  destruct (propagate_loop_rests _ _ _ _ _ _ _ _ Hok0 Hp0 E0 Hlt)
    as (Hu & Hp1 & Hok1).
  assert (Hrest : at_rest (with_gates_wires s gs1 ws1)).
  { unfold at_rest. cbn [with_gates_wires gates wires current_time].
    split; assumption. }
  split; [exact Hrest|]. split.
  - cbn [with_gates_wires gates]. now apply update_gates_settled with (t := current_time s).
  - unfold propagate. cbn [with_gates_wires gates wires current_time].
    rewrite Hp1. run. unfold max_iterations. cbn [propagate_loop].
    rewrite Hu. run. rewrite Hp1. run. reflexivity.
Qed.

Lemma propagate_reaches_fixed_point_witness :
  exists p,
    propagate and_buffered = Ok p /\
    at_rest (sim_after p) /\
    (forall k g, In (k, g) (gates (sim_after p)) -> evaluate g = Ok (output g)) /\
    propagate (sim_after p) =
      Ok {| sim_after := sim_after p; passes := 1; printed := [] |}.
Proof.
  destruct (propagate and_buffered) as [p|e] eqn:E;
    [|vm_compute in E; discriminate E].
  exists p. split; [reflexivity|].
  apply (propagate_reaches_fixed_point and_buffered p).
  - repeat constructor.
  - exact E.
  - vm_compute in E. apply Ok_inj in E. subst p. vm_compute. repeat constructor.
Defined.

End FixedPoint.

(* ================================================================== *)
(** ** The node map *)
(* ================================================================== *)

Module NodeMapFacts.
Import Engine Networks NodeSpec EngineProofs.

Lemma pyid_eqb_refl k : pyid_eqb k k = true.
Proof. now apply pyid_eqb_eq. Qed.

Lemma pget_In (d : NodeMap) k v :
  dict_get pyid_eqb d k = Some v -> In (k, v) d.
Proof.
  induction d as [|[k0 v0] d IH]; simpl; [discriminate|].
  destruct (pyid_eqb k0 k) eqn:E.
  - apply pyid_eqb_eq in E. subst k0. intros [= ->]. now left.
  - intros H. right. now apply IH.
Qed.

Lemma pset_absent {V : Type} (d : list (pyid * V)) k v :
  dict_get pyid_eqb d k = None -> dict_set pyid_eqb d k v = d ++ [(k, v)].
Proof.
  induction d as [|[k0 v0] d IH]; simpl; [reflexivity|].
  destruct (pyid_eqb k0 k); [discriminate|].
  intros H. now rewrite IH.
Qed.

Lemma pset_present_length {V : Type} (d : list (pyid * V)) k v v0 :
  dict_get pyid_eqb d k = Some v0 ->
  List.length (dict_set pyid_eqb d k v) = List.length d.
Proof.
  induction d as [|[k0 w] d IH]; simpl; [discriminate|].
  destruct (pyid_eqb k0 k); simpl; [reflexivity|].
  intros H. f_equal. now apply IH.
Qed.

Lemma Forall_pset {V : Type} (P : V -> Prop) (d : list (pyid * V)) k v :
  Forall (fun kv => P (snd kv)) d -> P v ->
  Forall (fun kv => P (snd kv)) (dict_set pyid_eqb d k v).
Proof.
  intros Hd Hv. induction d as [|[k0 v0] d IH]; simpl.
  - now constructor.
  - inversion Hd as [|? ? H0 Hd']; subst.
    destruct (pyid_eqb k0 k); constructor; auto.
Qed.

(** The numbering invariant: with [len0] entries before the first number
    was given out, the map has [next + len0] entries, none above [next]. *)
Lemma assign_terminals_numbers cid len0 : forall ts idx nm next nm' next',
  assign_terminals cid ts idx nm next = (nm', next') ->
  (0 <= next)%Z ->
  Z.of_nat (List.length nm) = (next + len0)%Z ->
  Forall (fun kv => (0 <= snd kv <= next)%Z) nm ->
  (0 <= next')%Z /\
  Z.of_nat (List.length nm') = (next' + len0)%Z /\
  Forall (fun kv => (0 <= snd kv <= next')%Z) nm'.
Proof.
  induction ts as [|t ts IH]; intros idx nm next nm' next' H H0 Hlen Hall;
    cbn [assign_terminals] in H.
  - injection H as <- <-. auto.
  - unfold dict_mem in H.
    destruct (dict_get pyid_eqb nm (term_key cid (IdInt idx))) eqn:E.
    + eapply IH; eassumption.
    + eapply IH; [eassumption | lia | |].
      * rewrite (pset_absent _ _ _ E), length_app. simpl. lia.
      * apply Forall_pset with (P := fun v => (0 <= v <= next + 1)%Z); [|lia].
        eapply Forall_impl; [|exact Hall]. simpl. intros; lia.
Qed.

Lemma assign_nodes_numbers g len0 : forall cs nm next nm' next',
  assign_nodes cs g nm next = (nm', next') ->
  (0 <= next)%Z ->
  Z.of_nat (List.length nm) = (next + len0)%Z ->
  Forall (fun kv => (0 <= snd kv <= next)%Z) nm ->
  (0 <= next')%Z /\
  Z.of_nat (List.length nm') = (next' + len0)%Z /\
  Forall (fun kv => (0 <= snd kv <= next')%Z) nm'.
Proof.
  induction cs as [|c cs IH]; intros nm next nm' next' H H0 Hlen Hall;
    cbn [assign_nodes] in H.
  - injection H as <- <-. auto.
  - destruct (pyid_eqb (comp_id c) g); [eapply IH; eassumption|].
    destruct (assign_terminals (comp_id c) (terminals c) 0 nm next)
      as [m n] eqn:E.
    destruct (assign_terminals_numbers _ len0 _ _ _ _ _ _ E H0 Hlen Hall)
      as (A & B & C).
    eapply IH; eassumption.
Qed.

Lemma merge_keys_numbers nm fk tk bound :
  Forall (fun kv => (0 <= snd kv <= bound)%Z) nm ->
  List.length (merge_keys nm fk tk) = List.length nm /\
  Forall (fun kv => (0 <= snd kv <= bound)%Z) (merge_keys nm fk tk).
Proof.
  intros Hall. unfold merge_keys.
  destruct (dict_get pyid_eqb nm fk) as [a|] eqn:Ea; [|auto].
  destruct (dict_get pyid_eqb nm tk) as [b|] eqn:Eb; [|auto].
  pose proof (pget_In _ _ _ Ea) as Ia. pose proof (pget_In _ _ _ Eb) as Ib.
  rewrite Forall_forall in Hall.
  pose proof (Hall _ Ia) as Ra. pose proof (Hall _ Ib) as Rb. simpl in Ra, Rb.
  split.
  - assert (Eb' : exists b', dict_get pyid_eqb
              (dict_set pyid_eqb nm fk (Z.min a b)) tk = Some b').
    { rewrite pget_pset. destruct (pyid_eqb _ _); eauto. }
    destruct Eb' as [b' Eb'].
    rewrite (pset_present_length _ _ _ _ Eb').
    now rewrite (pset_present_length _ _ _ _ Ea).
  - apply Forall_pset with (P := fun v => (0 <= v <= bound)%Z); [|lia].
    apply Forall_pset with (P := fun v => (0 <= v <= bound)%Z); [|lia].
    now apply Forall_forall.
Qed.

(** A merge loop that returned went through wires with two dict ends, one
    [merge_keys] per wire. *)
Lemma merge_wires_step w ws nm nm' :
  merge_wires (w :: ws) nm = Ok nm' ->
  exists fk tk,
    end_key (wire_from w) = Some fk /\ end_key (wire_to w) = Some tk /\
    merge_wires ws (merge_keys nm fk tk) = Ok nm'.
Proof.
  cbn [merge_wires]. intros H.
  destruct (merge_wire_cases nm w) as [[_ (fk & tk & Ef & Et & E)]|[_ E]];
    rewrite E in H; [|discriminate H].
  exists fk, tk. repeat split; assumption.
Qed.

Lemma merge_all_numbers bound : forall ws nm nm',
  merge_wires ws nm = Ok nm' ->
  Forall (fun kv => (0 <= snd kv <= bound)%Z) nm ->
  List.length nm' = List.length nm /\
  Forall (fun kv => (0 <= snd kv <= bound)%Z) nm'.
Proof.
  induction ws as [|w ws IH]; intros nm nm' E H.
  - apply Ok_inj in E. subst nm'. auto.
  - apply merge_wires_step in E. destruct E as (fk & tk & _ & _ & E).
    destruct (merge_keys_numbers nm fk tk bound H) as [L F].
    destruct (IH _ _ E F) as [L' F']. split; [congruence | exact F'].
Qed.

(** *** Entries are never lost *)

Lemma pmem_pset (d : NodeMap) k v k' :
  dict_mem pyid_eqb d k' = true ->
  dict_mem pyid_eqb (dict_set pyid_eqb d k v) k' = true.
Proof.
  unfold dict_mem. rewrite pget_pset.
  destruct (pyid_eqb k k'); [reflexivity | trivial].
Qed.

Lemma assign_terminals_keeps cid : forall ts idx nm next k,
  dict_mem pyid_eqb nm k = true ->
  dict_mem pyid_eqb (fst (assign_terminals cid ts idx nm next)) k = true.
Proof.
  induction ts as [|t ts IH]; intros idx nm next k H; cbn [assign_terminals];
    [exact H|].
  destruct (dict_mem pyid_eqb nm (term_key cid (IdInt idx))); apply IH;
    [exact H | now apply pmem_pset].
Qed.

Lemma assign_terminals_covers cid : forall ts idx nm next j,
  (j < List.length ts)%nat ->
  dict_mem pyid_eqb (fst (assign_terminals cid ts idx nm next))
    (term_key cid (IdInt (idx + Z.of_nat j))) = true.
Proof.
  induction ts as [|t ts IH]; intros idx nm next j Hj; simpl in Hj; [lia|].
  cbn [assign_terminals].
  destruct j as [|j].
  - rewrite Z.add_0_r.
    destruct (dict_mem pyid_eqb nm (term_key cid (IdInt idx))) eqn:E;
      apply assign_terminals_keeps; [exact E|].
    unfold dict_mem. now rewrite pget_pset, pyid_eqb_refl.
  - replace (idx + Z.of_nat (S j))%Z with ((idx + 1) + Z.of_nat j)%Z by lia.
    destruct (dict_mem pyid_eqb nm (term_key cid (IdInt idx)));
      apply IH; lia.
Qed.

Lemma assign_nodes_keeps g : forall cs nm next k,
  dict_mem pyid_eqb nm k = true ->
  dict_mem pyid_eqb (fst (assign_nodes cs g nm next)) k = true.
Proof.
  induction cs as [|c cs IH]; intros nm next k H; cbn [assign_nodes]; [exact H|].
  destruct (pyid_eqb (comp_id c) g); [now apply IH|].
  pose proof (assign_terminals_keeps (comp_id c) (terminals c) 0 nm next k H) as K.
  destruct (assign_terminals (comp_id c) (terminals c) 0 nm next) as [m n].
  now apply IH.
Qed.

Lemma assign_nodes_covers g : forall cs nm next c j,
  In c cs -> pyid_eqb (comp_id c) g = false ->
  (j < List.length (terminals c))%nat ->
  dict_mem pyid_eqb (fst (assign_nodes cs g nm next))
    (term_key (comp_id c) (IdInt (Z.of_nat j))) = true.
Proof.
  induction cs as [|c0 cs IH]; intros nm next c j Hin Hg Hj; [destruct Hin|].
  cbn [assign_nodes]. destruct Hin as [->|Hin].
  - rewrite Hg.
    pose proof (assign_terminals_covers (comp_id c) (terminals c) 0 nm next j Hj) as K.
    destruct (assign_terminals (comp_id c) (terminals c) 0 nm next) as [m n].
    now apply assign_nodes_keeps.
  - destruct (pyid_eqb (comp_id c0) g); [now apply IH|].
    destruct (assign_terminals (comp_id c0) (terminals c0) 0 nm next) as [m n].
    now apply IH.
Qed.

Lemma merge_keys_keeps nm fk tk k :
  dict_mem pyid_eqb nm k = true ->
  dict_mem pyid_eqb (merge_keys nm fk tk) k = true.
Proof.
  intros H. unfold merge_keys.
  destruct (dict_get pyid_eqb nm fk); [|exact H].
  destruct (dict_get pyid_eqb nm tk); [|exact H].
  now apply pmem_pset, pmem_pset.
Qed.

Lemma merge_all_keeps : forall ws nm nm' k,
  merge_wires ws nm = Ok nm' ->
  dict_mem pyid_eqb nm k = true ->
  dict_mem pyid_eqb nm' k = true.
Proof.
  induction ws as [|w ws IH]; intros nm nm' k E H.
  - apply Ok_inj in E. now subst nm'.
  - apply merge_wires_step in E. destruct E as (fk & tk & _ & _ & E).
    eapply IH; [exact E|]. now apply merge_keys_keeps.
Qed.

(** *** The ground entry and the other entries *)

Lemma Forall_pset_pair (P : pyid * Z -> Prop) (d : NodeMap) k v :
  Forall P d -> P (k, v) -> Forall P (dict_set pyid_eqb d k v).
Proof.
  intros Hd Hkv. induction d as [|[k0 v0] d IH]; simpl.
  - now constructor.
  - inversion Hd as [|? ? H0 Hd']; subst.
    destruct (pyid_eqb k0 k) eqn:E.
    + apply pyid_eqb_eq in E. subst k0. now constructor.
    + constructor; auto.
Qed.

Lemma In_pget (d : NodeMap) k v :
  In (k, v) d -> exists v', dict_get pyid_eqb d k = Some v'.
Proof.
  induction d as [|[k0 v0] d IH]; simpl; [intros []|].
  intros [[= -> ->]|H].
  - rewrite pyid_eqb_refl. eauto.
  - destruct (pyid_eqb k0 k); eauto.
Qed.

Lemma assign_terminals_ground cid g : forall ts idx nm next,
  (0 <= next)%Z -> grounded g nm -> apart g nm ->
  grounded g (fst (assign_terminals cid ts idx nm next)) /\
  apart g (fst (assign_terminals cid ts idx nm next)) /\
  (0 <= snd (assign_terminals cid ts idx nm next))%Z.
Proof.
  induction ts as [|t ts IH]; intros idx nm next H0 Hg Ha;
    cbn [assign_terminals]; [auto|].
  unfold dict_mem.
  destruct (dict_get pyid_eqb nm (term_key cid (IdInt idx))) eqn:E;
    [now apply IH|].
  apply IH; [lia | |].
  - unfold grounded. rewrite pget_pset.
    destruct (pyid_eqb (term_key cid (IdInt idx)) g) eqn:Eg; [|exact Hg].
    apply pyid_eqb_eq in Eg. unfold grounded in Hg. congruence.
  - apply Forall_pset_pair; [exact Ha|]. simpl. intros _. lia.
Qed.

Lemma assign_nodes_ground g : forall cs nm next,
  (0 <= next)%Z -> grounded g nm -> apart g nm ->
  grounded g (fst (assign_nodes cs g nm next)) /\
  apart g (fst (assign_nodes cs g nm next)).
Proof.
  induction cs as [|c cs IH]; intros nm next H0 Hg Ha; cbn [assign_nodes];
    [auto|].
  destruct (pyid_eqb (comp_id c) g); [now apply IH|].
  destruct (assign_terminals_ground (comp_id c) g (terminals c) 0 nm next H0 Hg Ha)
    as (A & B & C).
  destruct (assign_terminals (comp_id c) (terminals c) 0 nm next) as [m n].
  now apply IH.
Qed.

Lemma merge_keys_grounded g nm fk tk :
  Forall (fun kv => (0 <= snd kv)%Z) nm ->
  grounded g nm -> grounded g (merge_keys nm fk tk).
Proof.
  intros Hpos Hg. unfold merge_keys.
  destruct (dict_get pyid_eqb nm fk) as [a|] eqn:Ea; [|exact Hg].
  destruct (dict_get pyid_eqb nm tk) as [b|] eqn:Eb; [|exact Hg].
  rewrite Forall_forall in Hpos.
  pose proof (Hpos _ (pget_In _ _ _ Ea)) as Pa.
  pose proof (Hpos _ (pget_In _ _ _ Eb)) as Pb. simpl in Pa, Pb.
  unfold grounded in *. rewrite !pget_pset.
  destruct (pyid_eqb tk g) eqn:E1.
  - apply pyid_eqb_eq in E1. rewrite E1 in Eb.
    assert (b = 0%Z) by congruence. f_equal. lia.
  - destruct (pyid_eqb fk g) eqn:E2; [|exact Hg].
    apply pyid_eqb_eq in E2. rewrite E2 in Ea.
    assert (a = 0%Z) by congruence. f_equal. lia.
Qed.

Lemma merge_keys_apart g nm fk tk :
  pyid_eqb fk g = false -> pyid_eqb tk g = false ->
  apart g nm -> apart g (merge_keys nm fk tk).
Proof.
  intros Hf Ht Ha. unfold merge_keys.
  destruct (dict_get pyid_eqb nm fk) as [a|] eqn:Ea; [|exact Ha].
  destruct (dict_get pyid_eqb nm tk) as [b|] eqn:Eb; [|exact Ha].
  unfold apart in Ha. rewrite Forall_forall in Ha.
  pose proof (Ha _ (pget_In _ _ _ Ea)) as Pa.
  pose proof (Ha _ (pget_In _ _ _ Eb)) as Pb. simpl in Pa, Pb.
  assert (Na : (1 <= a)%Z).
  { apply Pa. intros F. rewrite F, pyid_eqb_refl in Hf. discriminate. }
  assert (Nb : (1 <= b)%Z).
  { apply Pb. intros F. rewrite F, pyid_eqb_refl in Ht. discriminate. }
  apply Forall_pset_pair; [apply Forall_pset_pair|].
  - now apply Forall_forall.
  - simpl. intros _. lia.
  - simpl. intros _. lia.
Qed.

Lemma merge_all_grounded g : forall ws nm nm' bound,
  merge_wires ws nm = Ok nm' ->
  Forall (fun kv => (0 <= snd kv <= bound)%Z) nm ->
  grounded g nm -> grounded g nm'.
Proof.
  induction ws as [|w ws IH]; intros nm nm' bound E Hr Hg.
  - apply Ok_inj in E. now subst nm'.
  - apply merge_wires_step in E. destruct E as (fk & tk & _ & _ & E).
    destruct (merge_keys_numbers nm fk tk bound Hr) as [_ F].
    apply (IH _ _ bound E F). apply merge_keys_grounded; [|exact Hg].
    eapply Forall_impl; [|exact Hr]. simpl. intros; lia.
Qed.

Lemma merge_all_apart g : forall ws nm nm',
  merge_wires ws nm = Ok nm' ->
  forallb (avoids g) ws = true -> apart g nm -> apart g nm'.
Proof.
  induction ws as [|w ws IH]; intros nm nm' E Hw Ha.
  - apply Ok_inj in E. now subst nm'.
  - apply merge_wires_step in E. destruct E as (fk & tk & Ef & Et & E).
    cbn [forallb] in Hw. apply andb_true_iff in Hw. destruct Hw as [H1 H2].
    unfold avoids, end_avoids in H1. rewrite Ef, Et in H1.
    apply andb_true_iff in H1. destruct H1 as [Hf Ht].
    apply negb_true_iff in Hf, Ht.
    apply (IH _ _ E H2). now apply merge_keys_apart.
Qed.

(** The three loops of [_build_node_map], once a ground was found. *)
Lemma build_node_map_grounded components wires c0 node_map ground_node :
  find (fun c => type_is c "ground") components = Some c0 ->
  _build_node_map components wires = Ok (node_map, ground_node) ->
  ground_node = comp_id c0 /\
  merge_wires wires
    (fst (assign_nodes components (comp_id c0) [(comp_id c0, 0%Z)] 0)) =
    Ok node_map.
Proof.
  intros Hf. unfold _build_node_map. rewrite Hf. cbn [dict_set].
  destruct (assign_nodes components (comp_id c0) [(comp_id c0, 0%Z)] 0).
  intros H. bind_ok H. apply Ok_inj in H. injection H as <- <-.
  split; [reflexivity | exact E].
Qed.

(** The part of the numbering the DC driver relies on. *)
Lemma build_node_map_range components wires node_map ground_node c0 :
  find (fun c => type_is c "ground") components = Some c0 ->
  _build_node_map components wires = Ok (node_map, ground_node) ->
  dict_get pyid_eqb node_map ground_node = Some 0%Z /\
  (forall k v, In (k, v) node_map ->
     (0 <= v <= Z.of_nat (List.length node_map) - 1)%Z).
Proof.
  intros Hf Hb.
  destruct (build_node_map_grounded _ _ _ _ _ Hf Hb) as [-> Hm].
  set (g := comp_id c0) in *.
  destruct (assign_nodes components g [(g, 0%Z)] 0) as [nm1 next1] eqn:E.
  destruct (assign_nodes_numbers g 1 components [(g, 0%Z)] 0 nm1 next1 E)
    as (N0 & NL & NR); [lia | reflexivity | |].
  { constructor; [simpl; lia | constructor]. }
  assert (G0 : grounded g [(g, 0%Z)]).
  { unfold grounded. simpl. now rewrite pyid_eqb_refl. }
  assert (A0 : apart g [(g, 0%Z)]).
  { constructor; [simpl; intros F; now elim F | constructor]. }
  destruct (assign_nodes_ground g components [(g, 0%Z)] 0 (Z.le_refl 0) G0 A0)
    as [G1 _].
  rewrite E in G1. cbn [fst] in *.
  destruct (merge_all_numbers next1 wires nm1 node_map Hm NR) as [ML MR].
  split.
  - exact (merge_all_grounded g wires nm1 node_map next1 Hm NR G1).
  - intros k v Hin. rewrite Forall_forall in MR.
    specialize (MR _ Hin). simpl in MR. rewrite ML. lia.
Qed.

(** X18: the node numbering of [_build_node_map] when the circuit has a
    ground component.  The ground id is the id of the first ground
    component and stays on node 0; every node number lies between 0 and the
    number of entries minus one; every terminal of every component whose id
    is not the ground id has an entry; and as long as no wire end is spelled
    like the ground id, every other entry is on a node numbered 1 or more:
    no terminal is ever put on the ground node. *)
Theorem node_map_numbering :
  forall components wires node_map ground_node c0,
    find (fun c => type_is c "ground") components = Some c0 ->
    _build_node_map components wires = Ok (node_map, ground_node) ->
    ground_node = comp_id c0 /\
    dict_get pyid_eqb node_map ground_node = Some 0%Z /\
    (forall k v, In (k, v) node_map ->
       (0 <= v <= Z.of_nat (List.length node_map) - 1)%Z) /\
    (forall c j, In c components ->
       pyid_eqb (comp_id c) ground_node = false ->
       (j < List.length (terminals c))%nat ->
       dict_mem pyid_eqb node_map
         (term_key (comp_id c) (IdInt (Z.of_nat j))) = true) /\
    (forallb (avoids ground_node) wires = true ->
     forall k v, In (k, v) node_map -> k <> ground_node -> (1 <= v)%Z).
Proof.
  intros components wires node_map ground_node c0 Hf Hb.
  destruct (build_node_map_range _ _ _ _ _ Hf Hb) as [Hg0 Hr].
  destruct (build_node_map_grounded _ _ _ _ _ Hf Hb) as [-> Hm].
  set (g := comp_id c0) in *.
  split; [reflexivity|]. split; [exact Hg0|]. split; [exact Hr|].
  assert (G0 : grounded g [(g, 0%Z)]).
  { unfold grounded. simpl. now rewrite pyid_eqb_refl. }
  assert (A0 : apart g [(g, 0%Z)]).
  { constructor; [simpl; intros F; now elim F | constructor]. }
  destruct (assign_nodes_ground g components [(g, 0%Z)] 0 (Z.le_refl 0) G0 A0)
    as [_ A1].
  split.
  - intros c j Hin Hg Hj. apply (merge_all_keeps _ _ _ _ Hm).
    exact (assign_nodes_covers g components [(g, 0%Z)] 0 c j Hin Hg Hj).
  - intros Hw k v Hin Hk.
    pose proof (merge_all_apart g wires _ _ Hm Hw A1) as A2.
    unfold apart in A2. rewrite Forall_forall in A2.
    exact (A2 _ Hin Hk).
Qed.

Lemma node_map_numbering_witness :
  exists node_map,
    _build_node_map chain_components chain_wires =
      Ok (node_map, IdStr "gnd") /\
    IdStr "gnd" = comp_id (ground "gnd") /\
    dict_get pyid_eqb node_map (IdStr "gnd") = Some 0%Z /\
    (forall k v, In (k, v) node_map ->
       (0 <= v <= Z.of_nat (List.length node_map) - 1)%Z) /\
    (forall c j, In c chain_components ->
       pyid_eqb (comp_id c) (IdStr "gnd") = false ->
       (j < List.length (terminals c))%nat ->
       dict_mem pyid_eqb node_map
         (term_key (comp_id c) (IdInt (Z.of_nat j))) = true) /\
    (forallb (avoids (IdStr "gnd")) chain_wires = true ->
     forall k v, In (k, v) node_map -> k <> IdStr "gnd" -> (1 <= v)%Z).
Proof.
  destruct (_build_node_map chain_components chain_wires) as [[nm g]|e] eqn:E;
    [|vm_compute in E; discriminate E].
  assert (Hg : g = IdStr "gnd").
  { vm_compute in E. apply Ok_inj in E. now injection E. }
  subst g. exists nm. split; [reflexivity|].
  exact (node_map_numbering chain_components chain_wires nm (IdStr "gnd")
           (ground "gnd") eq_refl E).
Defined.

End NodeMapFacts.

(* ================================================================== *)
(** ** The DC driver always returns *)
(* ================================================================== *)

Module DCFacts.
Import Engine Networks NodeSpec EngineProofs NodeMapFacts.

Lemma np_index_ok n i :
  (0 <= i < Z.of_nat n)%Z -> np_index n i = Ok (Z.to_nat i).
Proof.
  intros H. unfold np_index.
  destruct (Z.leb_spec 0 i); [|lia].
  destruct (Z.ltb_spec i (Z.of_nat n)); [reflexivity | lia].
Qed.

Lemma list_index_ok {A : Type} (l : list A) i :
  (i < List.length l)%nat -> exists a, list_index l i = Ok a /\ In a l.
Proof.
  intros H. unfold list_index.
  destruct (nth_error l i) as [a|] eqn:E.
  - exists a. split; [reflexivity | eapply nth_error_In; eassumption].
  - apply nth_error_None in E. lia.
Qed.

Lemma list_assign_Forall {A : Type} (P : A -> Prop) (l : list A) : forall i v l',
  list_assign l i v = Ok l' -> Forall P l -> P v -> Forall P l'.
Proof.
  induction l as [|a l IH]; intros i v l' H Hl Hv; simpl in H.
  - destruct i; discriminate.
  - inversion Hl as [|? ? Pa Pl]; subst.
    destruct i as [|i].
    + apply Ok_inj in H. subst l'. now constructor.
    + destruct (list_assign l i v) as [r|] eqn:E; [|discriminate].
      apply Ok_inj in H. subst l'. constructor; [exact Pa|].
      eapply IH; eassumption.
Qed.

Lemma vec_get_ok (v : Vector) i :
  (0 <= i < Z.of_nat (List.length v))%Z -> exists x, vec_get v i = Ok x.
Proof.
  intros H. unfold vec_get. rewrite (np_index_ok _ _ H). run.
  destruct (list_index_ok v (Z.to_nat i)) as (x & E & _); [lia|].
  eauto.
Qed.

Lemma vec_set_ok (v : Vector) i x :
  (0 <= i < Z.of_nat (List.length v))%Z ->
  exists v', vec_set v i x = Ok v' /\ List.length v' = List.length v.
Proof.
  intros H. unfold vec_set. rewrite (np_index_ok _ _ H). run.
  destruct (list_assign_ok v (Z.to_nat i) x) as [v' E]; [lia|].
  exists v'. split; [exact E | eapply list_assign_length; eassumption].
Qed.

Lemma mat_add_ok n (G : Matrix) i j x :
  square n G ->
  (0 <= i < Z.of_nat n)%Z -> (0 <= j < Z.of_nat n)%Z ->
  exists G', mat_add G i j x = Ok G' /\ square n G'.
Proof.
  intros [HL HR] Hi Hj. unfold mat_add.
  rewrite np_index_ok by (rewrite HL; exact Hi). run.
  destruct (list_index_ok G (Z.to_nat i)) as (row & E & Hin); [lia|].
  rewrite E.
  rewrite Forall_forall in HR. pose proof (HR _ Hin) as Hrow.
  destruct (vec_get_ok row j) as [old Eo]; [rewrite Hrow; exact Hj|].
  rewrite Eo.
  destruct (vec_set_ok row j (old + x)%Q) as (row' & Es & Hl');
    [rewrite Hrow; exact Hj|].
  rewrite Es.
  destruct (list_assign_ok G (Z.to_nat i) row') as [G' EG]; [lia|].
  exists G'. split; [exact EG|]. split.
  - rewrite (list_assign_length _ _ _ _ EG). exact HL.
  - eapply list_assign_Forall; [exact EG | now apply Forall_forall | congruence].
Qed.

Lemma zeros2_square n : square n (zeros2 n).
Proof.
  unfold square, zeros2, zeros. split; [apply repeat_length|].
  apply Forall_forall. intros row H. apply repeat_spec in H. subst row.
  apply repeat_length.
Qed.

Lemma conductance_ok r : exists g, conductance r = Ok g.
Proof.
  unfold conductance, pydiv. destruct (positive r) eqn:E; [|eauto].
  rewrite (positive_nonzero _ E). eauto.
Qed.

Lemma resistor_current_ok v r : exists i, resistor_current v r = Ok i.
Proof.
  unfold resistor_current, pydiv. destruct (positive r) eqn:E; [|eauto].
  rewrite (positive_nonzero _ E). eauto.
Qed.

(** *** A component dict equals itself *)






Lemma index_of_bound vs c : forall i,
  index_of vs c = Ok i -> (0 <= i < Z.of_nat (List.length vs))%Z.
Proof.
  induction vs as [|x vs IH]; intros i H; cbn [index_of] in H; [discriminate|].
  destruct (component_eqb x c).
  - apply Ok_inj in H. subst i. cbn [List.length]. lia.
  - bind_ok H. apply Ok_inj in H. subst i.
    specialize (IH _ E). cbn [List.length]. lia.
Qed.

(** *** Stamping stays inside the matrices *)

Lemma node_of_range (nm : NodeMap) N cid k :
  (0 <= N)%Z ->
  (forall key v, In (key, v) nm -> (0 <= v <= N)%Z) ->
  (0 <= node_of nm cid k <= N)%Z.
Proof.
  intros HN Hr. unfold node_of.
  destruct (dict_get pyid_eqb nm (term_key cid (IdInt k))) as [v|] eqn:E; [|lia].
  exact (Hr _ _ (pget_In _ _ _ E)).
Qed.

Ltac stamp n :=
  match goal with
  | |- context [mat_add ?G ?i ?j ?x] =>
      let G' := fresh "G" in
      let E := fresh "E" in
      let S := fresh "S" in
      destruct (mat_add_ok n G i j x) as (G' & E & S);
      [assumption | lia | lia | rewrite E; run]
  end.

Lemma add_component_ok c G Ivec nm g vs n N :
  square n G -> List.length Ivec = n ->
  Z.of_nat n = (N + Z.of_nat (List.length vs))%Z ->
  (0 <= N)%Z ->
  (forall key v, In (key, v) nm -> (0 <= v <= N)%Z) ->
  (type_is c "battery" = true -> exists i, index_of vs c = Ok i) ->
  exists G' Ivec',
    _add_component_to_mna c G Ivec nm g vs = Ok (G', Ivec') /\
    square n G' /\ List.length Ivec' = n.
Proof.
  intros HG HI Hn HN Hr Hb. unfold _add_component_to_mna. cbv zeta.
  pose proof (node_of_range nm N (comp_id c) 0 HN Hr) as R1.
  pose proof (node_of_range nm N (comp_id c) 1 HN Hr) as R2.
  set (n1 := node_of nm (comp_id c) 0) in *.
  set (n2 := node_of nm (comp_id c) 1) in *.
  destruct (type_is c "resistor").
  - destruct (conductance_ok (prop c "resistance" 1000)) as [cg ->]. run.
    destruct (Z.ltb_spec 0 n1), (Z.ltb_spec 0 n2); repeat stamp n; eauto.
  - destruct (type_is c "battery"); [|eauto].
    destruct Hb as [i Hi]; [reflexivity|].
    rewrite Hi. apply index_of_bound in Hi. run.
    destruct HG as [HL HR]. rewrite HL.
    assert (HG : square n G) by (split; assumption).
    replace (Z.of_nat n - Z.of_nat (List.length vs))%Z with N by lia.
    destruct (vec_set_ok Ivec (N + i) (prop c "voltage" 9)) as (I' & EI & LI);
      [lia|].
    destruct (Z.ltb_spec 0 n1), (Z.ltb_spec 0 n2); repeat stamp n;
      rewrite EI; run; eexists _, _; (split; [reflexivity|]);
      (split; [assumption | congruence]).
Qed.

Lemma stamp_all_ok nm g vs n N :
  Z.of_nat n = (N + Z.of_nat (List.length vs))%Z ->
  (0 <= N)%Z ->
  (forall key v, In (key, v) nm -> (0 <= v <= N)%Z) ->
  forall cs G Ivec,
    (forall c, In c cs -> type_is c "battery" = true ->
               exists i, index_of vs c = Ok i) ->
    square n G -> List.length Ivec = n ->
    exists G' Ivec',
      stamp_all cs G Ivec nm g vs = Ok (G', Ivec') /\
      square n G' /\ List.length Ivec' = n.
Proof.
  intros Hn HN Hr. induction cs as [|c cs IH]; intros G Ivec Hb HG HI.
  - cbn [stamp_all]. eauto.
  - cbn [stamp_all].
    destruct (add_component_ok c G Ivec nm g vs n N HG HI Hn HN Hr)
      as (G1 & I1 & E & SG & LI).
    { apply Hb. now left. }
    rewrite E. run.
    apply IH; [|assumption..].
    intros c' Hin. apply Hb. now right.
Qed.

(** *** Reading the solution stays inside the vector *)

Lemma node_voltage_entries_ok (V : Vector) N : forall items volts,
  (N <= Z.of_nat (List.length V))%Z ->
  Forall (fun kv => (0 <= snd kv <= N)%Z) items ->
  exists volts', node_voltage_entries items V volts = Ok volts'.
Proof.
  induction items as [|[k v] items IH]; intros volts HV Hr;
    cbn [node_voltage_entries]; [eauto|].
  inversion Hr as [|? ? R Hr']; subst. simpl in R.
  destruct (Z.ltb_spec 0 v); [|now apply IH].
  destruct (vec_get_ok V (v - 1)) as [x ->]; [lia|]. run.
  now apply IH.
Qed.

Lemma get_component_voltage_ok c (V : Vector) nm g N :
  (0 <= N)%Z -> (N <= Z.of_nat (List.length V))%Z ->
  (forall key v, In (key, v) nm -> (0 <= v <= N)%Z) ->
  exists v, _get_component_voltage c V nm g = Ok v.
Proof.
  intros HN HV Hr. unfold _get_component_voltage. cbv zeta.
  pose proof (node_of_range nm N (comp_id c) 0 HN Hr) as R1.
  pose proof (node_of_range nm N (comp_id c) 1 HN Hr) as R2.
  set (n1 := node_of nm (comp_id c) 0) in *.
  set (n2 := node_of nm (comp_id c) 1) in *.
  assert (A : exists v1, (if (0 <? n1)%Z then vec_get V (n1 - 1) else Ok 0%Q) = Ok v1).
  { destruct (Z.ltb_spec 0 n1); [apply vec_get_ok; lia | eauto]. }
  assert (B : exists v2, (if (0 <? n2)%Z then vec_get V (n2 - 1) else Ok 0%Q) = Ok v2).
  { destruct (Z.ltb_spec 0 n2); [apply vec_get_ok; lia | eauto]. }
  destruct A as [v1 ->], B as [v2 ->]. run. eauto.
Qed.

Lemma component_entries_ok (V : Vector) nm g vs N :
  (0 <= N)%Z ->
  Z.of_nat (List.length V) = (N + Z.of_nat (List.length vs))%Z ->
  (forall key v, In (key, v) nm -> (0 <= v <= N)%Z) ->
  forall cs volts curs,
    (forall c, In c cs -> type_is c "battery" = true ->
               exists i, index_of vs c = Ok i) ->
    exists volts' curs',
      component_entries cs V nm g vs N volts curs = Ok (volts', curs').
Proof.
  intros HN HV Hr. induction cs as [|c cs IH]; intros volts curs Hb;
    cbn [component_entries]; [eauto|].
  assert (Hb' : forall c', In c' cs -> type_is c' "battery" = true ->
                           exists i, index_of vs c' = Ok i).
  { intros c' Hin. apply Hb. now right. }
  destruct (type_is c "resistor").
  - destruct (get_component_voltage_ok c V nm g N HN) as [v ->]; [lia | exact Hr|].
    run.
    destruct (resistor_current_ok v (prop c "resistance" 1000)) as [i ->]. run.
    now apply IH.
  - destruct (type_is c "battery") eqn:Eb; [|now apply IH].
    destruct (Hb c (or_introl eq_refl) Eb) as [i Hi].
    rewrite Hi. apply index_of_bound in Hi. run.
    destruct (vec_get_ok V (N + i)) as [x ->]; [lia|]. run.
    now apply IH.
Qed.

(** A battery that was stamped is listed among the voltage sources. *)
Lemma add_component_indexed c G Ivec nm g vs G' Ivec' :
  _add_component_to_mna c G Ivec nm g vs = Ok (G', Ivec') ->
  type_is c "battery" = true -> exists i, index_of vs c = Ok i.
Proof.
  unfold _add_component_to_mna. intros H Hb.
  destruct (type_is c "resistor") eqn:Er.
  - exfalso. unfold type_is in Er, Hb.
    destruct (comp_type c) as [t|]; [|discriminate].
    apply String.eqb_eq in Er, Hb. congruence.
  - rewrite Hb in H. bind_ok H. eauto.
Qed.

Lemma stamp_all_indexed nm g vs : forall cs G Ivec G' Ivec',
  stamp_all cs G Ivec nm g vs = Ok (G', Ivec') ->
  forall c, In c cs -> type_is c "battery" = true ->
            exists i, index_of vs c = Ok i.
Proof.
  induction cs as [|c0 cs IH]; intros G Ivec G' Ivec' H c Hin Hb;
    [destruct Hin|].
  cbn [stamp_all] in H. bind_ok H. destruct a as [G1 I1].
  destruct Hin as [->|Hin].
  - eapply add_component_indexed; eassumption.
  - eapply IH; eassumption.
Qed.

Lemma build_node_map_ungrounded components wires nm g :
  find (fun c => type_is c "ground") components = None ->
  _build_node_map components wires = Ok (nm, g) -> g = IdNone.
Proof.
  intros Hf. unfold _build_node_map. rewrite Hf.
  destruct (assign_nodes components IdNone [] 0).
  intros H. bind_ok H. apply Ok_inj in H. now injection H.
Qed.

Lemma build_node_map_found components wires nm g :
  _build_node_map components wires = Ok (nm, g) -> g <> IdNone ->
  exists c0, find (fun c => type_is c "ground") components = Some c0.
Proof.
  intros H Hg.
  destruct (find (fun c => type_is c "ground") components) as [c0|] eqn:Hf;
    [eauto|].
  elim Hg. eapply build_node_map_ungrounded; eassumption.
Qed.

(** On a node map with a ground, the assembly returns a square system when
    every battery is listed among the voltage sources. *)
Lemma dc_system_ok components wires nm g :
  _build_node_map components wires = Ok (nm, g) -> g <> IdNone ->
  (forall c, In c components -> type_is c "battery" = true ->
     exists i,
       index_of (filter (fun c => type_is c "battery") components) c = Ok i) ->
  exists G Ivec,
    dc_system components wires = Ok (nm, g, (G, Ivec)) /\
    (Z.of_nat (List.length G) =
       Z.of_nat (List.length nm) - 1 +
       Z.of_nat (List.length (filter (fun c => type_is c "battery") components)))%Z.
Proof.
  intros Hb Hg Hsrc.
  destruct (build_node_map_found _ _ _ _ Hb Hg) as [c0 Hf].
  destruct (build_node_map_range components wires nm g c0 Hf Hb) as [Hg0 Hr].
  assert (HN : (0 <= Z.of_nat (List.length nm) - 1)%Z).
  { exact (proj2 (Hr _ _ (pget_In _ _ _ Hg0))). }
  unfold dc_system. rewrite Hb. run.
  set (N := (Z.of_nat (List.length nm) - 1)%Z) in *.
  set (vs := filter (fun c => type_is c "battery") components) in *.
  set (n := Z.to_nat (N + Z.of_nat (List.length vs))).
  assert (Hn : Z.of_nat n = (N + Z.of_nat (List.length vs))%Z) by (unfold n; lia).
  destruct (stamp_all_ok nm g vs n N Hn HN Hr components (zeros2 n) (zeros n)
              Hsrc (zeros2_square n) (repeat_length _ _))
    as (G & Ivec & E & [GL GR] & IL).
  rewrite E. run. exists G, Ivec. split; [reflexivity|]. lia.
Qed.

(** The read-out of a vector as long as the assembled system returns. *)
Lemma read_out_ok components wires nm g G Ivec V :
  dc_system components wires = Ok (nm, g, (G, Ivec)) -> g <> IdNone ->
  List.length V = List.length G ->
  exists volts0 volts curs,
    node_voltage_entries nm V [] = Ok volts0 /\
    component_entries components V nm g
      (filter (fun c => type_is c "battery") components)
      (Z.of_nat (List.length nm) - 1) volts0 [] = Ok (volts, curs).
Proof.
  intros Hs Hg HV.
  assert (Hb : _build_node_map components wires = Ok (nm, g)).
  { unfold dc_system in Hs. bind_ok Hs. destruct a as [nm' g'].
    cbv zeta in Hs. bind_ok Hs. destruct a as [G' I'].
    apply Ok_inj in Hs. injection Hs as -> -> _ _. exact E. }
  assert (Hsrc : forall c, In c components -> type_is c "battery" = true ->
            exists i,
              index_of (filter (fun c => type_is c "battery") components) c = Ok i).
  { unfold dc_system in Hs. rewrite Hb in Hs. cbv beta iota zeta delta [bind] in Hs.
    destruct (stamp_all components _ _ nm g _) as [[G' I']|e] eqn:E;
      [|discriminate Hs].
    eapply stamp_all_indexed; exact E. }
  destruct (dc_system_ok _ _ _ _ Hb Hg Hsrc) as (G' & I' & Hs' & HL).
  rewrite Hs in Hs'. apply Ok_inj in Hs'. injection Hs' as <- <-.
  destruct (build_node_map_found _ _ _ _ Hb Hg) as [c0 Hf].
  destruct (build_node_map_range components wires nm g c0 Hf Hb) as [Hg0 Hr].
  assert (HN : (0 <= Z.of_nat (List.length nm) - 1)%Z).
  { exact (proj2 (Hr _ _ (pget_In _ _ _ Hg0))). }
  destruct (node_voltage_entries_ok V (Z.of_nat (List.length nm) - 1) nm [])
    as [volts0 E0]; [lia | |].
  { apply Forall_forall. intros [k v] Hin. exact (Hr k v Hin). }
  destruct (component_entries_ok V nm g
              (filter (fun c => type_is c "battery") components)
              (Z.of_nat (List.length nm) - 1) HN ltac:(lia) Hr components
              volts0 [] Hsrc) as (volts & curs & E1).
  eauto.
Qed.



(** The shape of every call of [simulate_dc] that returned. *)
Lemma simulate_dc_cases solve components wires r :
  simulate_dc solve components wires = Ok r ->
  r = no_ground_result \/ r = singular_result \/
  exists nm g V volts0,
    node_voltage_entries nm V [] = Ok volts0 /\
    component_entries components V nm g
      (filter (fun c => type_is c "battery") components)
      (Z.of_nat (List.length nm) - 1) volts0 [] =
      Ok (voltages r, currents r) /\
    success r = true /\ error r = None /\ node_voltages r = Some (voltages r).
Proof.
  unfold simulate_dc. intros H. bind_ok H. destruct a as [nm g].
  assert (Hdone : forall G Ivec,
    match solve G Ivec with
    | None => Ok singular_result
    | Some V =>
        volts0 <- node_voltage_entries nm V [] ;;
        ' (volts, curs) <- component_entries components V nm g
             (filter (fun c => type_is c "battery") components)
             (Z.of_nat (List.length nm) - 1) volts0 [] ;;
        Ok {| success := true; error := None; voltages := volts;
              currents := curs; node_voltages := Some volts |}
    end = Ok r ->
    r = no_ground_result \/ r = singular_result \/
    exists nm' g' V volts0,
      node_voltage_entries nm' V [] = Ok volts0 /\
      component_entries components V nm' g'
        (filter (fun c => type_is c "battery") components)
        (Z.of_nat (List.length nm') - 1) volts0 [] =
        Ok (voltages r, currents r) /\
      success r = true /\ error r = None /\
      node_voltages r = Some (voltages r)).
  { intros G Ivec H'. destruct (solve G Ivec) as [V|].
    - bind_ok H'. bind_ok H'. destruct a0 as [volts curs].
      apply Ok_inj in H'. subst r. right; right.
      exists nm, g, V, a. repeat split; assumption.
    - apply Ok_inj in H'. subst r. right; now left. }
  revert H. destruct g as [|z|name]; cbv zeta;
    [intros H; apply Ok_inj in H; now left | |];
    intros H; bind_ok H; destruct a as [G Ivec]; exact (Hdone G Ivec H).
Qed.



End DCFacts.

(* ================================================================== *)
(** ** The linear solve step (C8) *)
(* ================================================================== *)

Module SolveStep.
Import Engine Networks NodeSpec EngineProofs NodeMapFacts DCFacts.

(** C8: the solve step of [simulate_dc], for a solver that keeps its
    contract on the assembled system [G * V = Ivec] (it returns the one
    solution when there is exactly one and fails otherwise).  The call
    never ends in an exception: it returns a result, and a result without
    success is the "Singular matrix" dict.  When the system has exactly one
    solution, the call returns success and reads its voltages and currents
    from the vector the solver returned, which is that solution; when it
    does not (two sources forcing one node pair to two voltages, say), the
    call returns the failure dict with success false, the error "Singular
    matrix - cannot solve circuit" and empty voltages and currents. *)
Theorem solve_step_outcome :
  forall solve components wires nm g G Ivec,
    dc_system components wires = Ok (nm, g, (G, Ivec)) ->
    g <> IdNone ->
    solver_contract solve G Ivec ->
    (exists r, simulate_dc solve components wires = Ok r /\
               (success r = false -> r = singular_result)) /\
    (forall V, unique_solution G Ivec V ->
       exists V' volts0 r,
         solve G Ivec = Some V' /\ Forall2 Qeq V' V /\
         simulate_dc solve components wires = Ok r /\
         success r = true /\ error r = None /\
         node_voltage_entries nm V' [] = Ok volts0 /\
         component_entries components V' nm g
           (filter (fun c => type_is c "battery") components)
           (Z.of_nat (List.length nm) - 1) volts0 [] =
           Ok (voltages r, currents r)) /\
    ((~ exists V, unique_solution G Ivec V) ->
       simulate_dc solve components wires = Ok singular_result /\
       success singular_result = false /\
       error singular_result = Some "Singular matrix - cannot solve circuit" /\
       voltages singular_result = [] /\
       currents singular_result = []).
Proof.
  intros solve components wires nm g G Ivec Hsys Hg [Hsome Hnone].
  rewrite (simulate_dc_solver_outcome solve _ _ _ _ _ _ Hsys Hg).
  destruct (solve G Ivec) as [V'|] eqn:E.
  - pose proof (Hsome V' eq_refl) as HU.
    destruct HU as (HL & Hsol & Huniq).
    destruct (read_out_ok _ _ _ _ _ _ V' Hsys Hg HL)
      as (volts0 & volts & curs & E0 & E1).
    rewrite E0. run. rewrite E1. run.
    split; [|split].
    + eexists. split; [reflexivity | discriminate].
    + intros V (HLV & HsolV & HuniqV).
      exists V', volts0. eexists.
      split; [reflexivity|]. split; [now apply HuniqV|].
      split; [reflexivity|]. repeat split; assumption.
    + intros Hno. elim Hno. exists V'. repeat split; assumption.
  - split; [|split].
    + eexists. split; [reflexivity | reflexivity].
    + intros V HU. elim (Hnone eq_refl). eauto.
    + intros _. repeat split.
Qed.

Lemma solve_step_outcome_witness :
  (simulate_dc failing_solver parallel_components parallel_wires =
     Ok singular_result /\
   success singular_result = false) /\
  (exists r,
     simulate_dc probe_solver probe_components [] = Ok r /\
     success r = true /\
     voltages r = [(IdStr "node_b1_0", 9); (IdStr "b1", 9)]%Q).
Proof.
  split.
  - destruct parallel_batteries_system as (nm & g & G & Ivec & Hs & Hg & Hno).
    assert (Hc : solver_contract failing_solver G Ivec).
    { split; [discriminate|]. intros _ [V (_ & Hsol & _)]. exact (Hno V Hsol). }
    destruct (solve_step_outcome failing_solver parallel_components
                parallel_wires nm g G Ivec Hs Hg Hc) as (_ & _ & Hsing).
    destruct Hsing as (A & B & _).
    + intros [V (_ & Hsol & _)]. exact (Hno V Hsol).
    + split; assumption.
  - assert (Hs : dc_system probe_components [] =
                   Ok ([(IdStr "gnd", 0%Z); (IdStr "b1_0", 1%Z)], IdStr "gnd",
                       ([[0; 1]; [1; 0]]%Q, [0; 9]%Q))).
    { vm_compute. reflexivity. }
    assert (HU : unique_solution [[0; 1]; [1; 0]]%Q [0; 9]%Q [9; 0]%Q).
    { split; [reflexivity|]. split.
      - repeat constructor; vm_compute; reflexivity.
      - intros V' HL Hsol. destruct V' as [|a [|b [|c V']]]; try discriminate HL.
        unfold solves in Hsol. cbn [map dot] in Hsol.
        inversion Hsol as [|? ? ? ? H1 Hrest]; subst.
        inversion Hrest as [|? ? ? ? H2 _]; subst.
        repeat constructor; lra. }
    assert (Hc : solver_contract probe_solver [[0; 1]; [1; 0]]%Q [0; 9]%Q).
    { split; [|discriminate]. intros V H. unfold probe_solver in H.
      injection H as <-. exact HU. }
    destruct (solve_step_outcome probe_solver probe_components [] _ _ _ _ Hs
                ltac:(discriminate) Hc) as (_ & Hone & _).
    destruct (Hone _ HU) as (V' & volts0 & r & HV & _ & Hr & Hok & _ & _ & _).
    exists r. split; [exact Hr|]. split; [exact Hok|].
    vm_compute in Hr. apply Ok_inj in Hr. subst r. reflexivity.
Defined.

End SolveStep.

(* ================================================================== *)
(** ** What a DC run reports, and the transient run built on it *)
(* ================================================================== *)

Module ReadoutFacts.
Import Engine Networks NodeSpec EngineProofs NodeMapFacts DCFacts.

Section NumberDicts.
Context {V : Type}.

Lemma qget_qset (d : list (pyid * V)) k v k' :
  dict_get pyid_eqb (dict_set pyid_eqb d k v) k' =
  if pyid_eqb k k' then Some v else dict_get pyid_eqb d k'.
Proof.
  induction d as [|[k0 v0] d IH]; simpl; [reflexivity|].
  destruct (pyid_eqb k0 k) eqn:E0; simpl.
  - apply pyid_eqb_eq in E0. subst k0.
    destruct (pyid_eqb k k'); reflexivity.
  - rewrite IH. destruct (pyid_eqb k0 k') eqn:E1; [|reflexivity].
    destruct (pyid_eqb k k') eqn:E2; [|reflexivity].
    apply pyid_eqb_eq in E1, E2. subst k0 k'.
    rewrite pyid_eqb_refl in E0. discriminate.
Qed.

Lemma qget_keys (d : list (pyid * V)) k :
  dict_get pyid_eqb d k = None <-> ~ In k (map fst d).
Proof.
  induction d as [|[k0 v0] d IH]; simpl.
  - split; [intros _ [] | reflexivity].
  - destruct (pyid_eqb k0 k) eqn:E.
    + apply pyid_eqb_eq in E. split; [discriminate | intros H; elim H; now left].
    + rewrite IH. split.
      * intros H [F|F]; [|now apply H].
        subst k0. rewrite pyid_eqb_refl in E. discriminate.
      * intros H F. apply H. now right.
Qed.

Lemma keys_qset (d : list (pyid * V)) k v :
  map fst (dict_set pyid_eqb d k v) =
  if dict_mem pyid_eqb d k then map fst d else map fst d ++ [k].
Proof.
  unfold dict_mem.
  induction d as [|[k0 v0] d IH]; simpl; [reflexivity|].
  destruct (pyid_eqb k0 k) eqn:E; simpl; [reflexivity|].
  rewrite IH. destruct (dict_get pyid_eqb d k); reflexivity.
Qed.

Lemma NoDup_qset (d : list (pyid * V)) k v :
  NoDup (map fst d) -> NoDup (map fst (dict_set pyid_eqb d k v)).
Proof.
  intros H. rewrite keys_qset. unfold dict_mem.
  destruct (dict_get pyid_eqb d k) eqn:E; [exact H|].
  apply qget_keys in E.
  apply NoDup_app; [exact H | repeat constructor; intros [] |].
  intros x Hx [<-|[]]. now apply E.
Qed.

Lemma qget_app_absent (d1 d2 : list (pyid * V)) k :
  ~ In k (map fst d1) ->
  dict_get pyid_eqb (d1 ++ d2) k = dict_get pyid_eqb d2 k.
Proof.
  induction d1 as [|[k0 v0] d1 IH]; simpl; intros H; [reflexivity|].
  destruct (pyid_eqb k0 k) eqn:E.
  - apply pyid_eqb_eq in E. elim H. now left.
  - apply IH. intros F. apply H. now right.
Qed.

Lemma qset_app_absent (d1 d2 : list (pyid * V)) k v :
  ~ In k (map fst d1) ->
  dict_set pyid_eqb (d1 ++ d2) k v = d1 ++ dict_set pyid_eqb d2 k v.
Proof.
  induction d1 as [|[k0 v0] d1 IH]; simpl; intros H; [reflexivity|].
  destruct (pyid_eqb k0 k) eqn:E.
  - apply pyid_eqb_eq in E. elim H. now left.
  - f_equal. apply IH. intros F. apply H. now right.
Qed.

End NumberDicts.

(** *** Currents *)

Lemma component_entries_currents V nm g vs N (P : pyid -> Prop) :
  forall cs volts curs volts' curs',
    component_entries cs V nm g vs N volts curs = Ok (volts', curs') ->
    (forall c, In c cs ->
       type_is c "resistor" = true \/ type_is c "battery" = true ->
       P (comp_id c)) ->
    Forall (fun kv => (0 <= snd kv)%Q) curs ->
    (forall k, dict_mem pyid_eqb curs k = true -> P k) ->
    Forall (fun kv => (0 <= snd kv)%Q) curs' /\
    (forall k, dict_mem pyid_eqb curs' k = true -> P k).
Proof.
  induction cs as [|c cs IH]; intros volts curs volts' curs' H HP Hpos Hkeys;
    cbn [component_entries] in H.
  - apply Ok_inj in H. injection H as _ <-. auto.
  - assert (HP' : forall c', In c' cs ->
              type_is c' "resistor" = true \/ type_is c' "battery" = true ->
              P (comp_id c')).
    { intros c' Hin. apply HP. now right. }
    assert (Hset : forall x, (0 <= x)%Q ->
              (type_is c "resistor" = true \/ type_is c "battery" = true) ->
              Forall (fun kv => (0 <= snd kv)%Q)
                (dict_set pyid_eqb curs (comp_id c) x) /\
              (forall k, dict_mem pyid_eqb
                           (dict_set pyid_eqb curs (comp_id c) x) k = true ->
                         P k)).
    { intros x Hx Ht. split.
      - now apply Forall_pset with (P := fun v => (0 <= v)%Q).
      - intros k. unfold dict_mem. rewrite qget_qset.
        destruct (pyid_eqb (comp_id c) k) eqn:E; [|apply Hkeys].
        intros _. apply pyid_eqb_eq in E. subst k.
        apply HP; [now left | exact Ht]. }
    destruct (type_is c "resistor") eqn:Er.
    + bind_ok H. bind_ok H.
      destruct (Hset (Qabs a0) (Qabs_nonneg _) (or_introl eq_refl)) as [A B].
      exact (IH _ _ _ _ H HP' A B).
    + destruct (type_is c "battery") eqn:Eb.
      * bind_ok H. bind_ok H.
        destruct (Hset (Qabs a0) (Qabs_nonneg _) (or_intror eq_refl)) as [A B].
        exact (IH _ _ _ _ H HP' A B).
      * exact (IH _ _ _ _ H HP' Hpos Hkeys).
Qed.

(** X20: the currents of a DC run.  Every reported current is zero or
    positive (the direction of the current is dropped), and a current is
    reported under the id of a resistor or of a battery only: no other kind
    of component ever gets a current from [simulate_dc]. *)
Theorem dc_currents_unsigned :
  forall solve components wires r,
    simulate_dc solve components wires = Ok r ->
    Forall (fun kv => (0 <= snd kv)%Q) (currents r) /\
    (forall k, dict_mem pyid_eqb (currents r) k = true -> powered components k).
Proof.
  intros solve components wires r H.
  destruct (simulate_dc_cases _ _ _ _ H) as [->|[->|(nm & g & V & v0 & _ & E & _)]].
  - split; [constructor | discriminate].
  - split; [constructor | discriminate].
  - eapply component_entries_currents; [exact E | | constructor | discriminate].
    intros c Hin Ht. exists c. auto.
Qed.

Lemma dc_currents_unsigned_witness :
  exists r,
    simulate_dc ones_solver divider_components divider_wires = Ok r /\
    currents r <> [] /\
    Forall (fun kv => (0 <= snd kv)%Q) (currents r) /\
    (forall k, dict_mem pyid_eqb (currents r) k = true ->
               powered divider_components k).
Proof.
  destruct (simulate_dc ones_solver divider_components divider_wires)
    as [r|e] eqn:E; [|vm_compute in E; discriminate E].
  exists r. split; [reflexivity|]. split.
  - vm_compute in E. apply Ok_inj in E. subst r. discriminate.
  - exact (dc_currents_unsigned ones_solver divider_components divider_wires r E).
Defined.

(** *** Result dicts have each key once *)

Lemma node_voltage_entries_keys V : forall items volts volts',
  node_voltage_entries items V volts = Ok volts' ->
  NoDup (map fst volts) -> NoDup (map fst volts').
Proof.
  induction items as [|[k v] items IH]; intros volts volts' H Hnd;
    cbn [node_voltage_entries] in H.
  - apply Ok_inj in H. now subst.
  - destruct (0 <? v)%Z; [|eapply IH; eassumption].
    bind_ok H. eapply IH; [exact H|]. now apply NoDup_qset.
Qed.

Lemma component_entries_keys V nm g vs N : forall cs volts curs volts' curs',
  component_entries cs V nm g vs N volts curs = Ok (volts', curs') ->
  NoDup (map fst volts) -> NoDup (map fst curs) ->
  NoDup (map fst volts') /\ NoDup (map fst curs').
Proof.
  induction cs as [|c cs IH]; intros volts curs volts' curs' H Hv Hc;
    cbn [component_entries] in H.
  - apply Ok_inj in H. injection H as <- <-. auto.
  - destruct (type_is c "resistor").
    + bind_ok H. bind_ok H. eapply IH; [exact H | |]; now apply NoDup_qset.
    + destruct (type_is c "battery").
      * bind_ok H. bind_ok H. eapply IH; [exact H | |]; now apply NoDup_qset.
      * eapply IH; eassumption.
Qed.

Lemma simulate_dc_keys solve components wires r :
  simulate_dc solve components wires = Ok r ->
  NoDup (map fst (voltages r)) /\ NoDup (map fst (currents r)).
Proof.
  intros H.
  destruct (simulate_dc_cases _ _ _ _ H) as [->|[->|(nm & g & V & v0 & E0 & E & _)]].
  - split; constructor.
  - split; constructor.
  - eapply component_entries_keys; [exact E | | constructor].
    eapply node_voltage_entries_keys; [exact E0 | constructor].
Qed.

(** *** Histories *)

Lemma append_history_first : forall post pre,
  NoDup (map fst (pre ++ post)) ->
  append_history post (map (fun kv => (fst kv, [snd kv])) pre) =
  map (fun kv => (fst kv, [snd kv])) (pre ++ post).
Proof.
  induction post as [|[k v] post IH]; intros pre Hnd; cbn [append_history].
  - now rewrite app_nil_r.
  - assert (Hk : ~ In k (map fst (map (fun kv : pyid * Q => (fst kv, [snd kv])) pre))).
    { rewrite map_map. simpl. rewrite map_app in Hnd.
      apply NoDup_remove_2 in Hnd. intros F. apply Hnd.
      apply in_or_app. now left. }
    pose proof (proj2 (qget_keys _ _) Hk) as Hnone.
    unfold dict_mem. rewrite Hnone. rewrite qget_qset, pyid_eqb_refl.
    rewrite (pset_absent _ _ _ Hnone).
    rewrite <- (app_nil_r (map _ pre ++ [(k, [])])), <- app_assoc.
    rewrite qset_app_absent by exact Hk.
    cbn [app dict_set]. rewrite pyid_eqb_refl.
    replace (pre ++ (k, v) :: post) with ((pre ++ [(k, v)]) ++ post)
      by now rewrite <- app_assoc.
    rewrite <- IH.
    + now rewrite map_app.
    + now rewrite <- app_assoc.
Qed.

Lemma append_history_next (m : nat) : forall post pre,
  NoDup (map fst (pre ++ post)) ->
  append_history post
    (map (fun kv => (fst kv, repeat (snd kv) m ++ [snd kv])) pre ++
     map (fun kv => (fst kv, repeat (snd kv) m)) post) =
  map (fun kv => (fst kv, repeat (snd kv) m ++ [snd kv])) (pre ++ post).
Proof.
  induction post as [|[k v] post IH]; intros pre Hnd; cbn [append_history].
  - cbn [map]. now rewrite !app_nil_r.
  - assert (Hk : ~ In k (map fst
        (map (fun kv : pyid * Q => (fst kv, repeat (snd kv) m ++ [snd kv])) pre))).
    { rewrite map_map. simpl. rewrite map_app in Hnd.
      apply NoDup_remove_2 in Hnd. intros F. apply Hnd.
      apply in_or_app. now left. }
    cbn [map fst snd].
    unfold dict_mem. rewrite (qget_app_absent _ _ _ Hk).
    cbn [dict_get]. rewrite pyid_eqb_refl.
    rewrite (qget_app_absent _ _ _ Hk). cbn [dict_get]. rewrite pyid_eqb_refl.
    rewrite (qset_app_absent _ _ _ _ Hk). cbn [dict_set]. rewrite pyid_eqb_refl.
    replace (pre ++ (k, v) :: post) with ((pre ++ [(k, v)]) ++ post)
      by now rewrite <- app_assoc.
    rewrite <- IH.
    + rewrite map_app. cbn [map fst snd]. now rewrite <- app_assoc.
    + now rewrite <- app_assoc.
Qed.

Lemma held_first d :
  NoDup (map fst d) -> append_history d [] = held 1 d.
Proof.
  intros H. exact (append_history_first d [] H).
Qed.

Lemma held_next d m :
  NoDup (map fst d) -> append_history d (held (S m) d) = held (S (S m)) d.
Proof.
  intros H. unfold held.
  pose proof (append_history_next (S m) d [] H) as E.
  cbn [map app] in E. rewrite E.
  apply map_ext. intros [k v]. cbn [fst snd].
  now rewrite <- repeat_cons.
Qed.

Lemma transient_steps_held solve components wires r :
  simulate_dc solve components wires = Ok r ->
  forall pts m,
    transient_steps solve pts components wires
      (held (S m) (voltages r)) (held (S m) (currents r)) =
    Ok (held (S m + List.length pts) (voltages r),
        held (S m + List.length pts) (currents r)).
Proof.
  intros H. destruct (simulate_dc_keys _ _ _ _ H) as [Kv Kc].
  induction pts as [|t pts IH]; intros m; cbn [transient_steps].
  - cbn [List.length]. now rewrite Nat.add_0_r.
  - rewrite H. run. rewrite (held_next _ m Kv), (held_next _ m Kc).
    rewrite IH. cbn [List.length]. now rewrite Nat.add_succ_r.
Qed.

(** X21: a transient run is the DC operating point, copied.  When the DC
    analysis of the circuit returns a result, [simulate_transient] returns
    whenever [np.arange] gives it a time axis, always with success true, and
    its voltage and current histories hold, under every key of the DC
    result, that one DC value once per time point: nothing changes from one
    time point to the next, and a failed DC analysis (empty voltages and
    currents) gives empty histories under success true.  When [np.arange]
    raises, so does the run. *)
Theorem transient_repeats_dc :
  forall solve np_arange components wires duration time_step r,
    simulate_dc solve components wires = Ok r ->
    match np_arange 0 duration time_step with
    | Ok pts =>
        simulate_transient solve np_arange components wires duration time_step =
          Ok {| t_success := true;
                time := pts;
                t_voltages := held (List.length pts) (voltages r);
                t_currents := held (List.length pts) (currents r) |}
    | Raise e =>
        simulate_transient solve np_arange components wires duration time_step =
          Raise e
    end.
Proof.
  intros solve np_arange components wires duration time_step r H.
  unfold simulate_transient.
  destruct (np_arange 0 duration time_step) as [pts|e]; [|reflexivity].
  run. destruct pts as [|t pts]; [reflexivity|].
  cbn [transient_steps]. rewrite H. run.
  destruct (simulate_dc_keys _ _ _ _ H) as [Kv Kc].
  rewrite (held_first _ Kv), (held_first _ Kc).
  rewrite (transient_steps_held _ _ _ _ H pts 0). reflexivity.
Qed.

Lemma transient_repeats_dc_witness :
  exists r pts,
    simulate_dc ones_solver divider_components divider_wires = Ok r /\
    grid 0 (3 # 1000) (1 # 1000) = Ok pts /\
    List.length pts = 3%nat /\
    simulate_transient ones_solver grid divider_components divider_wires
      (3 # 1000) (1 # 1000) =
      Ok {| t_success := true;
            time := pts;
            t_voltages := held (List.length pts) (voltages r);
            t_currents := held (List.length pts) (currents r) |}.
Proof.
  destruct (simulate_dc ones_solver divider_components divider_wires)
    as [r|e] eqn:E; [|vm_compute in E; discriminate E].
  pose proof (transient_repeats_dc ones_solver grid divider_components
                divider_wires (3 # 1000) (1 # 1000) r E) as Et.
  destruct (grid 0 (3 # 1000) (1 # 1000)) as [pts|e] eqn:Ea;
    [|vm_compute in Ea; discriminate Ea].
  exists r, pts. split; [reflexivity|]. split; [reflexivity|].
  split; [|exact Et].
  vm_compute in Ea. apply Ok_inj in Ea. subst pts. reflexivity.
Defined.

End ReadoutFacts.

(* ================================================================== *)
(** ** Visual states *)
(* ================================================================== *)

Module StateFacts.
Import Engine Networks NodeSpec EngineProofs NodeMapFacts DCFacts ReadoutFacts.

Lemma find_over_app {A : Type} (f : A -> bool) (l1 l2 : list A) :
  find f (l1 ++ l2) =
  match find f l1 with Some a => Some a | None => find f l2 end.
Proof.
  induction l1 as [|a l1 IH]; simpl; [reflexivity|].
  destruct (f a); [reflexivity | exact IH].
Qed.

Lemma component_states_get v cur : forall cs acc k,
  dict_get pyid_eqb (calculate_component_states cs v cur acc) k =
  match last_with_id cs k with
  | Some c => Some (component_state c v cur)
  | None => dict_get pyid_eqb acc k
  end.
Proof.
  unfold last_with_id.
  induction cs as [|c cs IH]; intros acc k; cbn [calculate_component_states rev].
  - reflexivity.
  - rewrite IH, find_over_app.
    destruct (find (fun c0 => pyid_eqb (comp_id c0) k) (rev cs)); [reflexivity|].
    cbn [find]. rewrite qget_qset.
    destruct (pyid_eqb (comp_id c) k); reflexivity.
Qed.

Lemma component_states_length v cur : forall cs acc,
  (List.length (calculate_component_states cs v cur acc) <=
   List.length acc + List.length cs)%nat.
Proof.
  induction cs as [|c cs IH]; intros acc; cbn [calculate_component_states].
  - cbn [List.length]. lia.
  - specialize (IH (dict_set pyid_eqb acc (comp_id c) (component_state c v cur))).
    assert (L : (List.length (dict_set pyid_eqb acc (comp_id c)
                                (component_state c v cur)) <=
                 S (List.length acc))%nat).
    { destruct (dict_get pyid_eqb acc (comp_id c)) eqn:E.
      - rewrite (pset_present_length _ _ _ _ E). lia.
      - rewrite (pset_absent _ _ _ E), length_app. simpl. lia. }
    cbn [List.length]. lia.
Qed.

Lemma find_last_In {A : Type} (f : A -> bool) l a :
  find f (rev l) = Some a -> In a l /\ f a = true.
Proof.
  intros H. apply find_some in H. destruct H as [Hin Hf].
  split; [now apply in_rev | exact Hf].
Qed.

(** X22: the dict of [calculate_component_states] is keyed by component id,
    one entry per distinct id.  The entry under an id is the state computed
    for the last component of the list that carries this id (components
    that share an id shadow each other), an id of no component has no
    entry, and the dict is never longer than the component list. *)
Theorem component_states_by_id :
  forall components voltages currents k,
    dict_get pyid_eqb
      (calculate_component_states components voltages currents []) k =
      option_map (fun c => component_state c voltages currents)
        (last_with_id components k) /\
    (forall c, last_with_id components k = Some c ->
       In c components /\ comp_id c = k) /\
    ((forall c, In c components -> comp_id c <> k) ->
     last_with_id components k = None) /\
    (List.length (calculate_component_states components voltages currents []) <=
     List.length components)%nat.
Proof.
  intros components voltages currents k. split; [|split; [|split]].
  - rewrite component_states_get.
    destruct (last_with_id components k); reflexivity.
  - intros c H. apply find_last_In in H. destruct H as [Hin Hk].
    split; [exact Hin | now apply pyid_eqb_eq].
  - intros Hno. unfold last_with_id.
    destruct (find _ (rev components)) as [c|] eqn:E; [|reflexivity].
    apply find_last_In in E. destruct E as [Hin Hk].
    apply pyid_eqb_eq in Hk. elim (Hno c Hin Hk).
  - exact (component_states_length voltages currents components []).
Qed.

(** *** LEDs *)

Lemma led_not_resistor c : type_is c "led" = true -> type_is c "resistor" = false.
Proof.
  unfold type_is. destruct (comp_type c) as [t|]; [|discriminate].
  intros H. apply String.eqb_eq in H. now subst t.
Qed.

Lemma num_gt_lt a b : num_gt a b = true <-> (b < a)%Q.
Proof.
  unfold num_gt. rewrite negb_true_iff. split.
  - intros H. apply Qnot_le_lt. intros F. apply Qle_bool_iff in F. congruence.
  - intros H. destruct (Qle_bool a b) eqn:E; [|reflexivity].
    apply Qle_bool_iff in E. apply Qlt_not_le in H. contradiction.
Qed.

Lemma num_gt_le a b : num_gt a b = false <-> (a <= b)%Q.
Proof.
  unfold num_gt. rewrite negb_false_iff. apply Qle_bool_iff.
Qed.

Lemma num_lt_lt a b : num_lt a b = true <-> (a < b)%Q.
Proof. unfold num_lt. exact (num_gt_lt b a). Qed.

Lemma num_lt_le a b : num_lt a b = false <-> (b <= a)%Q.
Proof. unfold num_lt. exact (num_gt_le b a). Qed.

Lemma pymin_le a b : (pymin a b <= a)%Q /\ (pymin a b <= b)%Q.
Proof.
  unfold pymin. destruct (num_lt b a) eqn:E.
  - apply num_lt_lt in E. split; [now apply Qlt_le_weak | apply Qle_refl].
  - apply num_lt_le in E. split; [apply Qle_refl | exact E].
Qed.

Lemma pymin_either a b : pymin a b = a \/ pymin a b = b.
Proof. unfold pymin. destruct (num_lt b a); auto. Qed.

(** X23: the state of an LED.  Its brightness is always present and lies
    between 0 and 100; the LED is "on" exactly when its current is above
    1 mA, and then its brightness is above 0; otherwise it is "off" with
    brightness 0.  No other status is possible for an LED, and its voltage
    plays no part. *)
Theorem led_state_range :
  forall c voltages currents,
    type_is c "led" = true ->
    exists b,
      st_brightness (component_state c voltages currents) = Some b /\
      (0 <= b <= 100)%Q /\
      ((st_status (component_state c voltages currents) = "on" /\
        (1 # 1000 < get0 currents (comp_id c))%Q /\ (0 < b)%Q) \/
       (st_status (component_state c voltages currents) = "off" /\
        (get0 currents (comp_id c) <= 1 # 1000)%Q /\ b = 0%Q)).
Proof.
  intros c voltages currents Hled.
  unfold component_state. rewrite (led_not_resistor _ Hled), Hled. cbv zeta.
  set (cur := get0 currents (comp_id c)).
  destruct (num_gt cur (1 # 1000)) eqn:E; cbn [st_brightness st_status].
  - apply num_gt_lt in E.
    assert (Hx : (5 < cur / (2 # 100) * 100)%Q).
    { unfold Qdiv. change (/ (2 # 100))%Q with (100 # 2)%Q. lra. }
    eexists. split; [reflexivity|].
    destruct (pymin_le 100 (cur / (2 # 100) * 100)) as [L1 L2].
    destruct (pymin_either 100 (cur / (2 # 100) * 100)) as [R|R]; rewrite R in *.
    + split; [lra|]. left. split; [reflexivity | split; [exact E | lra]].
    + split; [lra|]. left. split; [reflexivity | split; [exact E | lra]].
  - apply num_gt_le in E. exists 0%Q. split; [reflexivity|].
    split; [lra|]. right. split; [reflexivity | split; [exact E | reflexivity]].
Qed.

Lemma led_state_range_witness :
  let currents := [(IdStr "d1", 1 # 100)] in
  exists b,
    st_brightness (component_state (led "d1") [] currents) = Some b /\
    (0 <= b <= 100)%Q /\
    ((st_status (component_state (led "d1") [] currents) = "on" /\
      (1 # 1000 < get0 currents (comp_id (led "d1")))%Q /\ (0 < b)%Q) \/
     (st_status (component_state (led "d1") [] currents) = "off" /\
      (get0 currents (comp_id (led "d1")) <= 1 # 1000)%Q /\ b = 0%Q)).
Proof.
  exact (led_state_range (led "d1") [] [(IdStr "d1", 1 # 100)] eq_refl).
Defined.

(** A DC run reports no current under an id that no resistor and no battery
    carries. *)
Lemma dc_current_absent solve components wires r k :
  simulate_dc solve components wires = Ok r ->
  ~ powered components k ->
  get0 (currents r) k = 0%Q.
Proof.
  intros H Hk. unfold get0.
  destruct (dict_get pyid_eqb (currents r) k) as [x|] eqn:E; [|reflexivity].
  exfalso. apply Hk.
  destruct (simulate_dc_cases _ _ _ _ H) as [->|[->|(nm & g & V & v0 & _ & E1 & _)]];
    [discriminate E | discriminate E |].
  refine (proj2 (component_entries_currents V nm g _ _ (powered components)
            components v0 [] _ _ E1 _ (Forall_nil _) _) k _).
  - intros c Hin Ht. exists c. auto.
  - discriminate.
  - unfold dict_mem. now rewrite E.
Qed.

(** X24: an LED never lights after a DC run.  [simulate_dc] computes
    currents for resistors and batteries only, so for the results of any DC
    run that returned, the state of an LED whose id no resistor or battery
    shares has current 0, status "off" and brightness 0, whatever the
    circuit around it is. *)
Theorem led_dark_after_dc :
  forall solve components wires r c,
    simulate_dc solve components wires = Ok r ->
    type_is c "led" = true ->
    ~ powered components (comp_id c) ->
    component_state c (voltages r) (currents r) =
      {| st_voltage := get0 (voltages r) (comp_id c);
         st_current := 0;
         st_power := get0 (voltages r) (comp_id c) * 0;
         st_status := "off";
         st_brightness := Some 0%Q |}.
Proof.
  intros solve components wires r c H Hled Hk.
  unfold component_state. rewrite (led_not_resistor _ Hled), Hled. cbv zeta.
  rewrite (dc_current_absent _ _ _ _ _ H Hk). reflexivity.
Qed.

Lemma led_dark_after_dc_witness :
  exists r c,
    simulate_dc ones_solver lamp_components lamp_wires = Ok r /\
    In c lamp_components /\ comp_id c = IdStr "d1" /\
    success r = true /\
    component_state c (voltages r) (currents r) =
      {| st_voltage := get0 (voltages r) (comp_id c);
         st_current := 0;
         st_power := get0 (voltages r) (comp_id c) * 0;
         st_status := "off";
         st_brightness := Some 0%Q |}.
Proof.
  destruct (simulate_dc ones_solver lamp_components lamp_wires)
    as [r|e] eqn:E; [|vm_compute in E; discriminate E].
  exists r, (led "d1").
  split; [reflexivity|]. split; [simpl; tauto|]. split; [reflexivity|]. split.
  - vm_compute in E. apply Ok_inj in E. subst r. reflexivity.
  - apply (led_dark_after_dc ones_solver lamp_components lamp_wires r
             (led "d1") E eq_refl).
    intros (c' & Hin & Hid & Ht). simpl in Hin.
    destruct Hin as [<-|[<-|[<-|[<-|[]]]]]; try discriminate Hid;
      destruct Ht as [Ht|Ht]; discriminate Ht.
Defined.

(** *** Wires *)








End StateFacts.

(* ================================================================== *)
(** ** The entry point *)
(* ================================================================== *)

Module DispatchFacts.
Import Engine Networks NodeSpec EngineProofs NodeMapFacts DCFacts ReadoutFacts.



End DispatchFacts.
